(** * AMR fleet simulation core: robot state machine, task scheduler, fleet tick

    A shallow embedding of the simulation core of [amr_dashboard.py]
    ([Position], [Task], [Robot], [TaskScheduler], [AMRFleetManager]), of
    the two control-panel commands that write robot state
    ([emergency_stop], [charge_all]) and of the state behind the dashboard
    ([AMRDashboard]: the fleet it sets up, its buttons and slider, the
    series it logs frame by frame).  The calls of [random] and of
    [datetime.now()] are arguments of the functions that make them; drawing
    and message boxes are left out.

    Numbers.  The program computes with Python floats.  Here they are
    idealised as real numbers: [+], [-], [*], [/], [sqrt] and the comparisons
    are the exact ones of [R], and [float('inf')] is an explicit top element.
    Rounding, overflow and NaN are outside the model.  What depends on
    rounding is evaluated on [Binary64], the physics step written once more
    on binary64 numbers; statements about whole runs of the simulation are
    made with margins that rounding does not reach.

    Objects.  Every robot is a record held by value in the fleet's list; a
    robot returned by the scheduler is named by its index in that list.  The
    model assumes what the program's own set-up guarantees: no two robots
    share one [Position] object, and a task object sits in the pending list
    once. *)

From Stdlib Require Import Reals Lra Lia ZArith DecimalString String List Bool.
From Stdlib Require Import Permutation Sorted.
From Stdlib Require PrimFloat.
Import ListNotations.

Open Scope R_scope.

(** ** Python numeric built-ins *)

Definition Rltb (a b : R) : bool := if Rlt_dec a b then true else false.
Definition Rleb (a b : R) : bool := if Rle_dec a b then true else false.

(** [min(a, b)] returns [b] when [b < a] and [a] otherwise. *)
Definition py_min (a b : R) : R := if Rltb b a then b else a.

(** [max(a, b)] returns [b] when [b > a] and [a] otherwise. *)
Definition py_max (a b : R) : R := if Rltb a b then b else a.

(** [round(x)] for a real [x]: the nearest integer, a tie going to the even
    one. *)
Definition py_round (x : R) : Z :=
  let f := (up x - 1)%Z in
  if Rltb (x - IZR f) (1 / 2) then f
  else if Rltb (1 / 2) (x - IZR f) then (f + 1)%Z
  else if Z.even f then f else (f + 1)%Z.

(** [round(x, 2)] *)
Definition py_round2 (x : R) : R := IZR (py_round (x * 100)) / 100.

(** [np.mean(l)] of a non-empty list. *)
Definition np_mean (l : list R) : R :=
  fold_right Rplus 0 l / INR (length l).

(** [f"{n}"] and [f"{n:02d}"] for integers. *)
Definition string_of_Z (n : Z) : string :=
  NilZero.string_of_int (Z.to_int n).

Definition format_02d (n : nat) : string :=
  let s := NilZero.string_of_uint (Nat.to_uint n) in
  if (String.length s <? 2)%nat then String.append "0" s else s.

(** [float('inf')] and the reals below it. *)
Inductive Score : Type :=
| Finite (s : R)
| Infinity.

(** [score < best_score] for a real [score]. *)
Definition score_ltb (s : R) (best : Score) : bool :=
  match best with
  | Finite b => Rltb s b
  | Infinity => true
  end.

(** ** Data model *)

Inductive RobotStatus : Type :=
| IDLE | MOVING | WORKING | CHARGING | MAINTENANCE.

Inductive TaskType : Type :=
| PICKUP | DELIVERY | INSPECTION | CLEANING.

Record Position : Type := mkPosition { px : R; py : R }.

(** [Position.distance_to] *)
Definition distance_to (self other : Position) : R :=
  sqrt ((px self - px other) ^ 2 + (py self - py other) ^ 2).

Record Task : Type := mkTask {
  task_id : string;
  task_type : TaskType;
  start_pos : Position;
  end_pos : Position;
  priority : Z;
  estimated_duration : R;
  assigned_robot : option string;
  created_time : Z
}.

Record Robot : Type := mkRobot {
  robot_id : string;
  position : Position;
  status : RobotStatus;
  battery_level : R;
  max_battery : R;
  speed : R;
  current_task : option Task;
  path : list Position;
  total_distance_traveled : R;
  tasks_completed : nat;
  last_maintenance : Z;
  target_position : option Position
}.

(** Field assignments [self.f = v]. *)
Definition set_position (r : Robot) (p : Position) : Robot :=
  mkRobot (robot_id r) p (status r) (battery_level r) (max_battery r)
    (speed r) (current_task r) (path r) (total_distance_traveled r)
    (tasks_completed r) (last_maintenance r) (target_position r).

Definition set_status (r : Robot) (s : RobotStatus) : Robot :=
  mkRobot (robot_id r) (position r) s (battery_level r) (max_battery r)
    (speed r) (current_task r) (path r) (total_distance_traveled r)
    (tasks_completed r) (last_maintenance r) (target_position r).

Definition set_battery_level (r : Robot) (b : R) : Robot :=
  mkRobot (robot_id r) (position r) (status r) b (max_battery r)
    (speed r) (current_task r) (path r) (total_distance_traveled r)
    (tasks_completed r) (last_maintenance r) (target_position r).

Definition set_current_task (r : Robot) (t : option Task) : Robot :=
  mkRobot (robot_id r) (position r) (status r) (battery_level r)
    (max_battery r) (speed r) t (path r) (total_distance_traveled r)
    (tasks_completed r) (last_maintenance r) (target_position r).

Definition set_total_distance_traveled (r : Robot) (d : R) : Robot :=
  mkRobot (robot_id r) (position r) (status r) (battery_level r)
    (max_battery r) (speed r) (current_task r) (path r) d
    (tasks_completed r) (last_maintenance r) (target_position r).

Definition set_tasks_completed (r : Robot) (n : nat) : Robot :=
  mkRobot (robot_id r) (position r) (status r) (battery_level r)
    (max_battery r) (speed r) (current_task r) (path r)
    (total_distance_traveled r) n (last_maintenance r) (target_position r).

Definition set_target_position (r : Robot) (p : option Position) : Robot :=
  mkRobot (robot_id r) (position r) (status r) (battery_level r)
    (max_battery r) (speed r) (current_task r) (path r)
    (total_distance_traveled r) (tasks_completed r) (last_maintenance r) p.

Definition set_speed (r : Robot) (v : R) : Robot :=
  mkRobot (robot_id r) (position r) (status r) (battery_level r)
    (max_battery r) v (current_task r) (path r)
    (total_distance_traveled r) (tasks_completed r) (last_maintenance r)
    (target_position r).

Definition set_assigned_robot (t : Task) (a : option string) : Task :=
  mkTask (task_id t) (task_type t) (start_pos t) (end_pos t) (priority t)
    (estimated_duration t) a (created_time t).

(** Dataclass equality [==] compares all fields. *)
Definition Position_eq_dec (p q : Position) : {p = q} + {p <> q}.
Proof. decide equality; apply Req_dec_T. Defined.

Definition TaskType_eq_dec (a b : TaskType) : {a = b} + {a <> b}.
Proof. decide equality. Defined.

Definition RobotStatus_eq_dec (a b : RobotStatus) : {a = b} + {a <> b}.
Proof. decide equality. Defined.

Definition Task_eq_dec (t u : Task) : {t = u} + {t <> u}.
Proof.
  decide equality;
    first [ apply Z.eq_dec | apply Req_dec_T | apply Position_eq_dec
          | apply TaskType_eq_dec | apply string_dec
          | decide equality; apply string_dec ].
Defined.

(** ** Robot *)

Module Robot.

(** [Robot.__init__]; [now] is the value of [datetime.now()]. *)
Definition init (robot_id : string) (initial_pos : Position)
    (max_battery : R) (now : Z) : Robot :=
  mkRobot robot_id initial_pos IDLE max_battery max_battery 2
    None [] 0 0%nat now None.

(** [Robot.move_towards_target]: the updated robot and the returned
    flag. *)
Definition move_towards_target (self : Robot) (target : Position) (dt : R)
    : Robot * bool :=
  if Rleb (battery_level self) 5 then
    (set_status self CHARGING, false)
  else
    let distance := distance_to (position self) target in
    if Rltb distance 0.5 then
      (set_position self (mkPosition (px target) (py target)), true)
    else
      let move_distance := py_min (speed self * dt) distance in
      let direction_x := (px target - px (position self)) / distance in
      let direction_y := (py target - py (position self)) / distance in
      let self1 :=
        set_position self
          (mkPosition (px (position self) + direction_x * move_distance)
                      (py (position self) + direction_y * move_distance)) in
      let self2 :=
        set_total_distance_traveled self1
          (total_distance_traveled self1 + move_distance) in
      let self3 :=
        set_battery_level self2
          (py_max 0 (battery_level self2 - move_distance * 0.1)) in
      (self3, false).

(** [Robot.assign_task]: the updated robot; the task object it now holds
    carries [assigned_robot = self.id]. *)
Definition assign_task (self : Robot) (task : Task) : Robot :=
  let task' := set_assigned_robot task (Some (robot_id self)) in
  set_target_position
    (set_status (set_current_task self (Some task')) MOVING)
    (Some (start_pos task')).

(** [Robot.complete_current_task] *)
Definition complete_current_task (self : Robot) : Robot :=
  match current_task self with
  | Some _ =>
      set_target_position
        (set_status
           (set_current_task
              (set_tasks_completed self (tasks_completed self + 1)%nat)
              None)
           IDLE)
        None
  | None => self
  end.

End Robot.

(** ** The physics step in binary64 *)

(** [Robot.move_towards_target] once more, on the numbers the program
    computes with: every operation is the IEEE 754 binary64 one, [x ** 2]
    is [x * x] and [np.sqrt] the correctly rounded square root.  Only the
    fields that the step reads or writes are kept. *)
Module Binary64.
Import PrimFloat.
Local Open Scope float_scope.
#[local] Set Warnings "-inexact-float".

Record Position : Type := mkPosition { x : float; y : float }.

(** [Position.distance_to] *)
Definition distance_to (self other : Position) : float :=
  sqrt ((x self - x other) * (x self - x other)
        + (y self - y other) * (y self - y other)).

Record Robot : Type := mkRobot {
  position : Position;
  status : RobotStatus;
  battery_level : float;
  max_battery : float;
  speed : float;
  total_distance_traveled : float
}.

(** [Robot.__init__] *)
Definition init (initial_pos : Position) (max_battery : float) : Robot :=
  mkRobot initial_pos IDLE max_battery max_battery 2 0.

Definition py_min (a b : float) : float := if b <? a then b else a.

Definition py_max (a b : float) : float := if a <? b then b else a.

(** [Robot.move_towards_target] *)
Definition move_towards_target (self : Robot) (target : Position)
    (dt : float) : Robot * bool :=
  if battery_level self <=? 5 then
    (mkRobot (position self) CHARGING (battery_level self)
       (max_battery self) (speed self) (total_distance_traveled self),
     false)
  else
    let distance := distance_to (position self) target in
    if distance <? 0.5 then
      (mkRobot (mkPosition (x target) (y target)) (status self)
         (battery_level self) (max_battery self) (speed self)
         (total_distance_traveled self),
       true)
    else
      let move_distance := py_min (speed self * dt) distance in
      let direction_x := (x target - x (position self)) / distance in
      let direction_y := (y target - y (position self)) / distance in
      (mkRobot
         (mkPosition (x (position self) + direction_x * move_distance)
                     (y (position self) + direction_y * move_distance))
         (status self)
         (py_max 0 (battery_level self - move_distance * 0.1))
         (max_battery self) (speed self)
         (total_distance_traveled self + move_distance),
       false).

(** [n] calls of [move_towards_target] with one target. *)
Fixpoint move_n (n : nat) (r : Robot) (target : Position) (dt : float)
    : Robot :=
  match n with
  | O => r
  | S k => move_n k (fst (move_towards_target r target dt)) target dt
  end.

End Binary64.

(** ** Python list built-ins *)

(** [list.remove(x)]: drops the first element equal to [x]. *)
Fixpoint list_remove (x : Task) (l : list Task) : list Task :=
  match l with
  | [] => []
  | y :: ys => if Task_eq_dec y x then ys else y :: list_remove x ys
  end.

(** [list.sort(key=lambda t: t.priority, reverse=True)].  Python's sort is
    stable, also with [reverse=True]; it is modelled by the stable insertion
    sort, and [stable_sort_unique] below shows that a stable descending sort
    has one possible result. *)
Fixpoint insert_by_priority (t : Task) (l : list Task) : list Task :=
  match l with
  | [] => [t]
  | u :: us =>
      if (priority u <=? priority t)%Z then t :: u :: us
      else u :: insert_by_priority t us
  end.

Fixpoint sort_by_priority_desc (l : list Task) : list Task :=
  match l with
  | [] => []
  | t :: ts => insert_by_priority t (sort_by_priority_desc ts)
  end.

(** [min(l, key=key)]: the first element whose key is minimal; [None] is the
    [ValueError] on an empty list. *)
Definition py_min_by {A : Type} (key : A -> R) (l : list A) : option A :=
  match l with
  | [] => None
  | x :: xs =>
      Some (fold_left
              (fun best y => if Rltb (key y) (key best) then y else best)
              xs x)
  end.

(** [l[i] = f(l[i])], for the object at index [i] of a list. *)
Fixpoint update_nth {A : Type} (i : nat) (f : A -> A) (l : list A) : list A :=
  match l, i with
  | [], _ => []
  | x :: xs, O => f x :: xs
  | x :: xs, S j => x :: update_nth j f xs
  end.

(** ** TaskScheduler *)

Record TaskScheduler : Type := mkTaskScheduler {
  pending_tasks : list Task
}.

Module TaskScheduler.

Definition init : TaskScheduler := mkTaskScheduler [].

(** [TaskScheduler.add_task] *)
Definition add_task (self : TaskScheduler) (task : Task) : TaskScheduler :=
  mkTaskScheduler (sort_by_priority_desc (pending_tasks self ++ [task])).

(** The filter of [available_robots]. *)
Definition is_available (r : Robot) : bool :=
  (if RobotStatus_eq_dec (status r) IDLE then true else false)
  && Rltb 20 (battery_level r).

(** [available_robots]: each robot object with its index in [robots]. *)
Definition available_robots (robots : list Robot) : list (nat * Robot) :=
  filter (fun ir => is_available (snd ir))
         (combine (seq 0 (length robots)) robots).

(** [score] of one (robot, task) pair. *)
Definition score (robot : Robot) (task : Task) : R :=
  let distance := distance_to (position robot) (start_pos task) in
  let battery_penalty := (100 - battery_level robot) * 0.1 in
  distance + battery_penalty.

(** One pass of the loop body: [best_score] and [best_assignment]. *)
Definition consider (best : Score * option (nat * Task))
    (task : Task) (ir : nat * Robot) : Score * option (nat * Task) :=
  if score_ltb (score (snd ir) task) (fst best)
  then (Finite (score (snd ir) task), Some (fst ir, task))
  else best.

(** The inner loop, [for robot in available_robots]. *)
Definition scan_robots (available : list (nat * Robot)) (task : Task)
    (best : Score * option (nat * Task)) : Score * option (nat * Task) :=
  fold_left (fun b ir => consider b task ir) available best.

(** The outer loop, [for task in self.pending_tasks]. *)
Definition scan_tasks (pending : list Task) (available : list (nat * Robot))
    (best : Score * option (nat * Task)) : Score * option (nat * Task) :=
  fold_left (fun b task => scan_robots available task b) pending best.

(** [TaskScheduler.assign_optimal_robot]: the returned pair (the robot as
    its index in [robots]) and the scheduler afterwards. *)
Definition assign_optimal_robot (self : TaskScheduler) (robots : list Robot)
    : option (nat * Task) * TaskScheduler :=
  match pending_tasks self with
  | [] => (None, self)
  | _ :: _ =>
      let available := available_robots robots in
      match available with
      | [] => (None, self)
      | _ :: _ =>
          match snd (scan_tasks (pending_tasks self) available
                       (Infinity, None)) with
          | Some (i, task) =>
              (Some (i, task),
               mkTaskScheduler (list_remove task (pending_tasks self)))
          | None => (None, self)
          end
      end
  end.

End TaskScheduler.

(** ** AMRFleetManager *)

Record PathPlanner : Type := mkPathPlanner {
  width : Z;
  height : Z;
  obstacles : list (Z * Z)
}.

Record AMRFleetManager : Type := mkAMRFleetManager {
  robots : list Robot;
  task_scheduler : TaskScheduler;
  path_planner : PathPlanner;
  charging_stations : list Position;
  grid_width : Z;
  grid_height : Z;
  total_tasks_completed : nat;
  fleet_efficiency : R;
  simulation_running : bool
}.

Definition set_robots (fm : AMRFleetManager) (rs : list Robot)
    : AMRFleetManager :=
  mkAMRFleetManager rs (task_scheduler fm) (path_planner fm)
    (charging_stations fm) (grid_width fm) (grid_height fm)
    (total_tasks_completed fm) (fleet_efficiency fm) (simulation_running fm).

Definition set_task_scheduler (fm : AMRFleetManager) (s : TaskScheduler)
    : AMRFleetManager :=
  mkAMRFleetManager (robots fm) s (path_planner fm)
    (charging_stations fm) (grid_width fm) (grid_height fm)
    (total_tasks_completed fm) (fleet_efficiency fm) (simulation_running fm).

Definition set_metrics (fm : AMRFleetManager) (n : nat) (e : R)
    : AMRFleetManager :=
  mkAMRFleetManager (robots fm) (task_scheduler fm) (path_planner fm)
    (charging_stations fm) (grid_width fm) (grid_height fm)
    n e (simulation_running fm).

(** What one call of [generate_random_task] draws from [random], in the
    order of the calls, and the [datetime.now()] of the new task. *)
Record TaskDraws : Type := mkTaskDraws {
  draw_start_x : R;
  draw_start_y : R;
  draw_end_x : R;
  draw_end_y : R;
  draw_id : Z;
  draw_task_type : TaskType;
  draw_priority : Z;
  draw_duration : R;
  draw_now : Z
}.

(** [status.value] and the order of [for status in RobotStatus]. *)
Definition status_value (s : RobotStatus) : string :=
  match s with
  | IDLE => "idle"
  | MOVING => "moving"
  | WORKING => "working"
  | CHARGING => "charging"
  | MAINTENANCE => "maintenance"
  end.

Definition all_statuses : list RobotStatus :=
  [IDLE; MOVING; WORKING; CHARGING; MAINTENANCE].

(** The dictionary returned by [get_fleet_status]; [status_distribution]
    lists its keys in the order of insertion. *)
Module FleetStatus.
Record t : Type := mk {
  total_robots : nat;
  status_distribution : list (string * nat);
  pending_tasks : nat;
  total_tasks_completed : nat;
  fleet_efficiency : R;
  average_battery : R
}.
End FleetStatus.

(** All-or-nothing traversal of a list by a step that may raise. *)
Fixpoint map_option {A B : Type} (f : A -> option B) (l : list A)
    : option (list B) :=
  match l with
  | [] => Some []
  | x :: xs =>
      match f x with
      | None => None
      | Some y =>
          match map_option f xs with
          | None => None
          | Some ys => Some (y :: ys)
          end
      end
  end.

Module AMRFleetManager.

(** [AMRFleetManager.__init__] *)
Definition init (grid_width grid_height : Z) : AMRFleetManager :=
  mkAMRFleetManager [] TaskScheduler.init
    (mkPathPlanner grid_width grid_height [])
    [mkPosition 5 5; mkPosition 45 5; mkPosition 25 25]
    grid_width grid_height 0%nat 0 false.

(** [AMRFleetManager.add_robot] *)
Definition add_robot (self : AMRFleetManager) (robot : Robot)
    : AMRFleetManager :=
  set_robots self (robots self ++ [robot]).

(** [self.task_scheduler.add_task(task)], as every caller writes it. *)
Definition add_task (self : AMRFleetManager) (task : Task)
    : AMRFleetManager :=
  set_task_scheduler self (TaskScheduler.add_task (task_scheduler self) task).

(** The [CHARGING] branch of [update_fleet] once the robot has a target:
    drive to it and, on arrival, charge. *)
Definition charging_step (robot : Robot) (target : Position) (dt : R)
    : Robot :=
  let (robot1, arrived) := Robot.move_towards_target robot target dt in
  if arrived then
    let robot2 :=
      set_battery_level robot1
        (py_min (max_battery robot1) (battery_level robot1 + 20 * dt)) in
    if Rleb (max_battery robot2 * 0.9) (battery_level robot2) then
      set_target_position (set_status robot2 IDLE) None
    else robot2
  else robot1.

(** The body of [for robot in self.robots] in [update_fleet]; [None] is an
    exception ([min] of an empty station list). *)
Definition update_robot (stations : list Position) (dt : R) (robot : Robot)
    : option Robot :=
  match status robot, target_position robot with
  | MOVING, Some target =>
      let (robot1, arrived) := Robot.move_towards_target robot target dt in
      if arrived then
        match current_task robot1 with
        | Some task =>
            if Position_eq_dec target (start_pos task) then
              Some (set_status
                      (set_target_position robot1 (Some (end_pos task)))
                      WORKING)
            else Some (Robot.complete_current_task robot1)
        | None => Some (set_status robot1 IDLE)
        end
      else Some robot1
  | WORKING, Some target =>
      let (robot1, arrived) := Robot.move_towards_target robot target dt in
      if arrived then Some (Robot.complete_current_task robot1)
      else Some robot1
  | CHARGING, Some target => Some (charging_step robot target dt)
  | CHARGING, None =>
      match py_min_by (fun s => distance_to (position robot) s) stations with
      | Some nearest_station =>
          Some (charging_step
                  (set_target_position robot (Some nearest_station))
                  nearest_station dt)
      | None => None
      end
  | _, _ => Some robot
  end.

(** The assignment step of [update_fleet]: the scheduler's choice, then
    [robot.assign_task(task)] on the chosen robot. *)
Definition assign_step (self : AMRFleetManager)
    : option (nat * Task) * AMRFleetManager :=
  let (assignment, scheduler) :=
    TaskScheduler.assign_optimal_robot (task_scheduler self) (robots self) in
  match assignment with
  | Some (i, task) =>
      (assignment,
       set_robots (set_task_scheduler self scheduler)
         (update_nth i (fun robot => Robot.assign_task robot task)
                     (robots self)))
  | None => (None, set_task_scheduler self scheduler)
  end.

(** The metrics step of [update_fleet]. *)
Definition update_metrics (self : AMRFleetManager) : AMRFleetManager :=
  let total := fold_right plus 0%nat (map tasks_completed (robots self)) in
  let active_robots :=
    length (filter
              (fun r => if RobotStatus_eq_dec (status r) IDLE
                        then false else true)
              (robots self)) in
  set_metrics self total
    (match robots self with
     | [] => 0
     | _ :: _ => INR active_robots / INR (length (robots self)) * 100
     end).

(** [AMRFleetManager.update_fleet] *)
Definition update_fleet (self : AMRFleetManager) (dt : R)
    : option AMRFleetManager :=
  let self1 := snd (assign_step self) in
  match map_option (update_robot (charging_stations self1) dt)
                   (robots self1) with
  | None => None
  | Some rs => Some (update_metrics (set_robots self1 rs))
  end.


(** [AMRFleetManager.generate_random_task], the random draws given. *)
Definition generate_random_task (self : AMRFleetManager) (d : TaskDraws)
    : Task :=
  let start_pos := mkPosition (draw_start_x d) (draw_start_y d) in
  let end_pos := mkPosition (draw_end_x d) (draw_end_y d) in
  mkTask (String.append "T" (string_of_Z (draw_id d))) (draw_task_type d)
    start_pos end_pos (draw_priority d) (draw_duration d) None (draw_now d).

(** [len([r for r in self.robots if r.status == status])] *)
Definition count_status (self : AMRFleetManager) (s : RobotStatus) : nat :=
  length (filter
            (fun r => if RobotStatus_eq_dec (status r) s
                      then true else false)
            (robots self)).

(** [AMRFleetManager.get_fleet_status] *)
Definition get_fleet_status (self : AMRFleetManager) : FleetStatus.t :=
  let status_counts :=
    map (fun s => (status_value s, count_status self s)) all_statuses in
  FleetStatus.mk
    (length (robots self))
    status_counts
    (length (pending_tasks (task_scheduler self)))
    (total_tasks_completed self)
    (py_round2 (fleet_efficiency self))
    (match robots self with
     | [] => 0
     | _ :: _ => py_round2 (np_mean (map battery_level (robots self)))
     end).

End AMRFleetManager.

(** ** AMRControlPanel: the commands that write robot state *)

Module AMRControlPanel.

(** [emergency_stop] (the dashboard button and the panel button have the
    same loop body). *)
Definition emergency_stop (fm : AMRFleetManager) : AMRFleetManager :=
  set_robots fm
    (map (fun robot =>
            set_current_task
              (set_target_position (set_status robot IDLE) None) None)
         (robots fm)).

(** [charge_all] *)
Definition charge_all (fm : AMRFleetManager) : AMRFleetManager :=
  set_robots fm
    (map (fun robot =>
            if Rltb (battery_level robot) 90
            then set_target_position (set_status robot CHARGING) None
            else robot)
         (robots fm)).

End AMRControlPanel.

(** ** AMRDashboard: the simulation state behind the plots *)

(** The fleet and the logged series.  The figure, its axes and widgets are
    written by the dashboard and never read back. *)
Record AMRDashboard : Type := mkAMRDashboard {
  fleet_manager : AMRFleetManager;
  time_data : list R;
  efficiency_data : list R;
  battery_data : list R;
  task_data : list R
}.

Module AMRDashboard.

Definition robot_positions : list Position :=
  [mkPosition 10 10; mkPosition 20 15; mkPosition 30 8;
   mkPosition 40 20; mkPosition 15 25; mkPosition 35 12].

(** [setup_fleet]: [now i] is the [datetime.now()] of the [i]-th robot,
    [draws k] what the [k]-th task draws. *)
Definition setup_fleet (fm : AMRFleetManager) (now : nat -> Z)
    (draws : nat -> TaskDraws) : AMRFleetManager :=
  let fm1 :=
    fold_left
      (fun fm ip =>
         AMRFleetManager.add_robot fm
           (Robot.init (String.append "AMR-" (format_02d (fst ip + 1)))
                       (snd ip) 100 (now (fst ip))))
      (combine (seq 0 (length robot_positions)) robot_positions) fm in
  fold_left
    (fun fm k =>
       AMRFleetManager.add_task fm
         (AMRFleetManager.generate_random_task fm (draws k)))
    (seq 0 8) fm1.

(** The state part of [AMRDashboard.__init__]. *)
Definition init (now : nat -> Z) (draws : nat -> TaskDraws) : AMRDashboard :=
  mkAMRDashboard (setup_fleet (AMRFleetManager.init 50 30) now draws)
    [] [] [] [].

Definition set_fleet_manager (self : AMRDashboard) (fm : AMRFleetManager)
    : AMRDashboard :=
  mkAMRDashboard fm (time_data self) (efficiency_data self)
    (battery_data self) (task_data self).

(** [add_random_task] *)
Definition add_random_task (self : AMRDashboard) (d : TaskDraws)
    : AMRDashboard :=
  set_fleet_manager self
    (AMRFleetManager.add_task (fleet_manager self)
       (AMRFleetManager.generate_random_task (fleet_manager self) d)).

(** [emergency_stop] *)
Definition emergency_stop (self : AMRDashboard) : AMRDashboard :=
  set_fleet_manager self
    (AMRControlPanel.emergency_stop (fleet_manager self)).

(** [update_speed] *)
Definition update_speed (self : AMRDashboard) (val : R) : AMRDashboard :=
  set_fleet_manager self
    (set_robots (fleet_manager self)
       (map (fun robot => set_speed robot (val * 2))
            (robots (fleet_manager self)))).

(** [list.pop(0)]; [None] is the [IndexError] of an empty list. *)
Definition pop0 {A : Type} (l : list A) : option (list A) :=
  match l with
  | [] => None
  | _ :: l' => Some l'
  end.

(** [update_dashboard], without the drawing: the tick, the two logged
    series with their window of 100 points, and the task added on every
    hundredth frame. *)
Definition update_dashboard (self : AMRDashboard) (frame : Z)
    (d : TaskDraws) : option AMRDashboard :=
  match AMRFleetManager.update_fleet (fleet_manager self) 0.1 with
  | None => None
  | Some fm1 =>
      let current_time := INR (length (time_data self)) * 0.1 in
      let time_data1 := time_data self ++ [current_time] in
      let efficiency_data1 := efficiency_data self ++ [fleet_efficiency fm1] in
      let logs :=
        if (100 <? length time_data1)%nat then
          match pop0 time_data1, pop0 efficiency_data1 with
          | Some t, Some e => Some (t, e)
          | _, _ => None
          end
        else Some (time_data1, efficiency_data1) in
      match logs with
      | None => None
      | Some (time_data2, efficiency_data2) =>
          let self2 :=
            mkAMRDashboard fm1 time_data2 efficiency_data2
              (battery_data self) (task_data self) in
          if (frame mod 100 =? 0)%Z
          then Some (add_random_task self2 d)
          else Some self2
      end
  end.

End AMRDashboard.

(** * Vocabulary of the statements *)

(** ** Runs of the simulation *)

(** What the presentation layer does to the core between two frames. *)
Inductive Event : Type :=
| Tick (dt : R)
| AddTask (task : Task)
| EmergencyStop
| ChargeAll.

Definition step (fm : AMRFleetManager) (e : Event) : option AMRFleetManager :=
  match e with
  | Tick dt => AMRFleetManager.update_fleet fm dt
  | AddTask task => Some (AMRFleetManager.add_task fm task)
  | EmergencyStop => Some (AMRControlPanel.emergency_stop fm)
  | ChargeAll => Some (AMRControlPanel.charge_all fm)
  end.

Fixpoint run (fm : AMRFleetManager) (es : list Event)
    : option AMRFleetManager :=
  match es with
  | [] => Some fm
  | e :: es' =>
      match step fm e with
      | Some fm' => run fm' es'
      | None => None
      end
  end.

(** [n] calls of [move_towards_target] with one target. *)
Fixpoint move_n (n : nat) (r : Robot) (target : Position) (dt : R) : Robot :=
  match n with
  | O => r
  | S k => move_n k (fst (Robot.move_towards_target r target dt)) target dt
  end.

(** States reached from an empty fleet by the core operations: robots are
    constructed with a non-negative capacity, time steps are non-negative. *)
Inductive reachable : AMRFleetManager -> Prop :=
| reach_init (w h : Z) :
    reachable (AMRFleetManager.init w h)
| reach_add_robot fm id pos maxb now :
    reachable fm -> 0 <= maxb ->
    reachable (AMRFleetManager.add_robot fm (Robot.init id pos maxb now))
| reach_add_task fm task :
    reachable fm -> reachable (AMRFleetManager.add_task fm task)
| reach_update_fleet fm dt fm' :
    reachable fm -> 0 <= dt ->
    AMRFleetManager.update_fleet fm dt = Some fm' -> reachable fm'
| reach_assign_task fm i task :
    reachable fm ->
    reachable
      (set_robots fm
         (update_nth i (fun r => Robot.assign_task r task) (robots fm)))
| reach_move_towards_target fm i target dt :
    reachable fm -> 0 <= dt ->
    reachable
      (set_robots fm
         (update_nth i
            (fun r => fst (Robot.move_towards_target r target dt))
            (robots fm)))
| reach_complete_current_task fm i :
    reachable fm ->
    reachable
      (set_robots fm (update_nth i Robot.complete_current_task (robots fm)))
| reach_emergency_stop fm :
    reachable fm -> reachable (AMRControlPanel.emergency_stop fm)
| reach_charge_all fm :
    reachable fm -> reachable (AMRControlPanel.charge_all fm).

(** ** Predicates *)

(** The point reached from [p] by going [m] along the unit vector to [t]. *)
Definition advance (p t : Position) (m : R) : Position :=
  mkPosition (px p + (px t - px p) / distance_to p t * m)
             (py p + (py t - py p) / distance_to p t * m).

(** [ceil(x)], the least integer not below [x]. *)
Definition Rceil (x : R) : Z := (1 - up (- x))%Z.

(** The number of steps of the arrival bound,
    [ceil(distance / (speed * dt))]. *)
Definition arrival_bound (r : Robot) (target : Position) (dt : R) : nat :=
  Z.to_nat (Rceil (distance_to (position r) target / (speed r * dt))).

(** The bound of the data model, and the sign of the speed on which the
    drain of a move depends. *)
Definition battery_ok (r : Robot) : Prop :=
  0 <= battery_level r <= max_battery r.

Definition robot_wf (r : Robot) : Prop :=
  battery_ok r /\ 0 <= speed r.

(** Descending priority: every task is followed only by tasks of the same
    or a lower priority. *)
Definition sorted_desc (l : list Task) : Prop :=
  StronglySorted (fun a b => (priority b <= priority a)%Z) l.

(** The tasks of priority [p], in the order of the list. *)
Definition with_priority (p : Z) (l : list Task) : list Task :=
  filter (fun t => (priority t =? p)%Z) l.

(** The pending list after [add_task] for each task of [ts] in turn. *)
Definition add_tasks (ts : list Task) : TaskScheduler :=
  fold_left TaskScheduler.add_task ts TaskScheduler.init.

(** The part of the task/status discipline that every transition keeps:
    an idle robot has no target, a robot in [MOVING] or [WORKING] has a
    task and a target. *)
Definition task_status_ok (r : Robot) : Prop :=
  (status r = IDLE -> target_position r = None)
  /\ (status r = MOVING \/ status r = WORKING ->
      current_task r <> None /\ target_position r <> None).

(** The scheduler's eligibility: idle, battery strictly above 20. *)
Definition eligible (r : Robot) : Prop :=
  status r = IDLE /\ 20 < battery_level r.

(** What the loop holds after the candidates [seen]: nothing before the
    first candidate, afterwards a seen candidate of least score. *)
Definition best_of (seen : list (Task * (nat * Robot)))
    (best : Score * option (nat * Task)) : Prop :=
  match snd best with
  | None => fst best = Infinity /\ seen = []
  | Some (i, t) =>
      exists r,
        In (t, (i, r)) seen /\
        fst best = Finite (TaskScheduler.score r t) /\
        forall c, In c seen ->
          TaskScheduler.score r t
          <= TaskScheduler.score (snd (snd c)) (fst c)
  end.

(** [sendAllToCharge(threshold)] as the specification words it: every robot
    whose battery is below [threshold] is forced into [CHARGING] with its
    target cleared, the others are left as they are.  The program's
    [charge_all] is compared with it. *)
Definition sendAllToCharge_spec (threshold : R) (fm : AMRFleetManager)
    : AMRFleetManager :=
  set_robots fm
    (map (fun robot =>
            if Rltb (battery_level robot) threshold
            then set_target_position (set_status robot CHARGING) None
            else robot)
         (robots fm)).

(** ** Sample robots, tasks and fleets *)

Open Scope string_scope.

(** The robot of the arrival scenario: at the origin, full default battery. *)
Definition origin_robot : Robot :=
  Robot.init "AMR-01" (mkPosition 0 0) 100 0.

(** A robot standing on the first charging station, capacity 50. *)
Definition station_robot : Robot :=
  Robot.init "AMR-01" (mkPosition 5 5) 50 0.

(** A task that starts where [station_robot] stands. *)
Definition nearby_task : Task :=
  mkTask "T1000" PICKUP (mkPosition 5 5) (mkPosition 20 5) 3 10 None 0.

(** The default fleet manager with [station_robot] and [nearby_task]. *)
Definition station_fleet : AMRFleetManager :=
  AMRFleetManager.add_task
    (AMRFleetManager.add_robot (AMRFleetManager.init 50 30) station_robot)
    nearby_task.

(** A fleet of one robot with battery 70. *)
Definition fleet_at_70 : AMRFleetManager :=
  AMRFleetManager.add_robot (AMRFleetManager.init 50 30)
    (Robot.init "AMR-01" (mkPosition 10 10) 70 0).

(** A robot in [CHARGING] whose battery is down to 5, away from every
    station, and the default fleet holding it. *)
Definition drained_robot : Robot :=
  mkRobot "AMR-01" (mkPosition 10 10) CHARGING 5 100 2 None [] 950 0 0 None.

Definition drained_fleet : AMRFleetManager :=
  AMRFleetManager.add_robot (AMRFleetManager.init 50 30) drained_robot.

(** A robot of capacity 21 at the origin, a task that starts 1000 units
    to its east, and the default fleet holding both. *)
Definition small_robot : Robot :=
  Robot.init "AMR-01" (mkPosition 0 0) 21 0.

Definition long_haul_task : Task :=
  mkTask "T2000" DELIVERY (mkPosition 1000 0) (mkPosition 1000 10) 1 10
    None 0.

Definition long_haul_fleet : AMRFleetManager :=
  AMRFleetManager.add_task
    (AMRFleetManager.add_robot (AMRFleetManager.init 50 30) small_robot)
    long_haul_task.

Close Scope string_scope.

(** ** Counting *)

(** The robots that are not idle, as [update_fleet] counts them. *)
Definition active_robots (rs : list Robot) : list Robot :=
  filter (fun r => if RobotStatus_eq_dec (status r) IDLE then false else true)
         rs.

(** The sum of the robots' completed-task counters. *)
Definition completed_tasks (rs : list Robot) : nat :=
  fold_right plus 0%nat (map tasks_completed rs).


(** 1 for a robot that holds a task, 0 otherwise. *)
Definition holds_task (r : Robot) : nat :=
  match current_task r with
  | Some _ => 1%nat
  | None => 0%nat
  end.

(** The tasks the fleet accounts for: pending, held by a robot, or counted
    as completed. *)
Definition accounted_tasks (fm : AMRFleetManager) : nat :=
  (length (pending_tasks (task_scheduler fm))
   + fold_right plus 0 (map holds_task (robots fm))
   + completed_tasks (robots fm))%nat.


(** What the scheduler's loop holds after the candidates [seen], with the
    place of its choice: every candidate before it costs strictly more,
    every later one at least as much. *)
Definition first_best_of (seen : list (Task * (nat * Robot)))
    (best : Score * option (nat * Task)) : Prop :=
  match snd best with
  | None => fst best = Infinity /\ seen = []
  | Some (i, t) =>
      exists r s1 s2,
        seen = s1 ++ (t, (i, r)) :: s2 /\
        fst best = Finite (TaskScheduler.score r t) /\
        (forall c, In c s1 ->
           TaskScheduler.score r t
           < TaskScheduler.score (snd (snd c)) (fst c)) /\
        (forall c, In c s2 ->
           TaskScheduler.score r t
           <= TaskScheduler.score (snd (snd c)) (fst c))
  end.


(** ** One robot over several ticks *)

(** [busy_steps stations dt n r r']: the robot loop takes [r] to [r'] in
    [n] ticks, and the robot is not idle before any of them (so that the
    scheduler leaves it alone). *)
Inductive busy_steps (stations : list Position) (dt : R)
    : nat -> Robot -> Robot -> Prop :=
| busy_done r : busy_steps stations dt 0 r r
| busy_step n r r1 r' :
    status r <> IDLE ->
    AMRFleetManager.update_robot stations dt r = Some r1 ->
    busy_steps stations dt n r1 r' ->
    busy_steps stations dt (S n) r r'.

(** [n] ticks of [dt] seconds each. *)
Definition ticks (n : nat) (dt : R) : list Event := repeat (Tick dt) n.

(** The ticks within which a robot charging [20 * dt] per tick gets from
    [battery] to nine tenths of [capacity]. *)
Definition charge_bound (capacity battery dt : R) : nat :=
  Z.to_nat (Rceil ((0.9 * capacity - battery) / (20 * dt))).


Open Scope string_scope.



(** A robot that [charge_all] has sent to charge: battery 50 of 100, 2
    units west of the first station, no target. *)
Definition sent_to_charge_robot : Robot :=
  mkRobot "AMR-02" (mkPosition 3 5) CHARGING 50 100 2 None [] 500 3 0 None.

Definition sent_to_charge_fleet : AMRFleetManager :=
  AMRFleetManager.add_robot (AMRFleetManager.init 50 30)
    sent_to_charge_robot.

Close Scope string_scope.

(** ** The dashboard in use *)

(** [random.uniform(a, b)] returns a number between its two arguments. *)
Definition uniform_between (a b x : R) : Prop :=
  a <= x <= b \/ b <= x <= a.

(** The ranges from which [generate_random_task] draws. *)
Definition valid_draws (fm : AMRFleetManager) (d : TaskDraws) : Prop :=
  uniform_between 2 (IZR (grid_width fm - 2)) (draw_start_x d)
  /\ uniform_between 2 (IZR (grid_height fm - 2)) (draw_start_y d)
  /\ uniform_between 2 (IZR (grid_width fm - 2)) (draw_end_x d)
  /\ uniform_between 2 (IZR (grid_height fm - 2)) (draw_end_y d)
  /\ (1000 <= draw_id d <= 9999)%Z
  /\ (1 <= draw_priority d <= 5)%Z
  /\ uniform_between 5 30 (draw_duration d).

(** What happens to the dashboard: an animation frame, a click on one of
    its two buttons, a move of its speed slider. *)
Inductive DashboardEvent : Type :=
| Frame (frame : Z) (d : TaskDraws)
| ClickAddTask (d : TaskDraws)
| ClickEmergencyStop
| SlideSpeed (val : R).

Definition dashboard_step (db : AMRDashboard) (e : DashboardEvent)
    : option AMRDashboard :=
  match e with
  | Frame frame d => AMRDashboard.update_dashboard db frame d
  | ClickAddTask d => Some (AMRDashboard.add_random_task db d)
  | ClickEmergencyStop => Some (AMRDashboard.emergency_stop db)
  | SlideSpeed val => Some (AMRDashboard.update_speed db val)
  end.

Fixpoint dashboard_run (db : AMRDashboard) (es : list DashboardEvent)
    : option AMRDashboard :=
  match es with
  | [] => Some db
  | e :: es' =>
      match dashboard_step db e with
      | Some db' => dashboard_run db' es'
      | None => None
      end
  end.

(** The events the widgets can produce: draws within their ranges, a
    slider value within the slider's limits 0.1 and 3.0. *)
Definition valid_event (db : AMRDashboard) (e : DashboardEvent) : Prop :=
  match e with
  | Frame _ d => valid_draws (fleet_manager db) d
  | ClickAddTask d => valid_draws (fleet_manager db) d
  | ClickEmergencyStop => True
  | SlideSpeed val => 0.1 <= val <= 3
  end.

(** The states of the dashboard: as constructed, and then after any valid
    event. *)
Inductive dashboard_reachable : AMRDashboard -> Prop :=
| dash_init now draws :
    (forall k, valid_draws (AMRFleetManager.init 50 30) (draws k)) ->
    dashboard_reachable (AMRDashboard.init now draws)
| dash_step db e db' :
    dashboard_reachable db -> valid_event db e ->
    dashboard_step db e = Some db' -> dashboard_reachable db'.

(** The part of the floor in which tasks are drawn: 2 units inside the
    50 x 30 grid. *)
Definition on_floor (p : Position) : Prop :=
  2 <= px p <= 48 /\ 2 <= py p <= 28.

(** The number of frames among the events. *)
Definition frames (es : list DashboardEvent) : nat :=
  length (filter (fun e => match e with Frame _ _ => true | _ => false end)
                 es).

(** The time stamp logged by the [k]-th frame (counted from 0). *)
Definition logged_time (k : nat) : R := INR (Nat.min k 100) * 0.1.

(** Sample draws: a task from (10,10) to (40,20). *)
Definition sample_draws : TaskDraws :=
  mkTaskDraws 10 10 40 20 1234 DELIVERY 3 10 0.

Definition sample_dashboard : AMRDashboard :=
  AMRDashboard.init (fun _ => 0%Z) (fun _ => sample_draws).


(** A task that starts and ends on the floor. *)
Definition task_on_floor (t : Task) : Prop :=
  on_floor (start_pos t) /\ on_floor (end_pos t).

(** A robot on the floor, with its target and its task there too. *)
Definition robot_on_floor (r : Robot) : Prop :=
  on_floor (position r)
  /\ (forall p, target_position r = Some p -> on_floor p)
  /\ (forall t, current_task r = Some t -> task_on_floor t).

(** The ranges of a dashboard robot: battery within its capacity of 100,
    speed within twice the slider's limits. *)
Definition dashboard_robot_ok (r : Robot) : Prop :=
  0 <= battery_level r <= 100 /\ max_battery r = 100
  /\ 0.2 <= speed r <= 6.

(** What the fleet of the dashboard keeps in every state. *)
Definition dashboard_ok (fm : AMRFleetManager) : Prop :=
  charging_stations fm = [mkPosition 5 5; mkPosition 45 5; mkPosition 25 25]
  /\ grid_width fm = 50%Z /\ grid_height fm = 30%Z
  /\ map robot_id (robots fm)
     = ["AMR-01"; "AMR-02"; "AMR-03"; "AMR-04"; "AMR-05"; "AMR-06"]%string
  /\ Forall dashboard_robot_ok (robots fm)
  /\ Forall robot_on_floor (robots fm)
  /\ Forall task_on_floor (pending_tasks (task_scheduler fm)).


(** ** A fleet that is never sent to charge *)

(** The way a robot still has to go for the task it holds: to the start
    and on to the end while [MOVING], to the end while [WORKING]. *)
Definition remaining_way (r : Robot) : R :=
  match status r, current_task r with
  | MOVING, Some t =>
      distance_to (position r) (start_pos t)
      + distance_to (start_pos t) (end_pos t)
  | WORKING, Some t => distance_to (position r) (end_pos t)
  | _, _ => 0
  end.

(** The task/status discipline: idle without task and target, or [MOVING]
    to the start of the task held, or [WORKING] towards its end. *)
Definition on_duty (r : Robot) : Prop :=
  (status r = IDLE /\ current_task r = None /\ target_position r = None)
  \/ (status r = MOVING /\
      exists t, current_task r = Some t
                /\ target_position r = Some (start_pos t))
  \/ (status r = WORKING /\
      exists t, current_task r = Some t
                /\ target_position r = Some (end_pos t)).

(** A battery that covers the remaining way with 4.4 to spare above the
    low-battery trigger. *)
Definition battery_reserve (r : Robot) : Prop :=
  9.4 + 0.1 * remaining_way r < battery_level r.

(** Frames only: no click, no move of the slider. *)
Definition only_frames (es : list DashboardEvent) : Prop :=
  Forall (fun e => match e with Frame _ _ => True | _ => False end) es.


(** * Properties *)

(** ** Comparisons, [min] and [max] *)

Lemma Rltb_true (a b : R) : Rltb a b = true <-> a < b.
Proof. unfold Rltb; destruct (Rlt_dec a b); split; intros; auto; discriminate. Qed.

Lemma Rltb_false (a b : R) : Rltb a b = false <-> b <= a.
Proof.
  unfold Rltb; destruct (Rlt_dec a b); split; intros; auto; try discriminate; lra.
Qed.

Lemma Rleb_true (a b : R) : Rleb a b = true <-> a <= b.
Proof. unfold Rleb; destruct (Rle_dec a b); split; intros; auto; discriminate. Qed.

Lemma Rleb_false (a b : R) : Rleb a b = false <-> b < a.
Proof.
  unfold Rleb; destruct (Rle_dec a b); split; intros; auto; try discriminate; lra.
Qed.

(** Case analysis on every comparison in the goal, each outcome recorded as
    an order fact. *)
Ltac rcase :=
  repeat match goal with
  | |- context [Rltb ?a ?b] =>
      let E := fresh "E" in
      destruct (Rltb a b) eqn:E;
      [apply Rltb_true in E | apply Rltb_false in E]
  | |- context [Rleb ?a ?b] =>
      let E := fresh "E" in
      destruct (Rleb a b) eqn:E;
      [apply Rleb_true in E | apply Rleb_false in E]
  end.

Lemma py_min_Rmin (a b : R) : py_min a b = Rmin a b.
Proof.
  unfold py_min, Rmin; rcase; destruct (Rle_dec a b); lra.
Qed.

Lemma py_max_Rmax (a b : R) : py_max a b = Rmax a b.
Proof.
  unfold py_max, Rmax; rcase; destruct (Rle_dec a b); lra.
Qed.

(** ** Geometry of one move *)

Lemma sum_pow2_nonneg (a b : R) : 0 <= a ^ 2 + b ^ 2.
Proof. pose proof (pow2_ge_0 a); pose proof (pow2_ge_0 b); lra. Qed.

Lemma distance_to_nonneg (p q : Position) : 0 <= distance_to p q.
Proof. apply sqrt_pos. Qed.

Lemma distance_to_sqr (p q : Position) :
  distance_to p q * distance_to p q = (px p - px q) ^ 2 + (py p - py q) ^ 2.
Proof. unfold distance_to; apply sqrt_sqrt; apply sum_pow2_nonneg. Qed.

Lemma distance_to_self (p : Position) : distance_to p p = 0.
Proof.
  unfold distance_to.
  replace ((px p - px p) ^ 2 + (py p - py p) ^ 2) with 0 by ring.
  apply sqrt_0.
Qed.

Lemma distance_to_zero (p q : Position) : distance_to p q = 0 -> p = q.
Proof.
  intros H. pose proof (distance_to_sqr p q) as S. rewrite H in S.
  destruct p as [x y], q as [u v]; simpl in *.
  pose proof (pow2_ge_0 (x - u)) as Hx. pose proof (pow2_ge_0 (y - v)) as Hy.
  assert (Ex : x - u = 0).
  { destruct (Req_dec_T (x - u) 0) as [E | N]; [exact E |].
    apply (pow_nonzero _ 2) in N. lra. }
  assert (Ey : y - v = 0).
  { destruct (Req_dec_T (y - v) 0) as [E | N]; [exact E |].
    apply (pow_nonzero _ 2) in N. lra. }
  f_equal; lra.
Qed.

Lemma advance_moved (p t : Position) (m : R) :
  0 < distance_to p t -> 0 <= m -> distance_to p (advance p t m) = m.
Proof.
  intros Hd Hm. pose proof (distance_to_sqr p t) as S.
  unfold advance. unfold distance_to at 1. cbn [px py].
  revert Hd S. generalize (distance_to p t). intros d Hd S.
  apply sqrt_lem_1; [apply sum_pow2_nonneg | lra |].
  transitivity (((px p - px t) ^ 2 + (py p - py t) ^ 2) * (m * m) / (d * d));
    [rewrite <- S | ]; field; lra.
Qed.

Lemma advance_remaining (p t : Position) (m : R) :
  0 < distance_to p t -> 0 <= m <= distance_to p t ->
  distance_to (advance p t m) t = distance_to p t - m.
Proof.
  intros Hd Hm. pose proof (distance_to_sqr p t) as S.
  unfold advance. unfold distance_to at 1. cbn [px py].
  revert Hd Hm S. generalize (distance_to p t). intros d Hd Hm S.
  apply sqrt_lem_1; [apply sum_pow2_nonneg | lra |].
  transitivity
    (((px p - px t) ^ 2 + (py p - py t) ^ 2) * ((d - m) * (d - m)) / (d * d));
    [rewrite <- S | ]; field; lra.
Qed.


(** ** The physics step, case by case *)

Lemma mkPosition_eta (p : Position) : mkPosition (px p) (py p) = p.
Proof. destruct p; reflexivity. Qed.

Lemma move_low_battery (r : Robot) (t : Position) (dt : R) :
  battery_level r <= 5 ->
  Robot.move_towards_target r t dt = (set_status r CHARGING, false).
Proof.
  intros H. unfold Robot.move_towards_target.
  apply Rleb_true in H. rewrite H. reflexivity.
Qed.

Lemma move_snap (r : Robot) (t : Position) (dt : R) :
  5 < battery_level r -> distance_to (position r) t < 0.5 ->
  Robot.move_towards_target r t dt = (set_position r t, true).
Proof.
  intros Hb Hd. unfold Robot.move_towards_target.
  apply Rleb_false in Hb. apply Rltb_true in Hd. rewrite Hb, Hd.
  rewrite mkPosition_eta. reflexivity.
Qed.

Lemma move_go (r : Robot) (t : Position) (dt : R) :
  5 < battery_level r -> 0.5 <= distance_to (position r) t ->
  let m := Rmin (speed r * dt) (distance_to (position r) t) in
  Robot.move_towards_target r t dt =
    (set_battery_level
       (set_total_distance_traveled
          (set_position r (advance (position r) t m))
          (total_distance_traveled r + m))
       (Rmax 0 (battery_level r - m * 0.1)),
     false).
Proof.
  intros Hb Hd m. unfold Robot.move_towards_target.
  apply Rleb_false in Hb. apply Rltb_false in Hd. rewrite Hb, Hd.
  cbn [set_position set_total_distance_traveled battery_level
       total_distance_traveled position].
  rewrite py_max_Rmax, py_min_Rmin. reflexivity.
Qed.

(** The three cases cover every call. *)
Lemma move_cases (r : Robot) (t : Position) (dt : R) :
  (battery_level r <= 5 /\
   Robot.move_towards_target r t dt = (set_status r CHARGING, false))
  \/ (5 < battery_level r /\ distance_to (position r) t < 0.5 /\
      Robot.move_towards_target r t dt = (set_position r t, true))
  \/ (5 < battery_level r /\ 0.5 <= distance_to (position r) t /\
      Robot.move_towards_target r t dt =
        (set_battery_level
           (set_total_distance_traveled
              (set_position r
                 (advance (position r) t
                    (Rmin (speed r * dt) (distance_to (position r) t))))
              (total_distance_traveled r
               + Rmin (speed r * dt) (distance_to (position r) t)))
           (Rmax 0 (battery_level r
                    - Rmin (speed r * dt) (distance_to (position r) t) * 0.1)),
         false)).
Proof.
  destruct (Rle_dec (battery_level r) 5) as [Hb | Hb].
  - left. split; [exact Hb | apply move_low_battery; exact Hb].
  - right. assert (5 < battery_level r) by lra.
    destruct (Rlt_dec (distance_to (position r) t) 0.5) as [Hd | Hd].
    + left. repeat split; try assumption. apply move_snap; assumption.
    + right. assert (0.5 <= distance_to (position r) t) by lra.
      repeat split; try assumption. apply move_go; assumption.
Qed.

(** C6.  One physics step of a robot with battery above 5, for [dt > 0].
    With [d] the distance to the target: if [d < 0.5] the position becomes
    the target itself, the step reports arrival, and battery and travelled
    distance are unchanged.  Otherwise, with [m = min(speed*dt, d)], the new
    position is the old one plus [m] times the unit vector to the target,
    the travelled distance grows by [m], the battery becomes
    [max(0, battery - m*0.1)], and the step reports no arrival; for a
    non-negative speed the robot is then [m] away from where it was and
    [d - m] away from the target. *)
Theorem physics_step (r : Robot) (target : Position) (dt : R) :
  5 < battery_level r -> 0 < dt ->
  let d := distance_to (position r) target in
  let r' := fst (Robot.move_towards_target r target dt) in
  let arrived := snd (Robot.move_towards_target r target dt) in
  (d < 0.5 ->
     position r' = target /\ arrived = true /\
     battery_level r' = battery_level r /\
     total_distance_traveled r' = total_distance_traveled r)
  /\
  (0.5 <= d ->
     let m := Rmin (speed r * dt) d in
     px (position r') =
       px (position r) + (px target - px (position r)) / d * m /\
     py (position r') =
       py (position r) + (py target - py (position r)) / d * m /\
     total_distance_traveled r' = total_distance_traveled r + m /\
     battery_level r' = Rmax 0 (battery_level r - m * 0.1) /\
     arrived = false /\
     (0 <= speed r ->
        distance_to (position r) (position r') = m /\
        distance_to (position r') target = d - m)).
Proof.
  intros Hb Hdt d r' arrived. split.
  - intros Hd. subst r' arrived. rewrite (move_snap r target dt Hb Hd).
    cbn. repeat split; reflexivity.
  - intros Hd m. subst r' arrived. rewrite (move_go r target dt Hb Hd).
    cbn. fold d. fold m.
    repeat split; try reflexivity.
    + apply advance_moved; fold d; [lra |].
      unfold m. apply Rmin_glb; [nra | lra].
    + apply advance_remaining; fold d; [lra |].
      unfold m. split; [apply Rmin_glb; [nra | lra] | apply Rmin_r].
Qed.

(** ** Battery bounds *)

Lemma init_wf (id : string) (p : Position) (maxb : R) (now : Z) :
  0 <= maxb -> robot_wf (Robot.init id p maxb now).
Proof. intros H. unfold robot_wf, battery_ok; cbn. lra. Qed.

Lemma assign_task_wf (r : Robot) (t : Task) :
  robot_wf r -> robot_wf (Robot.assign_task r t).
Proof. intros H; exact H. Qed.

Lemma complete_current_task_wf (r : Robot) :
  robot_wf r -> robot_wf (Robot.complete_current_task r).
Proof.
  intros H. unfold Robot.complete_current_task.
  destruct (current_task r); exact H.
Qed.

(** The drain of [move_towards_target]: [max(0, battery - moved*0.1)] stays
    in the interval. *)
Lemma move_towards_target_wf (r : Robot) (t : Position) (dt : R) :
  robot_wf r -> 0 <= dt ->
  robot_wf (fst (Robot.move_towards_target r t dt)).
Proof.
  intros [[Hlo Hhi] Hs] Hdt.
  destruct (move_cases r t dt) as [[_ E] | [[_ [_ E]] | [Hb [Hd E]]]];
    rewrite E; unfold robot_wf, battery_ok; cbn; try lra.
  assert (Hm : 0 <= Rmin (speed r * dt) (distance_to (position r) t))
    by (apply Rmin_glb; [nra | lra]).
  repeat split; try lra.
  - apply Rmax_l.
  - apply Rmax_lub; lra.
Qed.

(** The charge of [update_fleet]: [min(max_battery, battery + 20*dt)] stays
    in the interval. *)
Lemma charge_wf (r : Robot) (dt : R) :
  robot_wf r -> 0 <= dt ->
  robot_wf
    (set_battery_level r
       (py_min (max_battery r) (battery_level r + 20 * dt))).
Proof.
  intros [[Hlo Hhi] Hs] Hdt. unfold robot_wf, battery_ok; cbn.
  rewrite py_min_Rmin. repeat split; try lra.
  - apply Rmin_glb; lra.
  - apply Rmin_l.
Qed.

Lemma charging_step_wf (r : Robot) (tg : Position) (dt : R) :
  robot_wf r -> 0 <= dt -> robot_wf (AMRFleetManager.charging_step r tg dt).
Proof.
  intros Hwf Hdt. unfold AMRFleetManager.charging_step.
  pose proof (move_towards_target_wf r tg dt Hwf Hdt) as H1.
  destruct (Robot.move_towards_target r tg dt) as [r1 arrived]; cbn in H1.
  destruct arrived; [| exact H1].
  pose proof (charge_wf r1 dt H1 Hdt) as H2.
  cbv zeta. destruct (Rleb _ _); exact H2.
Qed.

Lemma update_robot_wf (stations : list Position) (dt : R) (r r' : Robot) :
  robot_wf r -> 0 <= dt ->
  AMRFleetManager.update_robot stations dt r = Some r' -> robot_wf r'.
Proof.
  intros Hwf Hdt. unfold AMRFleetManager.update_robot.
  destruct (status r) eqn:Es; destruct (target_position r) as [tg |] eqn:Et;
    try (intros E; injection E as <-; exact Hwf).
  - (* MOVING *)
    pose proof (move_towards_target_wf r tg dt Hwf Hdt) as H1.
    destruct (Robot.move_towards_target r tg dt) as [r1 arrived]; cbn in H1.
    destruct arrived; [| intros E; injection E as <-; exact H1].
    destruct (current_task r1) eqn:Ec.
    + destruct (Position_eq_dec tg (start_pos t)); intros E; injection E as <-;
        [exact H1 | apply complete_current_task_wf; exact H1].
    + intros E; injection E as <-; exact H1.
  - (* WORKING *)
    pose proof (move_towards_target_wf r tg dt Hwf Hdt) as H1.
    destruct (Robot.move_towards_target r tg dt) as [r1 arrived]; cbn in H1.
    destruct arrived; intros E; injection E as <-;
      [apply complete_current_task_wf; exact H1 | exact H1].
  - (* CHARGING, target set *)
    intros E; injection E as <-. apply charging_step_wf; assumption.
  - (* CHARGING, no target *)
    destruct (py_min_by _ stations) as [tg |]; [| discriminate].
    intros E; injection E as <-. apply charging_step_wf; assumption.
Qed.

(** ** Lists of robots *)

Lemma update_nth_Forall {A : Type} (P : A -> Prop) (f : A -> A) (i : nat)
    (l : list A) :
  (forall x, P x -> P (f x)) -> Forall P l -> Forall P (update_nth i f l).
Proof.
  intros Hf H. revert i. induction H as [| x xs Hx Hxs IH]; intros i.
  - destruct i; constructor.
  - destruct i; cbn; constructor; auto.
Qed.

Lemma map_option_Forall {A B : Type} (P : A -> Prop) (Q : B -> Prop)
    (f : A -> option B) (l : list A) (l' : list B) :
  (forall x y, P x -> f x = Some y -> Q y) ->
  Forall P l -> map_option f l = Some l' -> Forall Q l'.
Proof.
  intros Hf H. revert l'. induction H as [| x xs Hx Hxs IH]; intros l' E.
  - injection E as <-. constructor.
  - cbn in E. destruct (f x) as [y |] eqn:Ey; [| discriminate].
    destruct (map_option f xs) as [ys |]; [| discriminate].
    injection E as <-. constructor; eauto.
Qed.


(** Every result of the assignment step keeps the list of robots, up to
    [assign_task] on one of them. *)
Lemma assign_step_robots (fm : AMRFleetManager) :
  robots (snd (AMRFleetManager.assign_step fm)) = robots fm
  \/ exists i t,
       fst (AMRFleetManager.assign_step fm) = Some (i, t) /\
       robots (snd (AMRFleetManager.assign_step fm)) =
         update_nth i (fun r => Robot.assign_task r t) (robots fm).
Proof.
  unfold AMRFleetManager.assign_step.
  destruct (TaskScheduler.assign_optimal_robot _ _) as [[[i t] |] s]; cbn.
  - right. exists i, t. split; reflexivity.
  - left. reflexivity.
Qed.

Lemma assign_step_stations (fm : AMRFleetManager) :
  charging_stations (snd (AMRFleetManager.assign_step fm)) =
  charging_stations fm.
Proof.
  unfold AMRFleetManager.assign_step.
  destruct (TaskScheduler.assign_optimal_robot _ _) as [[[i t] |] s];
    reflexivity.
Qed.

Lemma update_fleet_wf (fm fm' : AMRFleetManager) (dt : R) :
  0 <= dt -> Forall robot_wf (robots fm) ->
  AMRFleetManager.update_fleet fm dt = Some fm' ->
  Forall robot_wf (robots fm').
Proof.
  intros Hdt Hwf. unfold AMRFleetManager.update_fleet.
  destruct (map_option _ _) as [rs |] eqn:E; [| discriminate].
  intros E'; injection E' as <-. cbn.
  eapply (map_option_Forall robot_wf robot_wf); [| | exact E].
  - intros x y Hx Hy. eapply update_robot_wf; eauto.
  - destruct (assign_step_robots fm) as [-> | [i [t [_ ->]]]]; [exact Hwf |].
    apply update_nth_Forall; [| exact Hwf].
    intros x Hx. apply assign_task_wf; exact Hx.
Qed.

Lemma robots_wf_reachable (fm : AMRFleetManager) :
  reachable fm -> Forall robot_wf (robots fm).
Proof.
  induction 1 as [w h | fm id pos maxb now _ IH Hm | fm task _ IH
                 | fm dt fm' _ IH Hdt E | fm i task _ IH
                 | fm i target dt _ IH Hdt | fm i _ IH | fm _ IH | fm _ IH];
    cbn.
  - constructor.
  - apply Forall_app. split; [exact IH |].
    constructor; [apply init_wf; exact Hm | constructor].
  - exact IH.
  - eapply update_fleet_wf; eauto.
  - apply update_nth_Forall; [| exact IH].
    intros r Hr. apply assign_task_wf; exact Hr.
  - apply update_nth_Forall; [| exact IH].
    intros r Hr. apply move_towards_target_wf; assumption.
  - apply update_nth_Forall; [| exact IH].
    intros r Hr. apply complete_current_task_wf; exact Hr.
  - apply Forall_map. eapply Forall_impl; [| exact IH].
    intros r Hr; exact Hr.
  - apply Forall_map. eapply Forall_impl; [| exact IH].
    intros r Hr. destruct (Rltb _ _); exact Hr.
Qed.

(** C1.  In every reachable state every robot's battery level lies between
    0 and its [max_battery].  (The two writes of [battery_level], the drain
    in [move_towards_target] and the charge in [update_fleet], keep it
    there: [move_towards_target_wf], [charge_wf].) *)
Theorem battery_invariant (fm : AMRFleetManager) :
  reachable fm ->
  Forall (fun r => 0 <= battery_level r <= max_battery r) (robots fm).
Proof.
  intros H. apply robots_wf_reachable in H.
  eapply Forall_impl; [| exact H]. intros r [Hb _]. exact Hb.
Qed.

(** ** The scheduler's scan *)

Lemma is_available_eligible (r : Robot) :
  TaskScheduler.is_available r = true <-> eligible r.
Proof.
  unfold TaskScheduler.is_available, eligible.
  destruct (RobotStatus_eq_dec (status r) IDLE) as [E | N]; cbn.
  - rewrite Rltb_true. tauto.
  - split; [discriminate | tauto].
Qed.

Lemma In_combine_seq {A : Type} (l : list A) (s i : nat) (x : A) :
  In (i, x) (combine (seq s (length l)) l) <->
  (s <= i)%nat /\ nth_error l (i - s) = Some x.
Proof.
  revert s. induction l as [| y ys IH]; intros s; cbn.
  - split; [tauto |]. intros [_ H]. destruct (i - s)%nat; discriminate.
  - rewrite IH. split.
    + intros [E | [Hle Hn]].
      * injection E as <- <-. rewrite Nat.sub_diag. split; [lia | reflexivity].
      * split; [lia |]. replace (i - s)%nat with (S (i - S s)) by lia.
        exact Hn.
    + intros [Hle Hn]. destruct (i - s)%nat as [| k] eqn:Ek.
      * left. injection Hn as ->. f_equal. lia.
      * right. split; [lia |]. replace (i - S s)%nat with k by lia. exact Hn.
Qed.

Lemma In_available_robots (robots : list Robot) (i : nat) (r : Robot) :
  In (i, r) (TaskScheduler.available_robots robots) <->
  nth_error robots i = Some r /\ eligible r.
Proof.
  unfold TaskScheduler.available_robots. rewrite filter_In, In_combine_seq.
  cbn [snd]. rewrite is_available_eligible, Nat.sub_0_r.
  split; [tauto |]. intros [H1 H2]. split; [split; [lia | exact H1] | exact H2].
Qed.

Lemma scan_robots_flat (available : list (nat * Robot)) (t : Task)
    (best : Score * option (nat * Task)) :
  TaskScheduler.scan_robots available t best =
  fold_left (fun b c => TaskScheduler.consider b (fst c) (snd c))
    (map (fun ir => (t, ir)) available) best.
Proof.
  unfold TaskScheduler.scan_robots. revert best.
  induction available as [| ir irs IH]; intros best; cbn; [reflexivity |].
  apply IH.
Qed.

(** The candidates in the order of the two nested loops. *)
Lemma scan_tasks_flat (pending : list Task) (available : list (nat * Robot))
    (best : Score * option (nat * Task)) :
  TaskScheduler.scan_tasks pending available best =
  fold_left (fun b c => TaskScheduler.consider b (fst c) (snd c))
    (flat_map (fun t => map (fun ir => (t, ir)) available) pending) best.
Proof.
  unfold TaskScheduler.scan_tasks. revert best.
  induction pending as [| t ts IH]; intros best; cbn; [reflexivity |].
  rewrite fold_left_app, <- IH, scan_robots_flat. reflexivity.
Qed.

Lemma consider_best_of seen best (c : Task * (nat * Robot)) :
  best_of seen best ->
  best_of (seen ++ [c]) (TaskScheduler.consider best (fst c) (snd c)).
Proof.
  destruct best as [sc [[i t] |]], c as [t' [i' r']]; unfold best_of; cbn.
  - intros [r [Hin [-> Hmin]]]. unfold TaskScheduler.consider; cbn.
    destruct (Rltb _ _) eqn:E; cbn.
    + apply Rltb_true in E. exists r'. split; [| split; [reflexivity |]].
      * apply in_or_app. right. left. reflexivity.
      * intros c Hc. apply in_app_or in Hc. destruct Hc as [Hc | [<- | []]].
        -- specialize (Hmin c Hc). lra.
        -- cbn. lra.
    + apply Rltb_false in E. exists r. split; [| split; [reflexivity |]].
      * apply in_or_app. left. exact Hin.
      * intros c Hc. apply in_app_or in Hc. destruct Hc as [Hc | [<- | []]].
        -- apply Hmin; exact Hc.
        -- cbn. exact E.
  - intros [-> ->]. unfold TaskScheduler.consider; cbn.
    exists r'. split; [left; reflexivity | split; [reflexivity |]].
    intros c [<- | []]. cbn. lra.
Qed.

Lemma fold_consider_best_of (todo seen : list (Task * (nat * Robot))) best :
  best_of seen best ->
  best_of (seen ++ todo)
    (fold_left (fun b c => TaskScheduler.consider b (fst c) (snd c)) todo best).
Proof.
  revert seen best. induction todo as [| c cs IH]; intros seen best H; cbn.
  - rewrite app_nil_r. exact H.
  - replace (seen ++ c :: cs) with ((seen ++ [c]) ++ cs)
      by (rewrite <- app_assoc; reflexivity).
    apply IH. apply consider_best_of. exact H.
Qed.

Lemma scan_tasks_best_of (pending : list Task)
    (available : list (nat * Robot)) :
  best_of (flat_map (fun t => map (fun ir => (t, ir)) available) pending)
    (TaskScheduler.scan_tasks pending available (Infinity, None)).
Proof.
  rewrite scan_tasks_flat.
  apply (fold_consider_best_of _ [] (Infinity, None)).
  split; reflexivity.
Qed.

Lemma In_candidates (pending : list Task) (available : list (nat * Robot))
    (t : Task) (ir : nat * Robot) :
  In (t, ir) (flat_map (fun t => map (fun ir => (t, ir)) available) pending)
  <-> In t pending /\ In ir available.
Proof.
  rewrite in_flat_map. split.
  - intros [t' [Ht H]]. apply in_map_iff in H. destruct H as [ir' [E Hir]].
    injection E as -> ->. tauto.
  - intros [Ht Hir]. exists t. split; [exact Ht |].
    apply in_map_iff. exists ir. tauto.
Qed.

(** [list.remove] takes out the first occurrence and nothing else. *)
Lemma list_remove_split (t : Task) (l : list Task) :
  In t l ->
  exists l1 l2, l = l1 ++ t :: l2 /\ ~ In t l1 /\ list_remove t l = l1 ++ l2.
Proof.
  induction l as [| u us IH]; intros H; [destruct H |]. cbn.
  destruct (Task_eq_dec u t) as [-> | N].
  - exists [], us. repeat split. intros [].
  - destruct H as [E | H]; [contradiction |].
    destruct (IH H) as [l1 [l2 [-> [Hn ->]]]].
    exists (u :: l1), l2. repeat split. intros [E | H']; contradiction.
Qed.

(** A returned pair: an eligible robot, a pending task, least cost, and the
    pending list without the first occurrence of that task. *)
Lemma assign_optimal_robot_some (s : TaskScheduler) (robots : list Robot)
    (i : nat) (t : Task) :
  fst (TaskScheduler.assign_optimal_robot s robots) = Some (i, t) ->
  exists r l1 l2,
    nth_error robots i = Some r /\ eligible r /\
    pending_tasks s = l1 ++ t :: l2 /\ ~ In t l1 /\
    pending_tasks (snd (TaskScheduler.assign_optimal_robot s robots))
      = l1 ++ l2 /\
    forall r' t', In r' robots -> eligible r' -> In t' (pending_tasks s) ->
      TaskScheduler.score r t <= TaskScheduler.score r' t'.
Proof.
  unfold TaskScheduler.assign_optimal_robot.
  destruct (pending_tasks s) as [| t0 ts] eqn:Ep; [discriminate |].
  destruct (TaskScheduler.available_robots robots) as [| ir0 irs] eqn:Ea;
    [discriminate |].
  pose proof (scan_tasks_best_of (t0 :: ts) (ir0 :: irs)) as B.
  unfold best_of in B.
  destruct (snd (TaskScheduler.scan_tasks (t0 :: ts) (ir0 :: irs)
                   (Infinity, None))) as [[i0 t1] |]; [| discriminate].
  cbn [fst snd]. intros E. injection E as <- <-.
  destruct B as [r [Hin [_ Hmin]]].
  apply In_candidates in Hin. destruct Hin as [Ht Hir].
  rewrite <- Ea in Hir. apply In_available_robots in Hir.
  destruct Hir as [Hn He].
  destruct (list_remove_split t1 (t0 :: ts) Ht) as [l1 [l2 [E1 [Hn1 E2]]]].
  exists r, l1, l2. cbn [pending_tasks].
  split; [exact Hn |]. split; [exact He |]. split; [exact E1 |].
  split; [exact Hn1 |]. split; [exact E2 |].
  intros r' t' Hr' He' Ht'.
  apply In_nth_error in Hr'. destruct Hr' as [j Hj].
  apply (Hmin (t', (j, r'))). apply In_candidates. split; [exact Ht' |].
  rewrite <- Ea. apply In_available_robots. tauto.
Qed.

(** No pair: nothing is pending or nobody is eligible, and the scheduler
    is as it was. *)
Lemma assign_optimal_robot_none (s : TaskScheduler) (robots : list Robot) :
  fst (TaskScheduler.assign_optimal_robot s robots) = None ->
  snd (TaskScheduler.assign_optimal_robot s robots) = s
  /\ (pending_tasks s = [] \/ forall r, In r robots -> ~ eligible r).
Proof.
  unfold TaskScheduler.assign_optimal_robot.
  destruct (pending_tasks s) as [| t0 ts] eqn:Ep; [cbn; auto |].
  destruct (TaskScheduler.available_robots robots) as [| ir0 irs] eqn:Ea.
  - cbn. intros _. split; [reflexivity |]. right. intros r Hr He.
    apply In_nth_error in Hr. destruct Hr as [i Hi].
    assert (H : In (i, r) (TaskScheduler.available_robots robots))
      by (apply In_available_robots; tauto).
    rewrite Ea in H. destruct H.
  - pose proof (scan_tasks_best_of (t0 :: ts) (ir0 :: irs)) as B.
    unfold best_of in B.
    destruct (snd (TaskScheduler.scan_tasks (t0 :: ts) (ir0 :: irs)
                     (Infinity, None))) as [[i0 t1] |]; [discriminate |].
    destruct B as [_ B]. discriminate.
Qed.


(** ** Running the code on concrete states *)

Lemma distance_to_same_y (a b y1 y2 : R) :
  y1 = y2 -> a <= b ->
  distance_to (mkPosition a y1) (mkPosition b y2) = b - a.
Proof.
  intros -> H. unfold distance_to; cbn [px py].
  apply sqrt_lem_1; [apply sum_pow2_nonneg | lra | ring].
Qed.

(** Reduction that leaves real arithmetic, the decisions on reals and the
    search for the nearest station alone. *)
Ltac red_core :=
  cbv - [Rlt_dec Rle_dec Req_dec_T sqrt Rplus Rmult Rminus Ropp Rinv Rdiv
         IZR INR pow distance_to Position_eq_dec Task_eq_dec Rltb Rleb
         py_min_by].

(** One decision on reals, settled by linear arithmetic. *)
Ltac decide_cmp :=
  match goal with
  | |- context [Rltb (distance_to ?p ?q) ?c] =>
      rewrite (proj2 (Rltb_false (distance_to p q) c))
        by (pose proof (distance_to_nonneg p q); lra)
  | |- context [Rltb ?a ?b] =>
      first [ rewrite (proj2 (Rltb_true a b)) by lra
            | rewrite (proj2 (Rltb_false a b)) by lra ]
  | |- context [Rleb ?a ?b] =>
      first [ rewrite (proj2 (Rleb_true a b)) by lra
            | rewrite (proj2 (Rleb_false a b)) by lra ]
  | |- context [Position_eq_dec ?p ?q] =>
      destruct (Position_eq_dec p q) as [? | ?];
      [ try (exfalso; congruence) | try (exfalso; congruence) ]
  | |- context [Task_eq_dec ?p ?q] =>
      destruct (Task_eq_dec p q) as [? | ?];
      [ try (exfalso; congruence) | try (exfalso; congruence) ]
  | |- context [distance_to ?p ?p] => rewrite (distance_to_self p)
  | |- context [distance_to (mkPosition ?a ?y1) (mkPosition ?b ?y2)] =>
      rewrite (distance_to_same_y a b y1 y2) by lra
  end.

(** The nearest station, found on its own before the tick goes on. *)
Ltac find_nearest :=
  match goal with
  | |- context [py_min_by ?k ?l] =>
      let m := fresh "m" in
      let Hm := fresh "Hm" in
      set (m := py_min_by k l);
      eassert (Hm : m = Some _)
        by (subst m; cbv [py_min_by fold_left];
            repeat (decide_cmp; cbv beta iota); reflexivity);
      rewrite Hm; clear Hm m
  end.

Ltac run_code :=
  red_core; repeat (first [find_nearest | decide_cmp]; red_core).

Lemma physics_step_witness :
  5 < battery_level origin_robot /\ 0 < 1 /\
  px (position
        (fst (Robot.move_towards_target origin_robot (mkPosition 10 0) 1)))
    = 2 /\
  battery_level
    (fst (Robot.move_towards_target origin_robot (mkPosition 10 0) 1))
    = 99.8.
Proof.
  assert (Hb : 5 < battery_level origin_robot) by (cbn; lra).
  assert (Hdt : 0 < 1) by lra.
  destruct (physics_step origin_robot (mkPosition 10 0) 1 Hb Hdt) as [_ Hgo].
  assert (Hd : distance_to (position origin_robot) (mkPosition 10 0) = 10)
    by (cbn; rewrite distance_to_same_y; lra).
  rewrite Hd in Hgo. specialize (Hgo ltac:(lra)). cbv zeta in Hgo.
  destruct Hgo as (Hx & _ & _ & Hbat & _).
  assert (Hm : Rmin (speed origin_robot * 1) 10 = 2)
    by (cbn; unfold Rmin; destruct (Rle_dec _ _); lra).
  rewrite Hm in Hx, Hbat.
  split; [exact Hb | split; [exact Hdt | split]].
  - rewrite Hx. cbn. lra.
  - rewrite Hbat. cbn. unfold Rmax. destruct (Rle_dec _ _); lra.
Defined.

Lemma battery_invariant_witness :
  exists fm,
    AMRFleetManager.update_fleet station_fleet 0.1 = Some fm /\
    reachable fm /\
    Forall (fun r => 0 <= battery_level r <= max_battery r) (robots fm).
Proof.
  eexists. split; [run_code; reflexivity |].
  assert (H : reachable station_fleet).
  { apply reach_add_task, reach_add_robot; [apply reach_init | lra]. }
  assert (H' : 0 <= 0.1) by lra.
  match goal with
  | |- reachable ?fm /\ _ =>
      assert (R : reachable fm)
        by (apply (reach_update_fleet _ _ _ H H'); run_code; reflexivity)
  end.
  split; [exact R | exact (battery_invariant _ R)].
Defined.

(** ** Arrival at a fixed target *)

Lemma Rceil_bounds (x : R) : x <= IZR (Rceil x) < x + 1.
Proof.
  unfold Rceil. rewrite minus_IZR.
  destruct (archimed (- x)) as [H1 H2]. lra.
Qed.


Lemma arrival_bound_covers (r : Robot) (target : Position) (dt : R) :
  0 < speed r * dt ->
  distance_to (position r) target
  <= INR (arrival_bound r target dt) * (speed r * dt).
Proof.
  intros Hs. unfold arrival_bound.
  pose proof (distance_to_nonneg (position r) target) as Hd.
  set (q := distance_to (position r) target / (speed r * dt)).
  assert (Hq : 0 <= q).
  { unfold q. apply Rmult_le_pos; [exact Hd |].
    apply Rlt_le, Rinv_0_lt_compat; exact Hs. }
  destruct (Rceil_bounds q) as [Hc _].
  rewrite INR_IZR_INZ, Z2Nat.id by (apply le_0_IZR; lra).
  apply Rle_trans with (q * (speed r * dt)).
  - right. unfold q, Rdiv. rewrite Rmult_assoc, Rinv_l by lra. ring.
  - apply Rmult_le_compat_r; lra.
Qed.


(** One step with battery above 5 takes [speed * dt] off the distance, or
    ends on the target. *)
Lemma move_distance (r : Robot) (t : Position) (dt : R) :
  5 < battery_level r -> 0 <= speed r * dt ->
  distance_to (position (fst (Robot.move_towards_target r t dt))) t
  <= Rmax 0 (distance_to (position r) t - speed r * dt).
Proof.
  intros Hb Hs.
  destruct (Rlt_dec (distance_to (position r) t) 0.5) as [Hd | Hd].
  - rewrite (move_snap r t dt Hb Hd). cbn.
    rewrite distance_to_self. apply Rmax_l.
  - assert (Hd' : 0.5 <= distance_to (position r) t) by lra.
    rewrite (move_go r t dt Hb Hd'). cbn.
    rewrite advance_remaining.
    + unfold Rmin, Rmax.
      destruct (Rle_dec (speed r * dt) _), (Rle_dec 0 _); lra.
    + lra.
    + split; [apply Rmin_glb; lra | apply Rmin_r].
Qed.











(** *** The same steps in binary64 *)

Section Binary64Runs.
Import PrimFloat.
Local Open Scope float_scope.
#[local] Set Warnings "-inexact-float".


(** The scenario of the claim in binary64: from (0,0) at speed 2 towards
    (10,0) with [dt = 1] the robot stands on (8,0) after 4 steps and on
    (10,0), exactly, after 5. *)
Lemma arrival_scenario_binary64 :
  let r := Binary64.init (Binary64.mkPosition 0 0) 100 in
  Binary64.position (Binary64.move_n 4 r (Binary64.mkPosition 10 0) 1)
  = Binary64.mkPosition 8 0
  /\ Binary64.position (Binary64.move_n 5 r (Binary64.mkPosition 10 0) 1)
     = Binary64.mkPosition 10 0.
Proof.
  cbv zeta. split; vm_compute; reflexivity.
Qed.

End Binary64Runs.


(** ** The pending queue *)

Lemma insert_by_priority_perm (t : Task) (l : list Task) :
  Permutation (t :: l) (insert_by_priority t l).
Proof.
  induction l as [| u us IH]; cbn; [apply Permutation_refl |].
  destruct (priority u <=? priority t)%Z; [apply Permutation_refl |].
  eapply perm_trans; [apply perm_swap | apply perm_skip; exact IH].
Qed.

Lemma sort_by_priority_desc_perm (l : list Task) :
  Permutation l (sort_by_priority_desc l).
Proof.
  induction l as [| t ts IH]; cbn; [apply perm_nil |].
  eapply perm_trans; [apply perm_skip; exact IH |].
  apply insert_by_priority_perm.
Qed.

Lemma insert_by_priority_sorted (t : Task) (l : list Task) :
  sorted_desc l -> sorted_desc (insert_by_priority t l).
Proof.
  unfold sorted_desc. induction 1 as [| u us Hs IH Hu]; cbn.
  - constructor; constructor.
  - destruct (Z.leb_spec (priority u) (priority t)) as [Hle | Hlt].
    + constructor; [constructor; assumption |].
      constructor; [exact Hle |].
      eapply Forall_impl; [| exact Hu]. cbn. intros a Ha. lia.
    + constructor; [exact IH |].
      eapply Permutation_Forall; [apply insert_by_priority_perm |].
      constructor; [lia | exact Hu].
Qed.

Lemma sort_by_priority_desc_sorted (l : list Task) :
  sorted_desc (sort_by_priority_desc l).
Proof.
  induction l as [| t ts IH]; cbn; [constructor |].
  apply insert_by_priority_sorted; exact IH.
Qed.

(** The insertion passes only tasks of a strictly higher priority, so no
    two tasks of one priority change places. *)
Lemma insert_by_priority_stable (p : Z) (t : Task) (l : list Task) :
  with_priority p (insert_by_priority t l) = with_priority p (t :: l).
Proof.
  unfold with_priority. induction l as [| u us IH]; cbn; [reflexivity |].
  destruct (Z.leb_spec (priority u) (priority t)) as [Hle | Hlt];
    [reflexivity |].
  cbn. rewrite IH. cbn.
  destruct (Z.eqb_spec (priority u) p), (Z.eqb_spec (priority t) p);
    try reflexivity.
  lia.
Qed.

Lemma sort_by_priority_desc_stable (p : Z) (l : list Task) :
  with_priority p (sort_by_priority_desc l) = with_priority p l.
Proof.
  induction l as [| t ts IH]; cbn [sort_by_priority_desc]; [reflexivity |].
  rewrite insert_by_priority_stable. unfold with_priority in *. cbn.
  rewrite IH. reflexivity.
Qed.

(** A list has one stable descending sort: two sorted lists with the same
    tasks in the same order at every priority are equal. *)
Lemma stable_sort_unique (l1 l2 : list Task) :
  sorted_desc l1 -> sorted_desc l2 ->
  (forall p, with_priority p l1 = with_priority p l2) ->
  l1 = l2.
Proof.
  unfold sorted_desc, with_priority. intros H1. revert l2.
  induction H1 as [| a l1 Hs1 IH Ha]; intros l2 H2 Hf.
  - destruct l2 as [| b l2]; [reflexivity |].
    specialize (Hf (priority b)). cbn in Hf.
    rewrite Z.eqb_refl in Hf. discriminate.
  - destruct H2 as [| b l2 Hs2 Hb].
    { specialize (Hf (priority a)). cbn in Hf.
      rewrite Z.eqb_refl in Hf. discriminate. }
    assert (Hab : (priority a <= priority b)%Z).
    { assert (Hin : In a (filter (fun t => (priority t =? priority a)%Z)
                            (b :: l2))).
      { rewrite <- Hf. cbn. rewrite Z.eqb_refl. left. reflexivity. }
      apply filter_In in Hin. destruct Hin as [Hin _].
      destruct Hin as [<- | Hin]; [lia |].
      rewrite Forall_forall in Hb. apply Hb. exact Hin. }
    assert (Hba : (priority b <= priority a)%Z).
    { assert (Hin : In b (filter (fun t => (priority t =? priority b)%Z)
                            (a :: l1))).
      { rewrite Hf. cbn. rewrite Z.eqb_refl. left. reflexivity. }
      apply filter_In in Hin. destruct Hin as [Hin _].
      destruct Hin as [<- | Hin]; [lia |].
      rewrite Forall_forall in Ha. apply Ha. exact Hin. }
    assert (Eab : a = b).
    { pose proof (Hf (priority a)) as E. cbn in E.
      rewrite Z.eqb_refl in E.
      replace (priority b =? priority a)%Z with true in E
        by (symmetry; apply Z.eqb_eq; lia).
      injection E as E _. exact E. }
    subst b. f_equal. apply IH; [exact Hs2 |].
    intros p. specialize (Hf p). cbn in Hf.
    destruct (priority a =? p)%Z; [injection Hf as Hf |]; exact Hf.
Qed.

Lemma add_tasks_snoc (ts : list Task) (t : Task) :
  pending_tasks (add_tasks (ts ++ [t])) =
  sort_by_priority_desc (pending_tasks (add_tasks ts) ++ [t]).
Proof.
  unfold add_tasks. rewrite fold_left_app. reflexivity.
Qed.

(** C8.  After [add_task] for each task of [ts] in turn, starting from an
    empty scheduler, the pending list holds the tasks of [ts], sorted by
    descending-or-equal priority, and the tasks of each priority are in
    the order in which they were added. *)
Theorem add_task_queue_order (ts : list Task) :
  let pending := pending_tasks (add_tasks ts) in
  sorted_desc pending
  /\ (forall p, with_priority p pending = with_priority p ts)
  /\ Permutation ts pending.
Proof.
  cbv zeta. induction ts as [| t ts IH] using rev_ind.
  - cbn. split; [constructor | split; [reflexivity | apply perm_nil]].
  - destruct IH as (_ & Hst & Hp). rewrite add_tasks_snoc.
    split; [apply sort_by_priority_desc_sorted | split].
    + intros p. rewrite sort_by_priority_desc_stable.
      unfold with_priority in *. rewrite !filter_app, Hst. reflexivity.
    + eapply perm_trans; [| apply sort_by_priority_desc_perm].
      apply Permutation_app_tail. exact Hp.
Qed.

(** ** Sending robots to charge *)

Lemma nth_error_charge_all (fm : AMRFleetManager) (i : nat) :
  nth_error (robots (AMRControlPanel.charge_all fm)) i =
  option_map
    (fun robot =>
       if Rltb (battery_level robot) 90
       then set_target_position (set_status robot CHARGING) None
       else robot)
    (nth_error (robots fm) i).
Proof. cbn. apply nth_error_map. Qed.

(** C10, as the program has it.  [charge_all] takes no threshold: it is
    [sendAllToCharge] at the fixed threshold 90.  Every robot with battery
    below 90 ends in [CHARGING] with no target and is otherwise unchanged,
    every robot with battery 90 or more is left as it is; so on a fleet
    whose robots all have battery 50, every robot ends in [CHARGING] with
    no target. *)
Theorem charge_all_threshold_90 (fm : AMRFleetManager) :
  AMRControlPanel.charge_all fm = sendAllToCharge_spec 90 fm
  /\ (forall i r, nth_error (robots fm) i = Some r ->
        (battery_level r < 90 ->
           nth_error (robots (AMRControlPanel.charge_all fm)) i =
             Some (set_target_position (set_status r CHARGING) None))
        /\ (90 <= battery_level r ->
              nth_error (robots (AMRControlPanel.charge_all fm)) i = Some r))
  /\ ((forall r, In r (robots fm) -> battery_level r = 50) ->
      forall r', In r' (robots (AMRControlPanel.charge_all fm)) ->
        status r' = CHARGING /\ target_position r' = None).
Proof.
  split; [reflexivity | split].
  - intros i r Hi. rewrite nth_error_charge_all, Hi. cbn. split; intros H.
    + apply Rltb_true in H. rewrite H. reflexivity.
    + apply Rltb_false in H. rewrite H. reflexivity.
  - intros H50 r' Hr'. cbn in Hr'. apply in_map_iff in Hr'.
    destruct Hr' as [r [<- Hr]].
    assert (E : Rltb (battery_level r) 90 = true)
      by (apply Rltb_true; rewrite (H50 r Hr); lra).
    rewrite E. split; reflexivity.
Qed.

(** The threshold is not a parameter of the program: a robot with battery
    70, which is not below the threshold 50, is still forced from [IDLE]
    into [CHARGING], so [charge_all] and [sendAllToCharge(50)] differ. *)
Lemma charge_all_threshold_counterexample :
  (exists r r',
     nth_error (robots fleet_at_70) 0 = Some r /\
     50 <= battery_level r /\ status r = IDLE /\
     nth_error (robots (AMRControlPanel.charge_all fleet_at_70)) 0 = Some r' /\
     status r' = CHARGING)
  /\ AMRControlPanel.charge_all fleet_at_70
     <> sendAllToCharge_spec 50 fleet_at_70.
Proof.
  unfold AMRControlPanel.charge_all, sendAllToCharge_spec, fleet_at_70.
  cbn.
  rewrite (proj2 (Rltb_true 70 90)) by lra.
  rewrite (proj2 (Rltb_false 70 50)) by lra.
  cbn. split.
  - eexists. eexists. split; [reflexivity |]. cbn.
    split; [lra |]. split; [reflexivity |]. split; reflexivity.
  - intros E. discriminate E.
Qed.

(** ** One assignment per tick *)

Lemma nth_error_update_nth_eq {A : Type} (f : A -> A) (l : list A) (i : nat) :
  nth_error (update_nth i f l) i = option_map f (nth_error l i).
Proof.
  revert i. induction l as [| x xs IH]; intros [| i]; cbn; auto.
Qed.

Lemma nth_error_update_nth_neq {A : Type} (f : A -> A) (l : list A)
    (i j : nat) :
  j <> i -> nth_error (update_nth i f l) j = nth_error l j.
Proof.
  revert i j. induction l as [| x xs IH]; intros [| i] [| j] H; cbn; auto.
  - contradiction.
Qed.


(** The robot loop and the metrics leave the scheduler alone. *)
Lemma update_fleet_scheduler (fm fm' : AMRFleetManager) (dt : R) :
  AMRFleetManager.update_fleet fm dt = Some fm' ->
  task_scheduler fm' = task_scheduler (snd (AMRFleetManager.assign_step fm)).
Proof.
  unfold AMRFleetManager.update_fleet.
  destruct (map_option _ _); [| discriminate].
  intros E; injection E as <-. reflexivity.
Qed.

Lemma assign_step_unfold (fm : AMRFleetManager) :
  AMRFleetManager.assign_step fm =
  match fst (TaskScheduler.assign_optimal_robot
               (task_scheduler fm) (robots fm)) with
  | Some (i, task) =>
      (Some (i, task),
       set_robots
         (set_task_scheduler fm
            (snd (TaskScheduler.assign_optimal_robot
                    (task_scheduler fm) (robots fm))))
         (update_nth i (fun robot => Robot.assign_task robot task)
            (robots fm)))
  | None =>
      (None,
       set_task_scheduler fm
         (snd (TaskScheduler.assign_optimal_robot
                 (task_scheduler fm) (robots fm))))
  end.
Proof.
  unfold AMRFleetManager.assign_step.
  destruct (TaskScheduler.assign_optimal_robot _ _) as [[[i t] |] s];
    reflexivity.
Qed.


(** ** Ticks never raise when there is a station *)

Lemma py_min_by_some {A : Type} (key : A -> R) (l : list A) :
  l <> [] -> exists x, py_min_by key l = Some x.
Proof.
  destruct l as [| x xs]; [contradiction |]. intros _. cbn. eauto.
Qed.

Lemma update_robot_total (stations : list Position) (dt : R) (r : Robot) :
  stations <> [] ->
  exists r', AMRFleetManager.update_robot stations dt r = Some r'.
Proof.
  intros Hs. unfold AMRFleetManager.update_robot.
  destruct (status r); destruct (target_position r) as [tg |];
    try (eexists; reflexivity).
  - destruct (Robot.move_towards_target r tg dt) as [r1 [|]]; [| eauto].
    destruct (current_task r1); [| eauto].
    destruct (Position_eq_dec _ _); eauto.
  - destruct (Robot.move_towards_target r tg dt) as [r1 [|]]; eauto.
  - destruct (py_min_by_some (fun s => distance_to (position r) s)
                stations Hs) as [tg ->].
    eauto.
Qed.

Lemma map_option_total {A B : Type} (f : A -> option B) (l : list A) :
  (forall x, exists y, f x = Some y) -> exists l', map_option f l = Some l'.
Proof.
  intros Hf. induction l as [| x xs [ys IH]]; cbn; [eauto |].
  destruct (Hf x) as [y ->]. rewrite IH. eauto.
Qed.

Lemma map_option_nth_error {A B : Type} (f : A -> option B) (l : list A)
    (l' : list B) (i : nat) (x : A) :
  map_option f l = Some l' -> nth_error l i = Some x ->
  exists y, f x = Some y /\ nth_error l' i = Some y.
Proof.
  revert l' i. induction l as [| a l IH]; intros l' i E Hn.
  - destruct i; discriminate.
  - cbn in E. destruct (f a) as [b |] eqn:Ea; [| discriminate].
    destruct (map_option f l) as [bs |]; [| discriminate].
    injection E as <-. destruct i as [| i]; cbn in *.
    + injection Hn as <-. eauto.
    + eapply IH; eauto.
Qed.

Lemma update_fleet_total (fm : AMRFleetManager) (dt : R) :
  charging_stations fm <> [] ->
  exists fm', AMRFleetManager.update_fleet fm dt = Some fm'.
Proof.
  intros Hs. unfold AMRFleetManager.update_fleet.
  rewrite assign_step_stations.
  destruct (map_option_total
              (AMRFleetManager.update_robot (charging_stations fm) dt)
              (robots (snd (AMRFleetManager.assign_step fm)))) as [rs ->].
  - intros x. apply update_robot_total; exact Hs.
  - eauto.
Qed.

Lemma update_fleet_stations (fm fm' : AMRFleetManager) (dt : R) :
  AMRFleetManager.update_fleet fm dt = Some fm' ->
  charging_stations fm' = charging_stations fm.
Proof.
  unfold AMRFleetManager.update_fleet.
  destruct (map_option _ _); [| discriminate].
  intros E; injection E as <-. cbn. apply assign_step_stations.
Qed.

Lemma step_stations (fm fm' : AMRFleetManager) (e : Event) :
  step fm e = Some fm' -> charging_stations fm' = charging_stations fm.
Proof.
  destruct e; cbn; try (intros E; injection E as <-; reflexivity).
  apply update_fleet_stations.
Qed.

Lemma step_total (fm : AMRFleetManager) (e : Event) :
  charging_stations fm <> [] -> exists fm', step fm e = Some fm'.
Proof.
  intros Hs. destruct e; cbn; eauto. apply update_fleet_total; exact Hs.
Qed.

Lemma run_total (fm : AMRFleetManager) (es : list Event) :
  charging_stations fm <> [] -> exists fm', run fm es = Some fm'.
Proof.
  revert fm. induction es as [| e es IH]; intros fm Hs; cbn; [eauto |].
  destruct (step_total fm e Hs) as [fm1 E]. rewrite E.
  apply IH. rewrite (step_stations _ _ _ E). exact Hs.
Qed.

(** ** A drained robot in [CHARGING] *)

(** The assignment step changes only an eligible robot. *)
Lemma assign_step_nth_error (fm : AMRFleetManager) (i : nat) (r : Robot) :
  nth_error (robots fm) i = Some r -> ~ eligible r ->
  nth_error (robots (snd (AMRFleetManager.assign_step fm))) i = Some r.
Proof.
  intros Hn Hne. rewrite assign_step_unfold.
  pose proof (assign_optimal_robot_some (task_scheduler fm) (robots fm))
    as Hsome.
  destruct (fst (TaskScheduler.assign_optimal_robot _ _)) as [[i0 t0] |];
    cbn; [| exact Hn].
  destruct (Hsome i0 t0 eq_refl) as (r0 & _ & _ & Hn0 & He0 & _).
  rewrite nth_error_update_nth_neq; [exact Hn |].
  intros ->. rewrite Hn in Hn0. injection Hn0 as ->. contradiction.
Qed.

Lemma update_robot_drained (stations : list Position) (dt : R)
    (r r' : Robot) :
  status r = CHARGING -> battery_level r <= 5 ->
  AMRFleetManager.update_robot stations dt r = Some r' ->
  position r' = position r /\ battery_level r' = battery_level r /\
  status r' = CHARGING.
Proof.
  intros Hs Hb. unfold AMRFleetManager.update_robot. rewrite Hs.
  destruct (target_position r) as [tg |].
  - intros E; injection E as <-. unfold AMRFleetManager.charging_step.
    rewrite move_low_battery by exact Hb. cbn. auto.
  - destruct (py_min_by _ stations) as [tg |]; [| discriminate].
    intros E; injection E as <-. unfold AMRFleetManager.charging_step.
    rewrite move_low_battery by exact Hb. cbn. auto.
Qed.

(** C5.  A robot in [CHARGING] with battery 5 or less never recovers: after
    any sequence of ticks (with tasks added and [charge_all] pressed in
    between) the run has not failed, and the robot is where it was, with
    the same battery, still in [CHARGING]; every call of
    [move_towards_target] on it returns false without moving it. *)
Theorem drained_charging_robot_stuck
    (fm : AMRFleetManager) (i : nat) (r : Robot) (es : list Event) :
  charging_stations fm <> [] ->
  nth_error (robots fm) i = Some r ->
  status r = CHARGING -> battery_level r <= 5 ->
  Forall (fun e => e <> EmergencyStop) es ->
  exists fm' r',
    run fm es = Some fm' /\ nth_error (robots fm') i = Some r' /\
    position r' = position r /\ battery_level r' = battery_level r /\
    status r' = CHARGING /\
    forall target dt,
      snd (Robot.move_towards_target r' target dt) = false /\
      position (fst (Robot.move_towards_target r' target dt)) = position r'.
Proof.
  intros Hst Hn Hs Hb Hes. revert fm r Hst Hn Hs Hb.
  induction Hes as [| e es He _ IH]; intros fm r Hst Hn Hs Hb.
  - exists fm, r. cbn. repeat split; auto.
    + rewrite move_low_battery by exact Hb. reflexivity.
    + rewrite move_low_battery by exact Hb. reflexivity.
  - assert (Hstep : exists fm1 r1,
               step fm e = Some fm1 /\ nth_error (robots fm1) i = Some r1 /\
               position r1 = position r /\
               battery_level r1 = battery_level r /\ status r1 = CHARGING).
    { destruct e as [dt | task | |]; cbn [step].
      - destruct (update_fleet_total fm dt Hst) as [fm1 E].
        pose proof E as E'. unfold AMRFleetManager.update_fleet in E'.
        destruct (map_option _ _) as [rs |] eqn:Em; [| discriminate].
        injection E' as <-.
        assert (Hn1 : nth_error
                        (robots (snd (AMRFleetManager.assign_step fm))) i
                      = Some r).
        { apply assign_step_nth_error; [exact Hn |].
          intros [Hi _]. rewrite Hs in Hi. discriminate. }
        destruct (map_option_nth_error _ _ _ _ _ Em Hn1) as [r1 [Hu Hr1]].
        destruct (update_robot_drained _ _ _ _ Hs Hb Hu) as (Hp & Hb1 & Hs1).
        eexists. exists r1. split; [exact E |]. cbn. auto.
      - exists (AMRFleetManager.add_task fm task), r. cbn. auto.
      - contradiction.
      - exists (AMRControlPanel.charge_all fm).
        exists (set_target_position (set_status r CHARGING) None).
        split; [reflexivity |]. split; [| cbn; auto].
        rewrite nth_error_charge_all, Hn. cbn.
        rewrite (proj2 (Rltb_true (battery_level r) 90)) by lra.
        reflexivity. }
    destruct Hstep as (fm1 & r1 & E & Hn1 & Hp1 & Hb1 & Hs1).
    destruct (IH fm1 r1) as (fm' & r' & Er & Hn' & Hp' & Hb' & Hs' & Hm);
      try assumption.
    + rewrite (step_stations _ _ _ E). exact Hst.
    + lra.
    + exists fm', r'. cbn [run]. rewrite E.
      repeat split; try assumption; try congruence; apply Hm.
Qed.

Lemma drained_charging_robot_stuck_witness :
  charging_stations drained_fleet <> [] /\
  nth_error (robots drained_fleet) 0 = Some drained_robot /\
  status drained_robot = CHARGING /\ battery_level drained_robot <= 5 /\
  exists fm' r',
    run drained_fleet [Tick 0.1; Tick 0.1; Tick 0.1] = Some fm' /\
    nth_error (robots fm') 0 = Some r' /\
    position r' = mkPosition 10 10 /\ battery_level r' = 5 /\
    status r' = CHARGING.
Proof.
  assert (H1 : charging_stations drained_fleet <> []) by discriminate.
  assert (H2 : nth_error (robots drained_fleet) 0 = Some drained_robot)
    by reflexivity.
  assert (H3 : status drained_robot = CHARGING) by reflexivity.
  assert (H4 : battery_level drained_robot <= 5) by (cbn; lra).
  assert (H5 : Forall (fun e => e <> EmergencyStop)
                 [Tick 0.1; Tick 0.1; Tick 0.1])
    by (repeat constructor; discriminate).
  repeat (split; [assumption |]).
  destruct (drained_charging_robot_stuck drained_fleet 0 drained_robot
              [Tick 0.1; Tick 0.1; Tick 0.1] H1 H2 H3 H4 H5)
    as (fm' & r' & E & Hn & Hp & Hb & Hs & _).
  exists fm', r'. auto.
Defined.

(** ** Low battery in the middle of a task *)

(** The abort of the physics step, as the tick sees it: a robot in [MOVING]
    or [WORKING] with battery 5 or less only changes its status. *)
Lemma update_robot_low_battery (stations : list Position) (dt : R)
    (r : Robot) (tg : Position) :
  status r = MOVING \/ status r = WORKING ->
  target_position r = Some tg -> battery_level r <= 5 ->
  AMRFleetManager.update_robot stations dt r = Some (set_status r CHARGING).
Proof.
  intros Hs Ht Hb. unfold AMRFleetManager.update_robot. rewrite Ht.
  destruct Hs as [-> | ->]; rewrite move_low_battery by exact Hb;
    reflexivity.
Qed.

(** The [CHARGING] branch looks for a station only when the robot has no
    target: a target that is set stays, until the robot has arrived at it
    and charged. *)
Lemma update_robot_charging_keeps_target (stations : list Position) (dt : R)
    (r r' : Robot) (tg : Position) :
  status r = CHARGING -> target_position r = Some tg ->
  AMRFleetManager.update_robot stations dt r = Some r' ->
  target_position r' = Some tg
  \/ (status r' = IDLE /\ target_position r' = None).
Proof.
  intros Hs Ht. unfold AMRFleetManager.update_robot. rewrite Hs, Ht.
  unfold AMRFleetManager.charging_step.
  destruct (move_cases r tg dt) as [[_ E] | [[_ [_ E]] | [_ [_ E]]]];
    rewrite E.
  - intros H; injection H as <-. left. exact Ht.
  - cbv zeta. destruct (Rleb _ _); intros H; injection H as <-; cbn; auto.
  - intros H; injection H as <-. left. exact Ht.
Qed.

(** C3 on the program.  A robot of capacity 21 is assigned a task 1000
    units away; a tick of 80 seconds takes it 160 units along and its
    battery to 5.  The next tick aborts the move: the robot is in
    [CHARGING] where it stood, with its task and the task's start as
    target.  One tick later the [CHARGING] branch has run, and the target
    is still the task's start, which is no charging station. *)
Theorem low_battery_target_not_overwritten :
  exists fm1 fm2 fm3 r1 r2 r3,
    run long_haul_fleet [Tick 80] = Some fm1 /\ robots fm1 = [r1] /\
    status r1 = MOVING /\ battery_level r1 = 5 /\
    target_position r1 = Some (mkPosition 1000 0) /\
    run fm1 [Tick 0.1] = Some fm2 /\ robots fm2 = [r2] /\
    r2 = set_status r1 CHARGING /\
    run fm2 [Tick 0.1] = Some fm3 /\ robots fm3 = [r3] /\
    status r3 = CHARGING /\
    target_position r3 = Some (mkPosition 1000 0) /\
    ~ In (mkPosition 1000 0) (charging_stations fm3).
Proof.
  do 6 eexists.
  split; [unfold long_haul_fleet, small_robot, long_haul_task; run_code;
          reflexivity |].
  split; [reflexivity |]. split; [reflexivity |].
  split; [cbn; lra |]. split; [reflexivity |].
  split; [run_code; reflexivity |].
  split; [reflexivity |]. split; [reflexivity |].
  split; [run_code; reflexivity |].
  split; [reflexivity |]. split; [reflexivity |]. split; [reflexivity |].
  cbn. intros [E | [E | [E | []]]]; injection E as E _; lra.
Qed.

(** C4 on the program.  A robot of capacity 50 takes a task, [charge_all]
    sends it to charge in the middle of it, and the next tick finds it on
    a station with its battery full enough: it is in [CHARGING], and then
    in [IDLE], with [current_task] still set. *)
Theorem idle_robot_keeps_current_task :
  exists fm1 fm2 fm3 r1 r2 r3 task,
    run station_fleet [Tick 0.1] = Some fm1 /\ robots fm1 = [r1] /\
    status r1 = WORKING /\ current_task r1 = Some task /\
    run fm1 [ChargeAll] = Some fm2 /\ robots fm2 = [r2] /\
    status r2 = CHARGING /\ current_task r2 = Some task /\
    run fm2 [Tick 0.1] = Some fm3 /\ robots fm3 = [r3] /\
    status r3 = IDLE /\ current_task r3 = Some task /\
    target_position r3 = None.
Proof.
  do 7 eexists.
  split; [unfold station_fleet, station_robot, nearby_task; run_code;
          reflexivity |].
  split; [reflexivity |]. split; [reflexivity |]. split; [reflexivity |].
  split; [run_code; reflexivity |].
  split; [reflexivity |]. split; [reflexivity |]. split; [reflexivity |].
  split; [run_code; reflexivity |].
  split; [reflexivity |]. split; [reflexivity |].
  split; reflexivity.
Qed.

(** ** What the transitions do keep of the task/status discipline *)

Lemma charging_step_task_status (r : Robot) (tg : Position) (dt : R) :
  status r = CHARGING ->
  task_status_ok (AMRFleetManager.charging_step r tg dt).
Proof.
  intros Es. unfold AMRFleetManager.charging_step.
  destruct (move_cases r tg dt) as [[_ E] | [[_ [_ E]] | [_ [_ E]]]];
    rewrite E; cbv zeta; try destruct (Rleb _ _);
    unfold task_status_ok; cbn; rewrite ?Es;
    (split;
     [ first [discriminate | reflexivity]
     | intros [H | H]; discriminate ]).
Qed.

Lemma update_robot_task_status (stations : list Position) (dt : R)
    (r r' : Robot) :
  task_status_ok r ->
  AMRFleetManager.update_robot stations dt r = Some r' -> task_status_ok r'.
Proof.
  intros [Hi Hm]. unfold AMRFleetManager.update_robot.
  destruct (status r) eqn:Es; destruct (target_position r) as [tg |] eqn:Et;
    try (intros E; injection E as <-; unfold task_status_ok;
         rewrite Es, Et; split; [exact Hi | exact Hm]).
  - (* MOVING *)
    destruct (Hm (or_introl eq_refl)) as [Hc _].
    destruct (current_task r) as [task |] eqn:Ec; [| contradiction].
    destruct (move_cases r tg dt) as [[_ E] | [[_ [_ E]] | [_ [_ E]]]];
      rewrite E; cbn [current_task set_position]; rewrite ?Ec;
      try destruct (Position_eq_dec _ _);
      intros H; injection H as <-;
      unfold task_status_ok, Robot.complete_current_task; cbn;
      rewrite ?Es, ?Et, ?Ec; cbn;
      (split;
       [ first [discriminate | reflexivity]
       | first [ intros [H | H]; discriminate
               | intros _; split; discriminate ] ]).
  - (* WORKING *)
    destruct (Hm (or_intror eq_refl)) as [Hc _].
    destruct (current_task r) as [task |] eqn:Ec; [| contradiction].
    destruct (move_cases r tg dt) as [[_ E] | [[_ [_ E]] | [_ [_ E]]]];
      rewrite E; intros H; injection H as <-;
      unfold task_status_ok, Robot.complete_current_task; cbn;
      rewrite ?Es, ?Et, ?Ec; cbn;
      (split;
       [ first [discriminate | reflexivity]
       | first [ intros [H | H]; discriminate
               | intros _; split; discriminate ] ]).
  - (* CHARGING, target set *)
    intros H; injection H as <-. apply charging_step_task_status. exact Es.
  - (* CHARGING, no target *)
    destruct (py_min_by _ stations) as [tg |]; [| discriminate].
    intros H; injection H as <-. apply charging_step_task_status. exact Es.
Qed.

(** In every reachable state an idle robot has no target, and a robot in
    [MOVING] or [WORKING] has a task and a target.  (That a robot outside
    [MOVING] and [WORKING] has no task is what the program does not
    keep.) *)
Lemma task_status_reachable (fm : AMRFleetManager) :
  reachable fm -> Forall task_status_ok (robots fm).
Proof.
  induction 1 as [w h | fm id pos maxb now _ IH Hm | fm task _ IH
                 | fm dt fm' _ IH Hdt E | fm i task _ IH
                 | fm i target dt _ IH Hdt | fm i _ IH | fm _ IH | fm _ IH];
    cbn.
  - constructor.
  - apply Forall_app. split; [exact IH |].
    constructor; [| constructor]. unfold task_status_ok; cbn.
    split; [reflexivity | intros [H | H]; discriminate].
  - exact IH.
  - unfold AMRFleetManager.update_fleet in E.
    destruct (map_option _ _) as [rs |] eqn:Em; [| discriminate].
    injection E as <-. cbn.
    eapply (map_option_Forall task_status_ok task_status_ok); [| | exact Em].
    + intros x y Hx Hy. eapply update_robot_task_status; eauto.
    + destruct (assign_step_robots fm) as [-> | [i [t [_ ->]]]];
        [exact IH |].
      apply update_nth_Forall; [| exact IH].
      intros x _. unfold task_status_ok; cbn.
      split; [discriminate | intros _; split; discriminate].
  - apply update_nth_Forall; [| exact IH].
    intros x _. unfold task_status_ok; cbn.
    split; [discriminate | intros _; split; discriminate].
  - apply update_nth_Forall; [| exact IH].
    intros x [Hi Hm].
    destruct (move_cases x target dt) as [[_ E] | [[_ [_ E]] | [_ [_ E]]]];
      rewrite E; unfold task_status_ok; cbn; try (split; assumption).
    split; [discriminate | intros [H | H]; discriminate].
  - apply update_nth_Forall; [| exact IH].
    intros x Hx. unfold Robot.complete_current_task.
    destruct (current_task x) eqn:Ec; [| exact Hx].
    unfold task_status_ok; cbn.
    split; [reflexivity | intros [H | H]; discriminate].
  - apply Forall_map. eapply Forall_impl; [| exact IH].
    intros x _. unfold task_status_ok; cbn.
    split; [reflexivity | intros [H | H]; discriminate].
  - apply Forall_map. eapply Forall_impl; [| exact IH].
    intros x Hx. destruct (Rltb _ _); [| exact Hx].
    unfold task_status_ok; cbn.
    split; [discriminate | intros [H | H]; discriminate].
Qed.

(** * Further properties of the code *)

(** ** Distances *)

Lemma sqrt_sum_le (a1 a2 b1 b2 : R) :
  sqrt ((a1 + b1) ^ 2 + (a2 + b2) ^ 2)
  <= sqrt (a1 ^ 2 + a2 ^ 2) + sqrt (b1 ^ 2 + b2 ^ 2).
Proof.
  pose proof (sum_pow2_nonneg a1 a2) as Ha.
  pose proof (sum_pow2_nonneg b1 b2) as Hb.
  pose proof (sqrt_pos (a1 ^ 2 + a2 ^ 2)) as HA.
  pose proof (sqrt_pos (b1 ^ 2 + b2 ^ 2)) as HB.
  pose proof (sqrt_sqrt _ Ha) as EA. pose proof (sqrt_sqrt _ Hb) as EB.
  set (A := sqrt (a1 ^ 2 + a2 ^ 2)) in *.
  set (B := sqrt (b1 ^ 2 + b2 ^ 2)) in *.
  assert (Hcs : a1 * b1 + a2 * b2 <= A * B).
  { destruct (Rle_dec (a1 * b1 + a2 * b2) 0) as [Hn | Hp]; [nra |].
    assert (Hsq : (a1 * b1 + a2 * b2) * (a1 * b1 + a2 * b2)
                  <= (A * B) * (A * B)).
    { replace (A * B * (A * B)) with ((A * A) * (B * B)) by ring.
      rewrite EA, EB.
      replace ((a1 ^ 2 + a2 ^ 2) * (b1 ^ 2 + b2 ^ 2))
        with ((a1 * b1 + a2 * b2) * (a1 * b1 + a2 * b2)
              + (a1 * b2 - a2 * b1) ^ 2) by ring.
      pose proof (pow2_ge_0 (a1 * b2 - a2 * b1)). lra. }
    assert (0 <= A * B) by (apply Rmult_le_pos; assumption).
    nra. }
  replace (sqrt ((a1 + b1) ^ 2 + (a2 + b2) ^ 2))
    with (sqrt ((a1 + b1) ^ 2 + (a2 + b2) ^ 2) * 1) by ring.
  rewrite <- (sqrt_square (A + B)) by lra. rewrite Rmult_1_r.
  apply sqrt_le_1_alt. nra.
Qed.

(** X1.  [distance_to] is a metric on positions: never negative, the same
    in both directions, zero between a point and itself and only then, and
    no longer directly than through a third point. *)
Theorem distance_to_metric (p q r : Position) :
  0 <= distance_to p q
  /\ distance_to p q = distance_to q p
  /\ (distance_to p q = 0 <-> p = q)
  /\ distance_to p r <= distance_to p q + distance_to q r.
Proof.
  split; [apply distance_to_nonneg | split; [| split]].
  - unfold distance_to. f_equal. ring.
  - split; [apply distance_to_zero | intros ->; apply distance_to_self].
  - unfold distance_to.
    replace (px p - px r) with ((px p - px q) + (px q - px r)) by ring.
    replace (py p - py r) with ((py p - py q) + (py q - py r)) by ring.
    apply sqrt_sum_le.
Qed.

(** ** The nearest station *)

(** [min(l, key=...)] returns the first element of least key. *)
Lemma py_min_by_first_least {A : Type} (key : A -> R) (l : list A) (x : A) :
  py_min_by key l = Some x ->
  exists l1 l2,
    l = l1 ++ x :: l2 /\
    (forall y, In y l1 -> key x < key y) /\
    (forall y, In y l2 -> key x <= key y).
Proof.
  destruct l as [| x0 xs]; [discriminate |]. cbn.
  intros E; injection E as <-.
  assert (G : forall (todo seen later : list A) (b : A),
             (forall y, In y seen -> key b < key y) ->
             (forall y, In y later -> key b <= key y) ->
             exists l1 l2,
               seen ++ b :: later ++ todo
               = l1 ++ fold_left
                         (fun best y =>
                            if Rltb (key y) (key best) then y else best)
                         todo b :: l2 /\
               (forall y, In y l1 ->
                  key (fold_left
                         (fun best y =>
                            if Rltb (key y) (key best) then y else best)
                         todo b) < key y) /\
               (forall y, In y l2 ->
                  key (fold_left
                         (fun best y =>
                            if Rltb (key y) (key best) then y else best)
                         todo b) <= key y)).
  { induction todo as [| y ys IH]; intros seen later b Hs Hl; cbn.
    - exists seen, later. rewrite app_nil_r. auto.
    - destruct (Rltb (key y) (key b)) eqn:E.
      + apply Rltb_true in E.
        destruct (IH (seen ++ b :: later) [] y) as (l1 & l2 & E1 & H1 & H2).
        * intros z Hz. apply in_app_or in Hz.
          destruct Hz as [Hz | [<- | Hz]];
            [specialize (Hs z Hz) | | specialize (Hl z Hz)]; lra.
        * intros z [].
        * exists l1, l2. split; [| auto]. rewrite <- E1.
          rewrite <- !app_assoc. reflexivity.
      + apply Rltb_false in E.
        destruct (IH seen (later ++ [y]) b) as (l1 & l2 & E1 & H1 & H2).
        * exact Hs.
        * intros z Hz. apply in_app_or in Hz.
          destruct Hz as [Hz | [<- | []]]; [apply Hl; exact Hz | exact E].
        * exists l1, l2. split; [| auto]. rewrite <- E1.
          rewrite <- !app_assoc. reflexivity. }
  destruct (G xs [] [] x0) as (l1 & l2 & E1 & H1 & H2);
    [intros y [] | intros y [] |].
  exists l1, l2. auto.
Qed.



(** ** What one tick does to one robot *)

(** A tick takes the robot at index [i] through [assign_task], if the
    scheduler chose it, and then through the body of the robot loop. *)
Lemma update_fleet_nth (fm fm' : AMRFleetManager) (dt : R) (i : nat)
    (r : Robot) :
  AMRFleetManager.update_fleet fm dt = Some fm' ->
  nth_error (robots fm) i = Some r ->
  exists r1 r',
    (r1 = r \/ exists t, eligible r /\ r1 = Robot.assign_task r t) /\
    AMRFleetManager.update_robot (charging_stations fm) dt r1 = Some r' /\
    nth_error (robots fm') i = Some r'.
Proof.
  intros E Hn. unfold AMRFleetManager.update_fleet in E.
  rewrite assign_step_stations in E.
  destruct (map_option _ _) as [rs |] eqn:Em; [| discriminate].
  injection E as <-. cbn [robots set_robots AMRFleetManager.update_metrics
                          set_metrics].
  assert (H1 : exists r1,
             (r1 = r \/ exists t, eligible r /\ r1 = Robot.assign_task r t) /\
             nth_error (robots (snd (AMRFleetManager.assign_step fm))) i
             = Some r1).
  { rewrite assign_step_unfold.
    pose proof (assign_optimal_robot_some (task_scheduler fm) (robots fm))
      as Hsome.
    destruct (fst (TaskScheduler.assign_optimal_robot _ _)) as [[i0 t0] |];
      cbn; [| eauto].
    destruct (Hsome i0 t0 eq_refl) as (r0 & _ & _ & Hn0 & He0 & _).
    destruct (Nat.eq_dec i i0) as [-> | Hne].
    - rewrite Hn in Hn0. injection Hn0 as <-.
      exists (Robot.assign_task r t0). split; [right; eauto |].
      rewrite nth_error_update_nth_eq, Hn. reflexivity.
    - exists r. split; [left; reflexivity |].
      rewrite nth_error_update_nth_neq by exact Hne. exact Hn. }
  destruct H1 as (r1 & Hr1 & Hn1).
  destruct (map_option_nth_error _ _ _ _ _ Em Hn1) as (r' & Hu & Hn').
  exists r1, r'. auto.
Qed.

Lemma map_option_length {A B : Type} (f : A -> option B) (l : list A)
    (l' : list B) :
  map_option f l = Some l' -> length l' = length l.
Proof.
  revert l'. induction l as [| x xs IH]; intros l' E.
  - injection E as <-. reflexivity.
  - cbn in E. destruct (f x); [| discriminate].
    destruct (map_option f xs); [| discriminate].
    injection E as <-. cbn. f_equal. apply IH. reflexivity.
Qed.

Lemma update_nth_length {A : Type} (f : A -> A) (l : list A) (i : nat) :
  length (update_nth i f l) = length l.
Proof.
  revert i. induction l as [| x xs IH]; intros [| i]; cbn; auto.
Qed.

Lemma update_fleet_length (fm fm' : AMRFleetManager) (dt : R) :
  AMRFleetManager.update_fleet fm dt = Some fm' ->
  length (robots fm') = length (robots fm).
Proof.
  intros E. unfold AMRFleetManager.update_fleet in E.
  destruct (map_option _ _) as [rs |] eqn:Em; [| discriminate].
  injection E as <-. cbn. rewrite (map_option_length _ _ _ Em).
  destruct (assign_step_robots fm) as [-> | (i & t & _ & ->)];
    [reflexivity | apply update_nth_length].
Qed.

(** The fields that the robot loop never writes. *)
Lemma update_robot_identity (stations : list Position) (dt : R)
    (r r' : Robot) :
  AMRFleetManager.update_robot stations dt r = Some r' ->
  robot_id r' = robot_id r /\ max_battery r' = max_battery r /\
  speed r' = speed r /\ path r' = path r /\
  last_maintenance r' = last_maintenance r.
Proof.
  unfold AMRFleetManager.update_robot, AMRFleetManager.charging_step,
    Robot.complete_current_task.
  destruct (status r); destruct (target_position r) as [tg |];
    try (intros E; injection E as <-; auto).
  - destruct (move_cases r tg dt) as [[_ E] | [[_ [_ E]] | [_ [_ E]]]];
      rewrite E; cbn [current_task set_position];
      try (destruct (current_task r); try destruct (Position_eq_dec _ _));
      intros H; injection H as <-; cbn; auto.
  - destruct (move_cases r tg dt) as [[_ E] | [[_ [_ E]] | [_ [_ E]]]];
      rewrite E; cbn [current_task set_position];
      try destruct (current_task r);
      intros H; injection H as <-; cbn; auto.
  - destruct (move_cases r tg dt) as [[_ E] | [[_ [_ E]] | [_ [_ E]]]];
      rewrite E; cbv zeta; try destruct (Rleb _ _); cbn; auto.
  - destruct (py_min_by _ stations) as [tg |]; [| discriminate].
    intros H; injection H as <-.
    destruct (move_cases (set_target_position r (Some tg)) tg dt)
      as [[_ E] | [[_ [_ E]] | [_ [_ E]]]];
      rewrite E; cbv zeta; try destruct (Rleb _ _); cbn; auto.
Qed.

(** X3.  A tick neither adds nor removes robots, and leaves every robot's
    id, battery capacity, speed, path and maintenance date as they were. *)
Theorem update_fleet_keeps_robots (fm fm' : AMRFleetManager) (dt : R) :
  AMRFleetManager.update_fleet fm dt = Some fm' ->
  length (robots fm') = length (robots fm)
  /\ forall i r, nth_error (robots fm) i = Some r ->
       exists r',
         nth_error (robots fm') i = Some r' /\
         robot_id r' = robot_id r /\ max_battery r' = max_battery r /\
         speed r' = speed r /\ path r' = path r /\
         last_maintenance r' = last_maintenance r.
Proof.
  intros E. split; [apply (update_fleet_length _ _ _ E) |].
  intros i r Hn.
  destruct (update_fleet_nth _ _ _ _ _ E Hn) as (r1 & r' & Hr1 & Hu & Hn').
  exists r'. split; [exact Hn' |].
  destruct (update_robot_identity _ _ _ _ Hu) as (H1 & H2 & H3 & H4 & H5).
  destruct Hr1 as [-> | (t & _ & ->)]; cbn in *; auto.
Qed.

Lemma update_fleet_keeps_robots_witness :
  exists fm' r',
    AMRFleetManager.update_fleet station_fleet 0.1 = Some fm' /\
    length (robots fm') = 1%nat /\
    nth_error (robots fm') 0 = Some r' /\
    robot_id r' = robot_id station_robot /\ speed r' = 2.
Proof.
  destruct (update_fleet_total station_fleet 0.1) as [fm' E];
    [discriminate |].
  destruct (update_fleet_keeps_robots station_fleet fm' 0.1 E) as [Hl Hr].
  destruct (Hr 0%nat station_robot eq_refl) as (r' & Hn & Hi & _ & Hs & _).
  exists fm', r'. auto.
Defined.

(** ** Fleet metrics *)

Lemma update_fleet_metrics_eq (fm fm' : AMRFleetManager) (dt : R) :
  AMRFleetManager.update_fleet fm dt = Some fm' ->
  total_tasks_completed fm' = completed_tasks (robots fm') /\
  fleet_efficiency fm' =
    match robots fm' with
    | [] => 0
    | _ :: _ =>
        INR (length (active_robots (robots fm')))
        / INR (length (robots fm')) * 100
    end.
Proof.
  unfold AMRFleetManager.update_fleet.
  destruct (map_option _ _) as [rs |]; [| discriminate].
  intros E; injection E as <-. split; reflexivity.
Qed.

Lemma active_robots_length (rs : list Robot) :
  (length (active_robots rs) <= length rs)%nat.
Proof. apply filter_length_le. Qed.

Lemma active_robots_none (rs : list Robot) :
  length (active_robots rs) = 0%nat <-> Forall (fun r => status r = IDLE) rs.
Proof.
  unfold active_robots. induction rs as [| r rs IH]; cbn.
  - split; [constructor | reflexivity].
  - destruct (RobotStatus_eq_dec (status r) IDLE) as [E | N]; cbn.
    + rewrite IH. split; [intros H; constructor; assumption |].
      intros H. inversion H; assumption.
    + split; [discriminate |]. intros H0. inversion H0; contradiction.
Qed.

Lemma active_robots_all (rs : list Robot) :
  length (active_robots rs) = length rs <->
  Forall (fun r => status r <> IDLE) rs.
Proof.
  unfold active_robots. induction rs as [| r rs IH]; cbn.
  - split; [constructor | reflexivity].
  - pose proof (active_robots_length rs) as Hl. unfold active_robots in Hl.
    destruct (RobotStatus_eq_dec (status r) IDLE) as [E | N]; cbn.
    + split; [lia |]. intros H. inversion H; contradiction.
    + split.
      * intros H. constructor; [exact N | apply IH; lia].
      * intros H. inversion H; subst. f_equal. apply IH. assumption.
Qed.

(** X4.  After every tick the completed-task total is the sum of the
    robots' counters, and the fleet efficiency is the percentage of robots
    that are not idle: it lies between 0 and 100, is 0 for a fleet without
    robots (no division by zero), and in a fleet with robots it is 0
    exactly when every robot is idle and 100 exactly when none is. *)
Theorem update_fleet_metrics (fm fm' : AMRFleetManager) (dt : R) :
  AMRFleetManager.update_fleet fm dt = Some fm' ->
  total_tasks_completed fm' = completed_tasks (robots fm')
  /\ 0 <= fleet_efficiency fm' <= 100
  /\ fleet_efficiency fm' * INR (length (robots fm'))
     = 100 * INR (length (active_robots (robots fm')))
  /\ (robots fm' = [] -> fleet_efficiency fm' = 0)
  /\ (robots fm' <> [] ->
      (fleet_efficiency fm' = 0 <->
       Forall (fun r => status r = IDLE) (robots fm'))
      /\ (fleet_efficiency fm' = 100 <->
          Forall (fun r => status r <> IDLE) (robots fm'))).
Proof.
  intros E. destruct (update_fleet_metrics_eq _ _ _ E) as [Ht Hf].
  split; [exact Ht |].
  pose proof (active_robots_length (robots fm')) as Hl.
  pose proof (active_robots_none (robots fm')) as Hnone.
  pose proof (active_robots_all (robots fm')) as Hall.
  destruct (robots fm') as [| r0 rs] eqn:Er.
  - rewrite Hf. cbn. split; [lra |]. split; [lra |].
    split; [reflexivity |]. intros N. exfalso. apply N. reflexivity.
  - set (n := length (r0 :: rs)) in *.
    set (a := length (active_robots (r0 :: rs))) in *.
    assert (Hn : 0 < INR n) by (apply lt_0_INR; unfold n; cbn; lia).
    assert (Ha : 0 <= INR a <= INR n)
      by (split; [apply pos_INR | apply le_INR; exact Hl]).
    assert (Hq : fleet_efficiency fm' * INR n = 100 * INR a)
      by (rewrite Hf; field; lra).
    split; [| split; [exact Hq | split; [discriminate |]]].
    + split; nra.
    + intros _. split.
      * rewrite <- Hnone. split.
        -- intros H0. rewrite H0 in Hq. apply INR_eq.
           change (INR 0) with 0. lra.
        -- intros H0. rewrite H0 in Hq. change (INR 0) with 0 in Hq. nra.
      * rewrite <- Hall. split.
        -- intros H0. rewrite H0 in Hq. apply INR_eq. lra.
        -- intros H0. rewrite H0 in Hq. nra.
Qed.

Lemma update_fleet_metrics_witness :
  exists fm',
    AMRFleetManager.update_fleet station_fleet 0.1 = Some fm' /\
    0 <= fleet_efficiency fm' <= 100 /\
    total_tasks_completed fm' = completed_tasks (robots fm').
Proof.
  destruct (update_fleet_total station_fleet 0.1) as [fm' E];
    [discriminate |].
  destruct (update_fleet_metrics station_fleet fm' 0.1 E) as (H1 & H2 & _).
  exists fm'. auto.
Defined.

(** ** States that are never entered *)

Lemma update_robot_not_maintenance (stations : list Position) (dt : R)
    (r r' : Robot) :
  status r <> MAINTENANCE ->
  AMRFleetManager.update_robot stations dt r = Some r' ->
  status r' <> MAINTENANCE.
Proof.
  intros Hm. unfold AMRFleetManager.update_robot,
    AMRFleetManager.charging_step, Robot.complete_current_task.
  destruct (status r) eqn:Es; try contradiction;
    destruct (target_position r) as [tg |];
    try (intros E; injection E as <-; rewrite Es; discriminate).
  - destruct (move_cases r tg dt) as [[_ E] | [[_ [_ E]] | [_ [_ E]]]];
      rewrite E; cbn [current_task set_position];
      try (destruct (current_task r); try destruct (Position_eq_dec _ _));
      intros H; injection H as <-; cbn; rewrite ?Es; discriminate.
  - destruct (move_cases r tg dt) as [[_ E] | [[_ [_ E]] | [_ [_ E]]]];
      rewrite E; cbn [current_task set_position];
      try destruct (current_task r);
      intros H; injection H as <-; cbn; rewrite ?Es; discriminate.
  - intros H; injection H as <-.
    destruct (move_cases r tg dt) as [[_ E] | [[_ [_ E]] | [_ [_ E]]]];
      rewrite E; cbv zeta; try destruct (Rleb _ _); cbn; rewrite ?Es;
      discriminate.
  - destruct (py_min_by _ stations) as [tg |]; [| discriminate].
    intros H; injection H as <-.
    destruct (move_cases (set_target_position r (Some tg)) tg dt)
      as [[_ E] | [[_ [_ E]] | [_ [_ E]]]];
      rewrite E; cbv zeta; try destruct (Rleb _ _); cbn; rewrite ?Es;
      discriminate.
Qed.

(** X5.  No robot is ever in [MAINTENANCE]: the status is declared, and no
    operation of the program sets it. *)
Theorem maintenance_never_entered (fm : AMRFleetManager) :
  reachable fm -> Forall (fun r => status r <> MAINTENANCE) (robots fm).
Proof.
  induction 1 as [w h | fm id pos maxb now _ IH Hm | fm task _ IH
                 | fm dt fm' _ IH Hdt E | fm i task _ IH
                 | fm i target dt _ IH Hdt | fm i _ IH | fm _ IH | fm _ IH];
    cbn.
  - constructor.
  - apply Forall_app. split; [exact IH |].
    constructor; [discriminate | constructor].
  - exact IH.
  - apply Forall_forall. intros r' Hr'.
    apply In_nth_error in Hr'. destruct Hr' as [i Hi].
    assert (Hlt : (i < length (robots fm))%nat).
    { rewrite <- (update_fleet_length _ _ _ E).
      apply nth_error_Some. rewrite Hi. discriminate. }
    destruct (nth_error (robots fm) i) as [r |] eqn:Hn;
      [| apply nth_error_None in Hn; lia].
    destruct (update_fleet_nth _ _ _ _ _ E Hn) as (r1 & r2 & Hr1 & Hu & Hn').
    rewrite Hi in Hn'. injection Hn' as <-.
    apply (update_robot_not_maintenance _ _ _ _ ltac:(
             destruct Hr1 as [-> | (t & _ & ->)];
             [ rewrite Forall_forall in IH; apply IH;
               eapply nth_error_In; exact Hn
             | discriminate ]) Hu).
  - apply update_nth_Forall; [| exact IH]. intros x _; discriminate.
  - apply update_nth_Forall; [| exact IH]. intros x Hx.
    destruct (move_cases x target dt) as [[_ E] | [[_ [_ E]] | [_ [_ E]]]];
      rewrite E; cbn; [discriminate | exact Hx | exact Hx].
  - apply update_nth_Forall; [| exact IH]. intros x Hx.
    unfold Robot.complete_current_task.
    destruct (current_task x); [discriminate | exact Hx].
  - apply Forall_map. eapply Forall_impl; [| exact IH].
    intros x _; discriminate.
  - apply Forall_map. eapply Forall_impl; [| exact IH].
    intros x Hx. destruct (Rltb _ _); [discriminate | exact Hx].
Qed.

Lemma maintenance_never_entered_witness :
  exists fm,
    AMRFleetManager.update_fleet station_fleet 0.1 = Some fm /\
    reachable fm /\
    Forall (fun r => status r <> MAINTENANCE) (robots fm).
Proof.
  destruct (update_fleet_total station_fleet 0.1) as [fm E];
    [discriminate |].
  assert (H : reachable station_fleet).
  { apply reach_add_task, reach_add_robot; [apply reach_init | lra]. }
  assert (R : reachable fm)
    by (apply (reach_update_fleet _ 0.1 _ H); [lra | exact E]).
  exists fm. split; [exact E | split; [exact R |]].
  apply maintenance_never_entered. exact R.
Defined.

(** ** The pending queue in every reachable state *)

Lemma list_remove_In (t x : Task) (l : list Task) :
  In x (list_remove t l) -> In x l.
Proof.
  induction l as [| u us IH]; cbn; [tauto |].
  destruct (Task_eq_dec u t); [tauto |].
  intros [E | H]; [left; exact E | right; apply IH; exact H].
Qed.

Lemma list_remove_sorted (t : Task) (l : list Task) :
  sorted_desc l -> sorted_desc (list_remove t l).
Proof.
  unfold sorted_desc. induction 1 as [| u us Hs IH Hu]; cbn; [constructor |].
  destruct (Task_eq_dec u t); [exact Hs |].
  constructor; [exact IH |].
  rewrite Forall_forall in *. intros x Hx. apply Hu.
  eapply list_remove_In; exact Hx.
Qed.

(** The scheduler's pending list after its scan: the old one, or the old
    one without one task. *)
Lemma assign_optimal_robot_pending (s : TaskScheduler) (robots : list Robot) :
  (fst (TaskScheduler.assign_optimal_robot s robots) = None /\
   snd (TaskScheduler.assign_optimal_robot s robots) = s)
  \/ exists i t,
       fst (TaskScheduler.assign_optimal_robot s robots) = Some (i, t) /\
       In t (pending_tasks s) /\
       pending_tasks (snd (TaskScheduler.assign_optimal_robot s robots))
       = list_remove t (pending_tasks s).
Proof.
  destruct (fst (TaskScheduler.assign_optimal_robot s robots))
    as [[i t] |] eqn:E.
  - right. exists i, t. split; [reflexivity |].
    destruct (assign_optimal_robot_some s robots i t E)
      as (r & l1 & l2 & _ & _ & Hp & _).
    split; [rewrite Hp; apply in_or_app; right; left; reflexivity |].
    revert E. unfold TaskScheduler.assign_optimal_robot.
    destruct (pending_tasks s) as [| t0 ts]; [discriminate |].
    destruct (TaskScheduler.available_robots robots); [discriminate |].
    destruct (snd (TaskScheduler.scan_tasks _ _ _)) as [[i1 t1] |];
      [| discriminate].
    cbn. intros E; injection E as <- <-. reflexivity.
  - left. split; [reflexivity |].
    apply (assign_optimal_robot_none s robots E).
Qed.

(** X6.  The pending queue is sorted by descending priority in every
    reachable state: adding re-sorts it, and an assignment takes a task out
    without disturbing the rest. *)
Theorem pending_queue_always_sorted (fm : AMRFleetManager) :
  reachable fm -> sorted_desc (pending_tasks (task_scheduler fm)).
Proof.
  induction 1 as [w h | fm id pos maxb now _ IH Hm | fm task _ IH
                 | fm dt fm' _ IH Hdt E | fm i task _ IH
                 | fm i target dt _ IH Hdt | fm i _ IH | fm _ IH | fm _ IH];
    cbn; try exact IH.
  - constructor.
  - apply sort_by_priority_desc_sorted.
  - rewrite (update_fleet_scheduler _ _ _ E), assign_step_unfold.
    destruct (assign_optimal_robot_pending (task_scheduler fm) (robots fm))
      as [[E1 E2] | (i & t & E1 & _ & E2)]; rewrite E1; cbn.
    + rewrite E2. exact IH.
    + rewrite E2. apply list_remove_sorted. exact IH.
Qed.

Lemma pending_queue_always_sorted_witness :
  exists fm,
    AMRFleetManager.update_fleet station_fleet 0.1 = Some fm /\
    reachable fm /\ sorted_desc (pending_tasks (task_scheduler fm)).
Proof.
  destruct (update_fleet_total station_fleet 0.1) as [fm E];
    [discriminate |].
  assert (H : reachable station_fleet).
  { apply reach_add_task, reach_add_robot; [apply reach_init | lra]. }
  assert (R : reachable fm)
    by (apply (reach_update_fleet _ 0.1 _ H); [lra | exact E]).
  exists fm. split; [exact E | split; [exact R |]].
  apply pending_queue_always_sorted. exact R.
Defined.

(** ** Where the tasks are *)

Lemma update_robot_accounts (stations : list Position) (dt : R)
    (r r' : Robot) :
  AMRFleetManager.update_robot stations dt r = Some r' ->
  (holds_task r' + tasks_completed r' = holds_task r + tasks_completed r)%nat
  /\ (tasks_completed r <= tasks_completed r')%nat.
Proof.
  unfold AMRFleetManager.update_robot, AMRFleetManager.charging_step,
    Robot.complete_current_task, holds_task.
  destruct (current_task r) as [task |] eqn:Ec;
    (destruct (status r); destruct (target_position r) as [tg |];
     try (intros E; injection E as <-; rewrite Ec; split; [reflexivity | lia]);
     try (destruct (py_min_by _ stations) as [tg |]; [| discriminate]);
     match goal with
     | |- context [Robot.move_towards_target ?x tg dt] =>
         destruct (move_cases x tg dt)
           as [[_ E] | [[_ [_ E]] | [_ [_ E]]]]; rewrite E
     end;
     cbn [current_task set_position set_target_position]; rewrite ?Ec;
     cbv zeta;
     try destruct (Position_eq_dec _ _); try destruct (Rleb _ _);
     intros H; injection H as <-; cbn; rewrite ?Ec; lia).
Qed.

Lemma map_option_sum {A : Type} (f : A -> option A) (g : A -> nat)
    (l l' : list A) :
  (forall x y, f x = Some y -> g y = g x) ->
  map_option f l = Some l' ->
  fold_right plus 0%nat (map g l') = fold_right plus 0%nat (map g l).
Proof.
  intros Hf. revert l'. induction l as [| x xs IH]; intros l' E.
  - injection E as <-. reflexivity.
  - cbn in E. destruct (f x) as [y |] eqn:Ey; [| discriminate].
    destruct (map_option f xs) as [ys |]; [| discriminate].
    injection E as <-. cbn. rewrite (Hf x y Ey), (IH ys eq_refl).
    reflexivity.
Qed.

Lemma sum_update_nth {A : Type} (g : A -> nat) (f : A -> A) (l : list A)
    (i : nat) (x : A) :
  nth_error l i = Some x ->
  (fold_right plus 0 (map g (update_nth i f l)) + g x
   = fold_right plus 0 (map g l) + g (f x))%nat.
Proof.
  revert i. induction l as [| y ys IH]; intros [| i] H; try discriminate.
  - injection H as ->. cbn. lia.
  - cbn in *. specialize (IH i H). lia.
Qed.

(** X7.  A tick creates no task and loses at most one: the tasks that are
    pending, held by a robot or counted as completed stay as many as they
    were, except that a robot which is assigned a task while it still holds
    an old one drops the old one.  With no task held by an idle robot,
    nothing is lost. *)
Theorem update_fleet_accounts_for_tasks (fm fm' : AMRFleetManager) (dt : R) :
  AMRFleetManager.update_fleet fm dt = Some fm' ->
  (accounted_tasks fm' <= accounted_tasks fm <= accounted_tasks fm' + 1)%nat
  /\ (Forall (fun r => status r = IDLE -> current_task r = None) (robots fm)
      -> accounted_tasks fm' = accounted_tasks fm).
Proof.
  intros E. unfold accounted_tasks, completed_tasks.
  rewrite (update_fleet_scheduler _ _ _ E).
  assert (Hr : fold_right plus 0%nat
                 (map (fun r => holds_task r + tasks_completed r)%nat
                      (robots fm'))
               = fold_right plus 0%nat
                   (map (fun r => holds_task r + tasks_completed r)%nat
                        (robots (snd (AMRFleetManager.assign_step fm))))).
  { unfold AMRFleetManager.update_fleet in E.
    destruct (map_option _ _) as [rs |] eqn:Em; [| discriminate].
    injection E as <-. cbn [robots set_robots AMRFleetManager.update_metrics
                            set_metrics].
    eapply map_option_sum; [| exact Em].
    intros x y Hxy. apply (update_robot_accounts _ _ _ _ Hxy). }
  assert (Hsplit : forall rs,
             fold_right plus 0%nat
               (map (fun r => holds_task r + tasks_completed r)%nat rs)
             = (fold_right plus 0 (map holds_task rs)
                + fold_right plus 0 (map tasks_completed rs))%nat).
  { induction rs as [| x xs IH]; cbn; [reflexivity | lia]. }
  rewrite !Hsplit in Hr. clear Hsplit.
  revert Hr. rewrite assign_step_unfold.
  destruct (assign_optimal_robot_pending (task_scheduler fm) (robots fm))
    as [[E1 E2] | (i & t & E1 & Hin & E2)]; rewrite E1;
    cbn [snd robots set_robots task_scheduler set_task_scheduler].
  - rewrite E2. intros Hr. split; [lia | intros _; lia].
  - destruct (assign_optimal_robot_some _ _ _ _ E1)
      as (r & l1 & l2 & Hn & [Hidle _] & Hp & _ & Hp' & _).
    rewrite Hp', Hp, !length_app. cbn [length].
    pose proof (sum_update_nth holds_task
                  (fun robot => Robot.assign_task robot t) _ _ _ Hn) as S1.
    pose proof (sum_update_nth tasks_completed
                  (fun robot => Robot.assign_task robot t) _ _ _ Hn) as S2.
    cbn [Robot.assign_task holds_task current_task tasks_completed
         set_target_position set_status set_current_task] in S1, S2.
    intros Hr. split.
    + unfold holds_task in S1 at 2. destruct (current_task r); lia.
    + intros Hall. rewrite Forall_forall in Hall.
      assert (Hc : current_task r = None)
        by (apply Hall; [eapply nth_error_In; exact Hn | exact Hidle]).
      unfold holds_task in S1 at 2. rewrite Hc in S1. lia.
Qed.

Lemma update_fleet_accounts_for_tasks_witness :
  exists fm',
    AMRFleetManager.update_fleet station_fleet 0.1 = Some fm' /\
    accounted_tasks station_fleet = 1%nat /\ accounted_tasks fm' = 1%nat.
Proof.
  destruct (update_fleet_total station_fleet 0.1) as [fm' E];
    [discriminate |].
  destruct (update_fleet_accounts_for_tasks station_fleet fm' 0.1 E)
    as [_ H].
  exists fm'. split; [exact E | split; [reflexivity |]].
  rewrite H; [reflexivity |].
  repeat constructor.
Defined.

(** ** One step: geometry, odometer, battery *)

(** X8.  A call of [move_towards_target] with a non-negative [speed * dt]
    never takes the robot farther from the target.  The robot is displaced
    by at most [speed * dt], or by less than 0.5 when it snaps onto the
    target; the odometer grows by at most the displacement (a snap is not
    counted), and the battery falls by at most a tenth of what the odometer
    gained, never rising. *)
Theorem move_towards_target_accounting
    (r : Robot) (target : Position) (dt : R) :
  0 <= speed r * dt ->
  let r' := fst (Robot.move_towards_target r target dt) in
  distance_to (position r') target <= distance_to (position r) target
  /\ distance_to (position r) (position r') <= Rmax (speed r * dt) 0.5
  /\ 0 <= total_distance_traveled r' - total_distance_traveled r
       <= distance_to (position r) (position r')
  /\ total_distance_traveled r' - total_distance_traveled r <= speed r * dt
  /\ (0 <= battery_level r ->
      0 <= battery_level r - battery_level r'
        <= 0.1 * (total_distance_traveled r' - total_distance_traveled r)).
Proof.
  intros Hs. cbv zeta.
  pose proof (distance_to_nonneg (position r) target) as Hd.
  destruct (move_cases r target dt) as [[_ E] | [[_ [Hlt E]] | [Hb [Hge E]]]];
    rewrite E; cbn.
  - rewrite distance_to_self. pose proof (Rmax_r (speed r * dt) 0.5).
    repeat split; intros; lra.
  - rewrite distance_to_self. pose proof (Rmax_r (speed r * dt) 0.5).
    repeat split; intros; lra.
  - set (m := Rmin (speed r * dt) (distance_to (position r) target)).
    assert (Hm : 0 <= m <= distance_to (position r) target)
      by (split; [apply Rmin_glb; lra | apply Rmin_r]).
    assert (Hm' : m <= speed r * dt) by apply Rmin_l.
    rewrite advance_remaining by lra. rewrite advance_moved by lra.
    pose proof (Rmax_l (speed r * dt) 0.5).
    split; [lra |]. split; [lra |]. split; [lra |]. split; [lra |].
    intros _. unfold Rmax. destruct (Rle_dec _ _); lra.
Qed.

Lemma move_towards_target_accounting_witness :
  0 <= speed origin_robot * 1 /\
  distance_to
    (position (fst (Robot.move_towards_target origin_robot
                      (mkPosition 10 0) 1)))
    (mkPosition 10 0)
  <= distance_to (position origin_robot) (mkPosition 10 0).
Proof.
  assert (H : 0 <= speed origin_robot * 1) by (cbn; lra).
  split; [exact H |].
  apply (move_towards_target_accounting origin_robot (mkPosition 10 0) 1 H).
Defined.

(** ** One tick: counters and battery of each robot *)

Lemma move_odometer_battery (r : Robot) (tg : Position) (dt : R) :
  0 <= speed r * dt ->
  let r' := fst (Robot.move_towards_target r tg dt) in
  tasks_completed r' = tasks_completed r
  /\ 0 <= total_distance_traveled r' - total_distance_traveled r
       <= speed r * dt
  /\ (0 <= battery_level r ->
      0 <= battery_level r - battery_level r'
        <= 0.1 * (total_distance_traveled r' - total_distance_traveled r)).
Proof.
  intros Hs. cbv zeta.
  pose proof (distance_to_nonneg (position r) tg) as Hd.
  destruct (move_cases r tg dt) as [[_ E] | [[_ [_ E]] | [_ [_ E]]]];
    rewrite E; cbn.
  - split; [reflexivity | split; [lra | intros; lra]].
  - split; [reflexivity | split; [lra | intros; lra]].
  - set (m := Rmin (speed r * dt) (distance_to (position r) tg)).
    assert (Hm : 0 <= m) by (apply Rmin_glb; lra).
    assert (Hm' : m <= speed r * dt) by apply Rmin_l.
    split; [reflexivity | split; [lra |]].
    intros Hb0. unfold Rmax. destruct (Rle_dec _ _); lra.
Qed.

Lemma charging_step_counters (r : Robot) (tg : Position) (dt : R) :
  0 <= dt -> 0 <= speed r ->
  let r' := AMRFleetManager.charging_step r tg dt in
  tasks_completed r' = tasks_completed r
  /\ 0 <= total_distance_traveled r' - total_distance_traveled r
       <= speed r * dt.
Proof.
  intros Hdt Hs. cbv zeta.
  assert (Hsd : 0 <= speed r * dt) by (apply Rmult_le_pos; assumption).
  pose proof (move_odometer_battery r tg dt Hsd) as H.
  cbv zeta in H. destruct H as (H1 & H2 & _).
  unfold AMRFleetManager.charging_step.
  destruct (Robot.move_towards_target r tg dt) as [r1 [|]]; cbn in *;
    cbv zeta; try destruct (Rleb _ _); cbn; (split; [exact H1 | exact H2]).
Qed.

Lemma update_robot_counters (stations : list Position) (dt : R)
    (r r' : Robot) :
  0 <= dt -> 0 <= speed r ->
  AMRFleetManager.update_robot stations dt r = Some r' ->
  (tasks_completed r <= tasks_completed r' <= tasks_completed r + 1)%nat
  /\ 0 <= total_distance_traveled r' - total_distance_traveled r
       <= speed r * dt
  /\ (status r <> CHARGING -> 0 <= battery_level r ->
      0 <= battery_level r - battery_level r'
        <= 0.1 * (total_distance_traveled r' - total_distance_traveled r)).
Proof.
  intros Hdt Hs.
  assert (Hsd : 0 <= speed r * dt) by (apply Rmult_le_pos; assumption).
  unfold AMRFleetManager.update_robot.
  destruct (status r) eqn:Es; destruct (target_position r) as [tg |];
    try (intros E; injection E as <-;
         split; [lia | split; [lra | intros; lra]]).
  - pose proof (move_odometer_battery r tg dt Hsd) as H.
    cbv zeta in H. destruct H as (H1 & H2 & H3).
    unfold Robot.complete_current_task.
    destruct (Robot.move_towards_target r tg dt) as [r1 [|]]; cbn in *;
      try (destruct (current_task r1); try destruct (Position_eq_dec _ _));
      intros E; injection E as <-; cbn;
      (split; [lia | split; [lra | intros _ Hb; apply H3; exact Hb]]).
  - pose proof (move_odometer_battery r tg dt Hsd) as H.
    cbv zeta in H. destruct H as (H1 & H2 & H3).
    unfold Robot.complete_current_task.
    destruct (Robot.move_towards_target r tg dt) as [r1 [|]]; cbn in *;
      try destruct (current_task r1);
      intros E; injection E as <-; cbn;
      (split; [lia | split; [lra | intros _ Hb; apply H3; exact Hb]]).
  - intros E; injection E as <-.
    destruct (charging_step_counters r tg dt Hdt Hs) as [H1 H2].
    split; [lia | split; [exact H2 | intros N; contradiction]].
  - destruct (py_min_by _ stations) as [tg |]; [| discriminate].
    intros E; injection E as <-.
    destruct (charging_step_counters (set_target_position r (Some tg)) tg dt
                Hdt Hs) as [H1 H2]. cbn in H1, H2.
    split; [lia | split; [exact H2 | intros N; contradiction]].
Qed.

(** X9.  In one tick with [dt >= 0], a robot of non-negative speed
    completes at most one task, its counter never going down; its odometer
    grows by at most [speed * dt] and never goes down; and, unless it was
    charging, its battery does not rise and falls by at most a tenth of
    what the odometer gained. *)
Theorem update_fleet_counters
    (fm fm' : AMRFleetManager) (dt : R) (i : nat) (r : Robot) :
  AMRFleetManager.update_fleet fm dt = Some fm' ->
  nth_error (robots fm) i = Some r ->
  0 <= dt -> 0 <= speed r ->
  exists r',
    nth_error (robots fm') i = Some r' /\
    (tasks_completed r <= tasks_completed r' <= tasks_completed r + 1)%nat /\
    0 <= total_distance_traveled r' - total_distance_traveled r
      <= speed r * dt /\
    (status r <> CHARGING -> 0 <= battery_level r ->
     0 <= battery_level r - battery_level r'
       <= 0.1 * (total_distance_traveled r' - total_distance_traveled r)).
Proof.
  intros E Hn Hdt Hs.
  destruct (update_fleet_nth _ _ _ _ _ E Hn) as (r1 & r' & Hr1 & Hu & Hn').
  exists r'. split; [exact Hn' |].
  destruct Hr1 as [-> | (t & _ & ->)].
  - apply (update_robot_counters _ _ _ _ Hdt Hs Hu).
  - destruct (update_robot_counters _ _ (Robot.assign_task r t) r' Hdt Hs Hu)
      as (H1 & H2 & H3).
    cbn in H1, H2, H3. split; [exact H1 | split; [exact H2 |]].
    intros _ Hb. apply H3; [discriminate | exact Hb].
Qed.

Lemma update_fleet_counters_witness :
  exists fm' r',
    AMRFleetManager.update_fleet station_fleet 0.1 = Some fm' /\
    nth_error (robots station_fleet) 0 = Some station_robot /\
    0 <= 0.1 /\ 0 <= speed station_robot /\
    nth_error (robots fm') 0 = Some r' /\
    (tasks_completed r' <= 1)%nat /\ battery_level r' <= 50.
Proof.
  destruct (update_fleet_total station_fleet 0.1) as [fm' E];
    [discriminate |].
  assert (Hn : nth_error (robots station_fleet) 0 = Some station_robot)
    by reflexivity.
  assert (Hdt : 0 <= 0.1) by lra.
  assert (Hs : 0 <= speed station_robot) by (cbn; lra).
  destruct (update_fleet_counters station_fleet fm' 0.1 0 station_robot
              E Hn Hdt Hs) as (r' & Hn' & Hc & _ & Hb).
  exists fm', r'. repeat (split; [assumption |]).
  split; [cbn in Hc; lia |].
  assert (H := Hb ltac:(discriminate) ltac:(cbn; lra)). cbn in H. lra.
Defined.

(** ** Ties in the scheduler *)

Lemma consider_first_best_of seen best (c : Task * (nat * Robot)) :
  first_best_of seen best ->
  first_best_of (seen ++ [c]) (TaskScheduler.consider best (fst c) (snd c)).
Proof.
  destruct best as [sc [[i t] |]], c as [t' [i' r']];
    unfold first_best_of; cbn.
  - intros (r & s1 & s2 & -> & -> & H1 & H2).
    unfold TaskScheduler.consider; cbn.
    destruct (Rltb _ _) eqn:E; cbn.
    + apply Rltb_true in E.
      exists r', (s1 ++ (t, (i, r)) :: s2), [].
      split; [reflexivity | split; [reflexivity | split]].
      * intros c Hc. apply in_app_or in Hc.
        destruct Hc as [Hc | [<- | Hc]];
          [specialize (H1 c Hc) | cbn | specialize (H2 c Hc)]; lra.
      * intros c [].
    + apply Rltb_false in E.
      exists r, s1, (s2 ++ [(t', (i', r'))]).
      split; [rewrite <- app_assoc; reflexivity |].
      split; [reflexivity | split; [exact H1 |]].
      intros c Hc. apply in_app_or in Hc.
      destruct Hc as [Hc | [<- | []]]; [apply H2; exact Hc | exact E].
  - intros [-> ->]. unfold TaskScheduler.consider; cbn.
    exists r', [], []. split; [reflexivity | split; [reflexivity |]].
    split; intros c [].
Qed.

Lemma scan_tasks_first_best_of (pending : list Task)
    (available : list (nat * Robot)) :
  first_best_of
    (flat_map (fun t => map (fun ir => (t, ir)) available) pending)
    (TaskScheduler.scan_tasks pending available (Infinity, None)).
Proof.
  rewrite scan_tasks_flat.
  assert (G : forall todo seen best,
             first_best_of seen best ->
             first_best_of (seen ++ todo)
               (fold_left
                  (fun b c => TaskScheduler.consider b (fst c) (snd c))
                  todo best)).
  { induction todo as [| c cs IH]; intros seen best H; cbn.
    - rewrite app_nil_r. exact H.
    - replace (seen ++ c :: cs) with ((seen ++ [c]) ++ cs)
        by (rewrite <- app_assoc; reflexivity).
      apply IH. apply consider_first_best_of. exact H. }
  apply (G _ [] (Infinity, None)). split; reflexivity.
Qed.

(** A list cut in two places: what comes before an element that the first
    part does not hold lies before that element's place. *)
Lemma app_eq_app_before {A : Type} (a b s1 s2 : list A) (c : A) :
  a ++ b = s1 ++ c :: s2 -> ~ In c a ->
  exists s1', s1 = a ++ s1' /\ b = s1' ++ c :: s2.
Proof.
  revert s1. induction a as [| x a IH]; intros s1 E Hn.
  - exists s1. split; [reflexivity | exact E].
  - destruct s1 as [| y s1]; cbn in E.
    + injection E as -> _. exfalso. apply Hn. left. reflexivity.
    + injection E as <- E.
      destruct (IH s1 E) as (s1' & -> & ->);
        [intros H; apply Hn; right; exact H |].
      exists s1'. split; reflexivity.
Qed.

(** The eligible robots are listed by rising index. *)
Lemma available_split (robots : list Robot) (s i : nat) (r : Robot) :
  In (i, r)
     (filter (fun ir => TaskScheduler.is_available (snd ir))
             (combine (seq s (length robots)) robots)) ->
  exists a1 a2,
    filter (fun ir => TaskScheduler.is_available (snd ir))
           (combine (seq s (length robots)) robots)
    = a1 ++ (i, r) :: a2 /\
    (forall jx, In jx a1 -> (fst jx < i)%nat) /\
    (forall jx, In jx a2 -> (i < fst jx)%nat).
Proof.
  revert s. induction robots as [| x xs IH]; intros s H; cbn in *;
    [destruct H |].
  assert (Hlater : forall jx,
             In jx (filter (fun ir => TaskScheduler.is_available (snd ir))
                           (combine (seq (S s) (length xs)) xs)) ->
             (s < fst jx)%nat).
  { intros [j y] Hj. apply filter_In in Hj. destruct Hj as [Hj _].
    apply In_combine_seq in Hj. cbn. lia. }
  destruct (TaskScheduler.is_available x) eqn:Ex.
  - destruct H as [E | H].
    + injection E as <- <-. exists []. eexists.
      split; [reflexivity | split; [intros jx [] | exact Hlater]].
    + pose proof (Hlater (i, r) H) as Hi. cbn in Hi.
      destruct (IH (S s) H) as (a1 & a2 & -> & H1 & H2).
      exists ((s, x) :: a1), a2. split; [reflexivity | split; [| exact H2]].
      intros jx [<- | Hj]; [exact Hi | apply H1; exact Hj].
  - destruct (IH (S s) H) as (a1 & a2 & -> & H1 & H2).
    exists a1, a2. auto.
Qed.

(** X10.  Ties go to the pair found first.  Of the chosen task's position
    in the queue: every task ahead of it costs strictly more with every
    eligible robot; and for the chosen task, every eligible robot earlier
    in the fleet's list costs strictly more.  So between equally cheap
    choices the task nearer the head of the queue (higher priority, or
    added earlier) is taken, by the robot listed first. *)
Theorem assign_optimal_robot_first_found
    (s : TaskScheduler) (robots : list Robot) (i : nat) (t : Task) :
  fst (TaskScheduler.assign_optimal_robot s robots) = Some (i, t) ->
  exists r l1 l2,
    nth_error robots i = Some r /\
    pending_tasks s = l1 ++ t :: l2 /\ ~ In t l1 /\
    (forall t' r', In t' l1 -> In r' robots -> eligible r' ->
       TaskScheduler.score r t < TaskScheduler.score r' t') /\
    (forall j r', (j < i)%nat -> nth_error robots j = Some r' ->
       eligible r' ->
       TaskScheduler.score r t < TaskScheduler.score r' t).
Proof.
  intros E.
  destruct (assign_optimal_robot_some s robots i t E)
    as (r & l1 & l2 & Hn & He & Hp & Hl1 & _).
  exists r, l1, l2. split; [exact Hn |]. split; [exact Hp |].
  split; [exact Hl1 |].
  revert E. unfold TaskScheduler.assign_optimal_robot. rewrite Hp.
  destruct (l1 ++ t :: l2) as [| t0 ts] eqn:El; [discriminate |].
  destruct (TaskScheduler.available_robots robots) as [| ir0 irs] eqn:Ea;
    [discriminate |].
  pose proof (scan_tasks_first_best_of (t0 :: ts) (ir0 :: irs)) as B.
  unfold first_best_of in B.
  destruct (snd (TaskScheduler.scan_tasks (t0 :: ts) (ir0 :: irs)
                   (Infinity, None))) as [[i1 t1] |]; [| discriminate].
  cbn [fst]. intros E. injection E as -> ->.
  destruct B as (r1 & s1 & s2 & Es & _ & H1 & _).
  rewrite <- El, <- Ea in Es. clear El.
  assert (Hir : In (i, r1) (TaskScheduler.available_robots robots)).
  { assert (Hc : In (t, (i, r1))
                    (flat_map
                       (fun t => map (fun ir => (t, ir))
                                     (TaskScheduler.available_robots robots))
                       (l1 ++ t :: l2)))
      by (rewrite Es; apply in_or_app; right; left; reflexivity).
    apply In_candidates in Hc. tauto. }
  assert (Er : r1 = r).
  { apply In_available_robots in Hir. destruct Hir as [Hn1 _].
    rewrite Hn in Hn1. injection Hn1 as <-. reflexivity. }
  subst r1.
  rewrite flat_map_app in Es. cbn [flat_map] in Es.
  destruct (app_eq_app_before _ _ _ _ _ Es) as (s1' & Es1 & Es2).
  { intros Hc. apply In_candidates in Hc. tauto. }
  destruct (available_split robots 0 i r Hir) as (a1 & a2 & Eav & Ha1 & Ha2).
  fold (TaskScheduler.available_robots robots) in Eav.
  split.
  - intros t' r' Ht' Hr' He'. apply In_nth_error in Hr'.
    destruct Hr' as [j Hj].
    apply (H1 (t', (j, r'))). rewrite Es1. apply in_or_app. left.
    apply In_candidates. split; [exact Ht' |].
    apply In_available_robots. tauto.
  - intros j r' Hlt Hj He'.
    assert (Hin : In (j, r') (TaskScheduler.available_robots robots))
      by (apply In_available_robots; tauto).
    rewrite Eav in Es2. rewrite map_app in Es2. cbn [map] in Es2.
    rewrite <- !app_assoc in Es2. cbn [app] in Es2.
    destruct (app_eq_app_before _ _ _ _ _ Es2) as (s1'' & Es3 & _).
    { intros Hc. apply in_map_iff in Hc. destruct Hc as (jx & Ejx & Hjx).
      injection Ejx as ->. specialize (Ha1 _ Hjx). cbn in Ha1. lia. }
    apply (H1 (t, (j, r'))). rewrite Es1, Es3.
    apply in_or_app. right. apply in_or_app. left.
    apply in_map. rewrite Eav in Hin. apply in_app_or in Hin.
    destruct Hin as [Hin | [Ein | Hin]]; [exact Hin | |].
    + injection Ein as -> _. lia.
    + specialize (Ha2 _ Hin). cbn in Ha2. lia.
Qed.

Lemma assign_optimal_robot_first_found_witness :
  fst (TaskScheduler.assign_optimal_robot (task_scheduler station_fleet)
         (robots station_fleet)) = Some (0%nat, nearby_task)
  /\ exists r l1 l2,
       nth_error (robots station_fleet) 0 = Some r /\
       pending_tasks (task_scheduler station_fleet)
       = l1 ++ nearby_task :: l2 /\ ~ In nearby_task l1.
Proof.
  assert (E : fst (TaskScheduler.assign_optimal_robot
                     (task_scheduler station_fleet) (robots station_fleet))
              = Some (0%nat, nearby_task)) by (run_code; reflexivity).
  split; [exact E |].
  destruct (assign_optimal_robot_first_found _ _ _ _ E)
    as (r & l1 & l2 & H1 & H2 & H3 & _).
  exists r, l1, l2. auto.
Defined.

(** ** The tick of an assignment *)

Lemma assign_step_fst (fm : AMRFleetManager) :
  fst (AMRFleetManager.assign_step fm)
  = fst (TaskScheduler.assign_optimal_robot (task_scheduler fm) (robots fm)).
Proof.
  rewrite assign_step_unfold.
  destruct (fst (TaskScheduler.assign_optimal_robot _ _)) as [[i t] |];
    reflexivity.
Qed.

(** The robot the scheduler chose goes through [assign_task] and, in the
    same tick, through the robot loop. *)
Lemma update_fleet_nth_assigned (fm fm' : AMRFleetManager) (dt : R)
    (i : nat) (t : Task) (r : Robot) :
  AMRFleetManager.update_fleet fm dt = Some fm' ->
  fst (AMRFleetManager.assign_step fm) = Some (i, t) ->
  nth_error (robots fm) i = Some r ->
  exists r',
    AMRFleetManager.update_robot (charging_stations fm) dt
      (Robot.assign_task r t) = Some r' /\
    nth_error (robots fm') i = Some r'.
Proof.
  intros E Ea Hn. unfold AMRFleetManager.update_fleet in E.
  rewrite assign_step_stations in E.
  destruct (map_option _ _) as [rs |] eqn:Em; [| discriminate].
  injection E as <-. cbn [robots set_robots AMRFleetManager.update_metrics
                          set_metrics].
  assert (H1 : nth_error (robots (snd (AMRFleetManager.assign_step fm))) i
               = Some (Robot.assign_task r t)).
  { rewrite assign_step_fst in Ea. rewrite assign_step_unfold, Ea. cbn.
    rewrite nth_error_update_nth_eq, Hn. reflexivity. }
  destruct (map_option_nth_error _ _ _ _ _ Em H1) as (r' & Hu & Hn').
  exists r'. auto.
Qed.

(** A robot that has just been given a task, with battery above 5, ends
    the tick on its way to the start ([MOVING]) or, if it stood within 0.5
    of the start, already bound for the end ([WORKING]). *)
Lemma update_robot_assigned (stations : list Position) (dt : R)
    (r r' : Robot) (t : Task) :
  5 < battery_level r ->
  AMRFleetManager.update_robot stations dt (Robot.assign_task r t)
  = Some r' ->
  (status r' = MOVING \/ status r' = WORKING) /\
  current_task r' = Some (set_assigned_robot t (Some (robot_id r))).
Proof.
  intros Hb. unfold AMRFleetManager.update_robot.
  change (status (Robot.assign_task r t)) with MOVING.
  change (target_position (Robot.assign_task r t))
    with (Some (start_pos t)).
  cbv iota beta.
  destruct (move_cases (Robot.assign_task r t) (start_pos t) dt)
    as [[Hl _] | [[_ [_ E]] | [_ [_ E]]]].
  - cbn in Hl. lra.
  - rewrite E. cbn.
    destruct (Position_eq_dec (start_pos t) (start_pos t)) as [_ | N];
      [| contradiction].
    intros H; injection H as <-. cbn. auto.
  - rewrite E. intros H; injection H as <-. cbn. auto.
Qed.









(** ** A robot followed over several ticks *)

Lemma busy_steps_trans (stations : list Position) (dt : R) (n m : nat)
    (r r1 r2 : Robot) :
  busy_steps stations dt n r r1 -> busy_steps stations dt m r1 r2 ->
  busy_steps stations dt (n + m) r r2.
Proof.
  induction 1 as [r | n r ra rb Hs Hu _ IH]; intros H2; cbn;
    [exact H2 |].
  eapply busy_step; eauto.
Qed.

(** The fleet's ticks do to a busy robot what the robot loop does. *)
Lemma run_follows_busy_robot (n : nat) (dt : R) (r r' : Robot) :
  forall (fm : AMRFleetManager) (i : nat),
    busy_steps (charging_stations fm) dt n r r' ->
    charging_stations fm <> [] ->
    nth_error (robots fm) i = Some r ->
    exists fm',
      run fm (ticks n dt) = Some fm' /\ nth_error (robots fm') i = Some r'.
Proof.
  intros fm i H. remember (charging_stations fm) as st eqn:Est.
  revert fm Est. induction H as [r | n r r1 r' Hs Hu _ IH];
    intros fm Est Hne Hn.
  - exists fm. split; [reflexivity | exact Hn].
  - subst st. destruct (update_fleet_total fm dt Hne) as [fm1 E].
    destruct (update_fleet_nth _ _ _ _ _ E Hn) as (ra & rb & Hra & Hub & Hnb).
    destruct Hra as [-> | (t & [Hi _] & _)]; [| contradiction].
    rewrite Hu in Hub. injection Hub as <-.
    pose proof (update_fleet_stations _ _ _ E) as Es.
    destruct (IH fm1) as (fm' & Er & Hn');
      [symmetry; exact Es | exact Hne | exact Hnb |].
    exists fm'. split; [| exact Hn'].
    cbn [ticks repeat run step]. rewrite E. exact Er.
Qed.

(** A tick that does not arrive: the robot loop returns what the step
    returns. *)
Lemma update_robot_on_the_way (stations : list Position) (dt : R)
    (r : Robot) (tg : Position) :
  status r = MOVING \/ status r = WORKING \/ status r = CHARGING ->
  target_position r = Some tg ->
  5 < battery_level r -> 0.5 <= distance_to (position r) tg ->
  AMRFleetManager.update_robot stations dt r
  = Some (set_battery_level
            (set_total_distance_traveled
               (set_position r
                  (advance (position r) tg
                     (Rmin (speed r * dt) (distance_to (position r) tg))))
               (total_distance_traveled r
                + Rmin (speed r * dt) (distance_to (position r) tg)))
            (Rmax 0 (battery_level r
                     - Rmin (speed r * dt) (distance_to (position r) tg)
                       * 0.1))).
Proof.
  intros Hs Ht Hb Hd. unfold AMRFleetManager.update_robot,
    AMRFleetManager.charging_step. rewrite Ht.
  rewrite (move_go r tg dt Hb Hd).
  destruct Hs as [-> | [-> | ->]]; reflexivity.
Qed.

(** The way to the target: after at most [n] ticks that do not arrive, the
    robot is within 0.5 of its target, otherwise as it was, with a battery
    that has paid a tenth of the distance covered. *)
Lemma busy_travel (stations : list Position) (dt : R) (n : nat) :
  forall (r : Robot) (tg : Position),
    status r = MOVING \/ status r = WORKING \/ status r = CHARGING ->
    target_position r = Some tg ->
    0 < speed r * dt ->
    distance_to (position r) tg <= INR n * (speed r * dt) ->
    5 + 0.1 * distance_to (position r) tg < battery_level r ->
    exists k rk,
      (k <= n)%nat /\ busy_steps stations dt k r rk /\
      status rk = status r /\ target_position rk = Some tg /\
      current_task rk = current_task r /\
      tasks_completed rk = tasks_completed r /\
      speed rk = speed r /\ max_battery rk = max_battery r /\
      distance_to (position rk) tg < 0.5 /\
      battery_level r - 0.1 * distance_to (position r) tg
      <= battery_level rk <= battery_level r.
Proof.
  induction n as [| n IH]; intros r tg Hs Ht Hv Hd Hb;
    pose proof (distance_to_nonneg (position r) tg) as Hd0.
  - exists 0%nat, r. cbn in Hd. rewrite Rmult_0_l in Hd.
    split; [lia |]. split; [constructor |].
    repeat split; first [reflexivity | assumption | lra].
  - destruct (Rlt_dec (distance_to (position r) tg) 0.5) as [Hlt | Hge].
    + exists 0%nat, r. split; [lia |]. split; [constructor |].
      repeat split; first [reflexivity | assumption | lra].
    + assert (Hge' : 0.5 <= distance_to (position r) tg) by lra.
      assert (Hb5 : 5 < battery_level r) by lra.
      pose proof (update_robot_on_the_way stations dt r tg Hs Ht Hb5 Hge')
        as Hu.
      set (m := Rmin (speed r * dt) (distance_to (position r) tg)) in *.
      assert (Hm : 0 <= m <= distance_to (position r) tg)
        by (split; [apply Rmin_glb; lra | apply Rmin_r]).
      assert (Hm' : distance_to (position r) tg - m
                    <= INR n * (speed r * dt)).
      { rewrite S_INR in Hd. unfold m, Rmin.
        pose proof (pos_INR n).
        destruct (Rle_dec _ _); nra. }
      set (r1 := set_battery_level _ _) in Hu.
      assert (Hd1 : distance_to (position r1) tg
                    = distance_to (position r) tg - m)
        by (cbn; apply advance_remaining; lra).
      assert (Hb1 : battery_level r1 = Rmax 0 (battery_level r - m * 0.1))
        by reflexivity.
      assert (Hb1' : battery_level r - m * 0.1 <= battery_level r1
                     <= battery_level r).
      { rewrite Hb1. unfold Rmax. destruct (Rle_dec _ _); lra. }
      destruct (IH r1 tg) as (k & rk & Hk & Hbs & H1 & H2 & H3 & H4 & H5
                              & H6 & H7 & H8).
      * exact Hs.
      * exact Ht.
      * exact Hv.
      * rewrite Hd1. exact Hm'.
      * rewrite Hd1. lra.
      * exists (S k), rk. split; [lia |]. split.
        -- eapply busy_step; [| exact Hu | exact Hbs].
           destruct Hs as [E | [E | E]]; rewrite E; discriminate.
        -- split; [exact H1 |]. split; [exact H2 |]. split; [exact H3 |].
           split; [exact H4 |]. split; [exact H5 |]. split; [exact H6 |].
           split; [exact H7 |]. rewrite Hd1 in H8. lra.
Qed.

(** ** From assignment to completion *)

(** The tick on which a robot in [MOVING] reaches the start of its task:
    it stands on the start, is in [WORKING] and bound for the end. *)
Lemma update_robot_reaches_start (stations : list Position) (dt : R)
    (r : Robot) (task : Task) :
  status r = MOVING -> current_task r = Some task ->
  target_position r = Some (start_pos task) ->
  5 < battery_level r ->
  distance_to (position r) (start_pos task) < 0.5 ->
  AMRFleetManager.update_robot stations dt r
  = Some (set_status
            (set_target_position (set_position r (start_pos task))
               (Some (end_pos task)))
            WORKING).
Proof.
  intros Hs Hc Ht Hb Hd. unfold AMRFleetManager.update_robot.
  rewrite Hs, Ht, (move_snap r _ dt Hb Hd). cbn. rewrite Hc.
  destruct (Position_eq_dec (start_pos task) (start_pos task));
    [reflexivity | contradiction].
Qed.

(** The tick on which a robot in [WORKING] reaches its target: the task is
    completed. *)
Lemma update_robot_reaches_end (stations : list Position) (dt : R)
    (r : Robot) (task : Task) (tg : Position) :
  status r = WORKING -> current_task r = Some task ->
  target_position r = Some tg ->
  5 < battery_level r -> distance_to (position r) tg < 0.5 ->
  AMRFleetManager.update_robot stations dt r
  = Some (set_target_position
            (set_status
               (set_current_task
                  (set_tasks_completed (set_position r tg)
                     (tasks_completed r + 1))
                  None)
               IDLE)
            None).
Proof.
  intros Hs Hc Ht Hb Hd. unfold AMRFleetManager.update_robot.
  rewrite Hs, Ht, (move_snap r _ dt Hb Hd).
  unfold Robot.complete_current_task. cbn. rewrite Hc. reflexivity.
Qed.

(** From [MOVING] towards the start of the task to [IDLE] at its end. *)
Lemma busy_task (stations : list Position) (dt : R) (r : Robot)
    (task : Task) :
  status r = MOVING -> current_task r = Some task ->
  target_position r = Some (start_pos task) ->
  0 < dt -> 0 < speed r ->
  5 + 0.1 * (distance_to (position r) (start_pos task)
             + distance_to (start_pos task) (end_pos task))
  < battery_level r ->
  exists n r',
    (n <= arrival_bound r (start_pos task) dt
          + arrival_bound (set_position r (start_pos task)) (end_pos task) dt
          + 2)%nat /\
    busy_steps stations dt n r r' /\
    status r' = IDLE /\ tasks_completed r' = (tasks_completed r + 1)%nat /\
    position r' = end_pos task /\ current_task r' = None /\
    target_position r' = None.
Proof.
  intros Hs Hc Ht Hdt Hsp Hb.
  assert (Hv : 0 < speed r * dt) by (apply Rmult_lt_0_compat; assumption).
  pose proof (distance_to_nonneg (position r) (start_pos task)) as Hd1.
  pose proof (distance_to_nonneg (start_pos task) (end_pos task)) as Hd2.
  (* to the start *)
  destruct (busy_travel stations dt (arrival_bound r (start_pos task) dt)
              r (start_pos task))
    as (k1 & ra & Hk1 & B1 & As & At & Ac & An & Asp & _ & Ad & Ab);
    [left; exact Hs | exact Ht | exact Hv
    | apply arrival_bound_covers; exact Hv | lra |].
  rewrite Hs in As. rewrite Hc in Ac.
  assert (Ab5 : 5 < battery_level ra) by lra.
  pose proof (update_robot_reaches_start stations dt ra task As Ac At
                Ab5 Ad) as U1.
  set (rb := set_status _ WORKING) in U1.
  (* to the end *)
  destruct (busy_travel stations dt
              (arrival_bound (set_position r (start_pos task))
                 (end_pos task) dt)
              rb (end_pos task))
    as (k2 & rc & Hk2 & B2 & Cs & Ct & Cc & Cn & _ & _ & Cd & Cb).
  - right. left. reflexivity.
  - reflexivity.
  - cbn. rewrite Asp. exact Hv.
  - cbn. rewrite Asp.
    apply (arrival_bound_covers (set_position r (start_pos task))
             (end_pos task) dt). exact Hv.
  - cbn. lra.
  - cbn in Cs, Cc, Cn, Cb. rewrite Ac in Cc.
    assert (Cb5 : 5 < battery_level rc) by lra.
    pose proof (update_robot_reaches_end stations dt rc task (end_pos task)
                  Cs Cc Ct Cb5 Cd) as U2.
    eexists. eexists. split; [| split].
    2:{ eapply busy_steps_trans; [exact B1 |].
        eapply busy_step;
          [rewrite As; discriminate | exact U1 |].
        eapply busy_steps_trans; [exact B2 |].
        eapply busy_step;
          [rewrite Cs; discriminate | exact U2 | constructor]. }
    + lia.
    + cbn. rewrite Cn, An.
      repeat split; reflexivity.
Qed.


(** ** From the charging order to a charged robot *)

(** A tick of a charging robot that stands within 0.5 of its target. *)
Lemma update_robot_charges (stations : list Position) (dt : R)
    (r : Robot) (s : Position) :
  status r = CHARGING -> target_position r = Some s ->
  5 < battery_level r -> distance_to (position r) s < 0.5 ->
  AMRFleetManager.update_robot stations dt r
  = Some
      (if Rleb (max_battery r * 0.9)
               (Rmin (max_battery r) (battery_level r + 20 * dt))
       then set_target_position
              (set_status
                 (set_battery_level (set_position r s)
                    (Rmin (max_battery r) (battery_level r + 20 * dt)))
                 IDLE)
              None
       else set_battery_level (set_position r s)
              (Rmin (max_battery r) (battery_level r + 20 * dt))).
Proof.
  intros Hs Ht Hb Hd. unfold AMRFleetManager.update_robot,
    AMRFleetManager.charging_step.
  rewrite Hs, Ht, (move_snap r s dt Hb Hd). cbn.
  rewrite py_min_Rmin. reflexivity.
Qed.

(** At the station: the battery gains [20 * dt] per tick until it is at
    nine tenths of the capacity, and the robot is idle. *)
Lemma busy_charge (stations : list Position) (dt : R) (m : nat) :
  forall (r : Robot) (s : Position),
    status r = CHARGING -> target_position r = Some s ->
    distance_to (position r) s < 0.5 ->
    5 < battery_level r <= max_battery r -> 0 < dt ->
    0.9 * max_battery r - battery_level r <= INR m * (20 * dt) ->
    exists k r',
      (1 <= k <= m + 1)%nat /\ busy_steps stations dt k r r' /\
      status r' = IDLE /\ position r' = s /\ target_position r' = None /\
      0.9 * max_battery r <= battery_level r' <= max_battery r /\
      current_task r' = current_task r /\
      tasks_completed r' = tasks_completed r.
Proof.
  induction m as [| m IH]; intros r s Hs Ht Hd Hb Hdt Hm.
  - pose proof (update_robot_charges stations dt r s Hs Ht (proj1 Hb) Hd)
      as U.
    assert (Hmin : 0.9 * max_battery r
                   <= Rmin (max_battery r) (battery_level r + 20 * dt)
                   <= max_battery r).
    { cbn in Hm. split; [apply Rmin_glb; lra | apply Rmin_l]. }
    rewrite (proj2 (Rleb_true _ _)) in U by lra.
    eexists 1%nat, _. split; [lia |]. split.
    + eapply busy_step; [rewrite Hs; discriminate | exact U | constructor].
    + cbn. repeat split; first [reflexivity | lra].
  - pose proof (update_robot_charges stations dt r s Hs Ht (proj1 Hb) Hd)
      as U.
    pose proof (Rmin_l (max_battery r) (battery_level r + 20 * dt)) as Hl.
    destruct (Rleb (max_battery r * 0.9)
                (Rmin (max_battery r) (battery_level r + 20 * dt))) eqn:E.
    + apply Rleb_true in E.
      eexists 1%nat, _. split; [lia |]. split.
      * eapply busy_step; [rewrite Hs; discriminate | exact U | constructor].
      * cbn. repeat split; first [reflexivity | lra].
    + apply Rleb_false in E.
      assert (Emin : Rmin (max_battery r) (battery_level r + 20 * dt)
                     = battery_level r + 20 * dt).
      { unfold Rmin in *. destruct (Rle_dec _ _); lra. }
      rewrite Emin in *.
      set (r1 := set_battery_level (set_position r s) _) in U.
      destruct (IH r1 s) as (k & r' & Hk & B & H1 & H2 & H3 & H4 & H5 & H6).
      * exact Hs.
      * exact Ht.
      * cbn. rewrite distance_to_self. lra.
      * cbn. lra.
      * exact Hdt.
      * cbn. rewrite S_INR in Hm. lra.
      * exists (S k), r'. split; [lia |]. split.
        -- eapply busy_step; [rewrite Hs; discriminate | exact U | exact B].
        -- cbn in H4, H5, H6. repeat split; first [assumption | lra].
Qed.

Lemma charge_bound_covers (capacity battery dt : R) :
  0 < dt ->
  0.9 * capacity - battery
  <= INR (charge_bound capacity battery dt) * (20 * dt).
Proof.
  intros Hdt. unfold charge_bound.
  set (q := (0.9 * capacity - battery) / (20 * dt)).
  assert (Eq : 0.9 * capacity - battery = q * (20 * dt))
    by (unfold q; field; lra).
  destruct (Rceil_bounds q) as [Hc _].
  destruct (Z_lt_le_dec (Rceil q) 0) as [Hneg | Hpos].
  - assert (E0 : Z.to_nat (Rceil q) = 0%nat)
      by (destruct (Rceil q); try reflexivity; lia).
    rewrite E0. cbn. rewrite Rmult_0_l.
    apply IZR_lt in Hneg. rewrite Eq. nra.
  - rewrite INR_IZR_INZ, Z2Nat.id by exact Hpos. rewrite Eq.
    apply Rmult_le_compat_r; lra.
Qed.

(** The first tick of a charging robot without a target is the tick of the
    same robot with the nearest station as its target. *)
Lemma update_robot_picks_station (stations : list Position) (dt : R)
    (r : Robot) (s : Position) :
  status r = CHARGING -> target_position r = None ->
  py_min_by (fun s => distance_to (position r) s) stations = Some s ->
  AMRFleetManager.update_robot stations dt r
  = AMRFleetManager.update_robot stations dt
      (set_target_position r (Some s)).
Proof.
  intros Hs Ht Hp. unfold AMRFleetManager.update_robot.
  cbn [status target_position set_target_position].
  rewrite Hs, Ht, Hp. reflexivity.
Qed.

Lemma busy_steps_first (stations : list Position) (dt : R) (n : nat)
    (r0 r r' : Robot) :
  AMRFleetManager.update_robot stations dt r
  = AMRFleetManager.update_robot stations dt r0 ->
  status r <> IDLE ->
  busy_steps stations dt (S n) r0 r' -> busy_steps stations dt (S n) r r'.
Proof.
  intros E Hs B. inversion B as [| j x x1 x' Hx Hu Hrest]; subst.
  eapply busy_step; [exact Hs | rewrite E; exact Hu | exact Hrest].
Qed.

(** From the charging order to a charged robot, in exact arithmetic: the
    way to the nearest station, then the charge. *)
Lemma charging_run
    (fm : AMRFleetManager) (i : nat) (r : Robot) (s : Position) (dt : R) :
  nth_error (robots fm) i = Some r ->
  status r = CHARGING -> target_position r = None ->
  py_min_by (fun s => distance_to (position r) s) (charging_stations fm)
  = Some s ->
  0 < dt -> 0 < speed r ->
  5 + 0.1 * distance_to (position r) s < battery_level r ->
  battery_level r <= max_battery r ->
  exists n fm' r',
    (1 <= n <= arrival_bound r s dt
               + charge_bound (max_battery r)
                   (battery_level r - 0.1 * distance_to (position r) s) dt
               + 1)%nat /\
    run fm (ticks n dt) = Some fm' /\
    nth_error (robots fm') i = Some r' /\
    status r' = IDLE /\ position r' = s /\ target_position r' = None /\
    0.9 * max_battery r <= battery_level r' <= max_battery r.
Proof.
  intros Hn Hs Ht Hp Hdt Hsp Hb Hmax.
  assert (Hst : charging_stations fm <> [])
    by (intros E; rewrite E in Hp; discriminate).
  assert (Hv : 0 < speed r * dt) by (apply Rmult_lt_0_compat; assumption).
  pose proof (distance_to_nonneg (position r) s) as Hd.
  set (r0 := set_target_position r (Some s)).
  destruct (busy_travel (charging_stations fm) dt (arrival_bound r s dt)
              r0 s)
    as (k1 & ra & Hk1 & B1 & As & At & _ & _ & _ & Am & Ad & Ab);
    [right; right; exact Hs | reflexivity | exact Hv
    | apply (arrival_bound_covers r s dt); exact Hv | exact Hb |].
  cbn in As, Am, Ab. rewrite Hs in As.
  destruct (busy_charge (charging_stations fm) dt
              (charge_bound (max_battery r)
                 (battery_level r - 0.1 * distance_to (position r) s) dt)
              ra s)
    as (k2 & r' & Hk2 & B2 & Cs & Cp & Ct & Cb & _).
  - exact As.
  - exact At.
  - exact Ad.
  - rewrite Am. lra.
  - exact Hdt.
  - rewrite Am.
    pose proof (charge_bound_covers (max_battery r)
                  (battery_level r - 0.1 * distance_to (position r) s)
                  dt Hdt).
    lra.
  - rewrite Am in Cb.
    pose proof (busy_steps_trans _ _ _ _ _ _ _ B1 B2) as B.
    assert (B' : busy_steps (charging_stations fm) dt (k1 + k2) r r').
    { destruct (k1 + k2)%nat as [| j] eqn:Ej; [lia |].
      apply (busy_steps_first _ _ _ r0); [| rewrite Hs; discriminate | exact B].
      apply update_robot_picks_station; assumption. }
    destruct (run_follows_busy_robot _ dt r r' fm i B' Hst Hn)
      as (fm' & E & Hn').
    exists (k1 + k2)%nat, fm', r'.
    split; [lia |]. repeat split; first [assumption | lra].
Qed.


(** ** The dashboard's logged series *)

Lemma update_fleet_efficiency_bounds (fm fm' : AMRFleetManager) (dt : R) :
  AMRFleetManager.update_fleet fm dt = Some fm' ->
  0 <= fleet_efficiency fm' <= 100.
Proof.
  intros E. destruct (update_fleet_metrics_eq _ _ _ E) as [_ Hf].
  pose proof (active_robots_length (robots fm')) as Hl.
  destruct (robots fm') as [| r0 rs] eqn:Er.
  - rewrite Hf. lra.
  - set (n := length (r0 :: rs)) in *.
    set (a := length (active_robots (r0 :: rs))) in *.
    assert (Hn : 0 < INR n) by (apply lt_0_INR; unfold n; cbn; lia).
    assert (Ha : 0 <= INR a <= INR n)
      by (split; [apply pos_INR | apply le_INR; exact Hl]).
    assert (Hq : fleet_efficiency fm' * INR n = 100 * INR a)
      by (rewrite Hf; field; lra).
    split; nra.
Qed.

Lemma logged_time_late (a len : nat) :
  (100 <= a)%nat -> map logged_time (seq a len) = repeat 10 len.
Proof.
  revert a. induction len as [| len IH]; intros a Ha; cbn [seq map repeat];
    [reflexivity |].
  rewrite IH by lia. f_equal. unfold logged_time.
  replace (Nat.min a 100) with 100%nat by lia.
  rewrite INR_IZR_INZ. cbn. lra.
Qed.

Lemma update_dashboard_unfold (db : AMRDashboard) (frame : Z) (d : TaskDraws)
    (db' : AMRDashboard) :
  AMRDashboard.update_dashboard db frame d = Some db' ->
  exists fm1 td ed,
    AMRFleetManager.update_fleet (fleet_manager db) 0.1 = Some fm1 /\
    (fleet_manager db' = fm1 \/
     fleet_manager db' =
       AMRFleetManager.add_task fm1
         (AMRFleetManager.generate_random_task fm1 d)) /\
    ((frame mod 100 = 0)%Z ->
     fleet_manager db' =
       AMRFleetManager.add_task fm1
         (AMRFleetManager.generate_random_task fm1 d)) /\
    ((frame mod 100 <> 0)%Z -> fleet_manager db' = fm1) /\
    td = time_data db ++ [INR (length (time_data db)) * 0.1] /\
    ed = efficiency_data db ++ [fleet_efficiency fm1] /\
    ((length td <= 100)%nat ->
     time_data db' = td /\ efficiency_data db' = ed) /\
    ((100 < length td)%nat ->
     AMRDashboard.pop0 td = Some (time_data db') /\
     AMRDashboard.pop0 ed = Some (efficiency_data db')).
Proof.
  unfold AMRDashboard.update_dashboard.
  destruct (AMRFleetManager.update_fleet (fleet_manager db) 0.1)
    as [fm1 |] eqn:E; [| discriminate].
  set (td := time_data db ++ [INR (length (time_data db)) * 0.1]).
  set (ed := efficiency_data db ++ [fleet_efficiency fm1]).
  intros H. exists fm1, td, ed.
  split; [reflexivity |].
  destruct (100 <? length td)%nat eqn:El.
  - apply Nat.ltb_lt in El.
    destruct (AMRDashboard.pop0 td) as [t |] eqn:Et; [| discriminate].
    destruct (AMRDashboard.pop0 ed) as [e |] eqn:Ee; [| discriminate].
    destruct (frame mod 100 =? 0)%Z eqn:Ef; injection H as <-; cbn;
      [apply Z.eqb_eq in Ef | apply Z.eqb_neq in Ef];
      repeat split; auto; try lia; try congruence.
  - apply Nat.ltb_ge in El.
    destruct (frame mod 100 =? 0)%Z eqn:Ef; injection H as <-; cbn;
      [apply Z.eqb_eq in Ef | apply Z.eqb_neq in Ef];
      repeat split; auto; try lia; try congruence.
Qed.

Lemma update_dashboard_log (db db' : AMRDashboard) (frame : Z)
    (d : TaskDraws) (n : nat) :
  AMRDashboard.update_dashboard db frame d = Some db' ->
  time_data db
  = map logged_time (seq (n - Nat.min n 100) (Nat.min n 100)) ->
  length (efficiency_data db) = Nat.min n 100 ->
  Forall (fun e => 0 <= e <= 100) (efficiency_data db) ->
  time_data db'
  = map logged_time (seq (S n - Nat.min (S n) 100) (Nat.min (S n) 100))
  /\ length (efficiency_data db') = Nat.min (S n) 100
  /\ Forall (fun e => 0 <= e <= 100) (efficiency_data db').
Proof.
  intros E Ht Hl Hb.
  destruct (update_dashboard_unfold _ _ _ _ E)
    as [fm1 [td [ed [Eu [_ [_ [_ [Etd [Eed [Hshort Hlong]]]]]]]]]].
  pose proof (update_fleet_efficiency_bounds _ _ _ Eu) as Hf.
  assert (Hlt : length (time_data db) = Nat.min n 100)
    by (rewrite Ht, length_map, length_seq; reflexivity).
  assert (Htd : td = map logged_time
                       (seq (n - Nat.min n 100) (S (Nat.min n 100)))).
  { rewrite Etd, Hlt, seq_S, map_app, <- Ht. cbn [map]. do 2 f_equal.
    unfold logged_time. do 2 f_equal. lia. }
  assert (Hed : Forall (fun e => 0 <= e <= 100) ed).
  { rewrite Eed. apply Forall_app. split; [exact Hb |].
    constructor; [exact Hf | constructor]. }
  assert (Hled : length ed = S (Nat.min n 100))
    by (rewrite Eed, length_app, Hl; cbn; lia).
  assert (Hltd : length td = S (Nat.min n 100))
    by (rewrite Htd, length_map, length_seq; reflexivity).
  destruct (Nat.lt_ge_cases n 100) as [Hn | Hn].
  - destruct Hshort as [-> ->]; [lia |].
    replace (Nat.min (S n) 100) with (S n) by lia.
    replace (S n - S n)%nat with (n - Nat.min n 100)%nat by lia.
    replace (S n) with (S (Nat.min n 100)) at 1 2 by lia.
    split; [exact Htd |]. split; [| exact Hed]. rewrite Hled. lia.
  - destruct Hlong as [Pt Pe]; [lia |].
    replace (Nat.min n 100) with 100%nat in * by lia.
    replace (Nat.min (S n) 100) with 100%nat by lia.
    rewrite Htd in Pt. cbn [seq map AMRDashboard.pop0] in Pt.
    injection Pt as Pt. rewrite <- Pt.
    replace (S n - 100)%nat with (S (n - 100)) by lia.
    split; [reflexivity |].
    destruct ed as [| e0 ed']; [discriminate |].
    cbn in Pe. injection Pe as <-. cbn in Hled.
    split; [lia |]. inversion Hed; assumption.
Qed.

Lemma dashboard_run_log (es : list DashboardEvent) :
  forall (db db' : AMRDashboard) (n : nat),
    dashboard_run db es = Some db' ->
    time_data db
    = map logged_time (seq (n - Nat.min n 100) (Nat.min n 100)) ->
    length (efficiency_data db) = Nat.min n 100 ->
    Forall (fun e => 0 <= e <= 100) (efficiency_data db) ->
    let m := (n + frames es)%nat in
    time_data db'
    = map logged_time (seq (m - Nat.min m 100) (Nat.min m 100))
    /\ length (efficiency_data db') = Nat.min m 100
    /\ Forall (fun e => 0 <= e <= 100) (efficiency_data db').
Proof.
  induction es as [| e es IH]; intros db db' n E Ht Hl Hb m.
  - cbn in E. injection E as <-. unfold m, frames. cbn.
    rewrite Nat.add_0_r. auto.
  - cbn [dashboard_run] in E.
    destruct (dashboard_step db e) as [db1 |] eqn:E1; [| discriminate].
    destruct e as [frame d | d | | val]; cbn in E1.
    + destruct (update_dashboard_log _ _ _ _ n E1 Ht Hl Hb) as [A [B C]].
      specialize (IH _ _ (S n) E A B C).
      unfold m, frames. cbn [filter length].
      replace (n + S _)%nat
        with (S n + length (filter
                 (fun e => match e with Frame _ _ => true | _ => false end)
                 es))%nat by lia.
      exact IH.
    + injection E1 as <-. exact (IH _ _ n E Ht Hl Hb).
    + injection E1 as <-. exact (IH _ _ n E Ht Hl Hb).
    + injection E1 as <-. exact (IH _ _ n E Ht Hl Hb).
Qed.

(** X14.  The two series that [update_dashboard] logs, started empty,
    hold after [n] frames the last [min n 100] points, one efficiency per
    time stamp, each efficiency between 0 and 100 (button clicks and
    slider moves in between change nothing of this).  The time stamp is
    computed from the length of the series, [len(time_data) * 0.1], and
    the series is cut to 100 points: the [k]-th frame logs
    [min k 100 * 0.1], so from the 100th frame on every new stamp is 10.0,
    and after 200 frames the whole time axis is the constant 10.0. *)
Theorem dashboard_log_window (db0 db : AMRDashboard)
    (es : list DashboardEvent) :
  time_data db0 = [] -> efficiency_data db0 = [] ->
  dashboard_run db0 es = Some db ->
  let n := frames es in
  time_data db
  = map logged_time (seq (n - Nat.min n 100) (Nat.min n 100))
  /\ length (time_data db) = Nat.min n 100
  /\ length (efficiency_data db) = length (time_data db)
  /\ Forall (fun e => 0 <= e <= 100) (efficiency_data db)
  /\ ((200 <= n)%nat -> time_data db = repeat 10 100).
Proof.
  intros Ht He E n.
  destruct (dashboard_run_log es db0 db 0 E) as [A [B C]].
  - rewrite Ht. reflexivity.
  - rewrite He. reflexivity.
  - rewrite He. constructor.
  - cbn [Nat.add] in A, B. fold n in A, B.
    assert (L : length (time_data db) = Nat.min n 100)
      by (rewrite A, length_map, length_seq; reflexivity).
    split; [exact A |]. split; [exact L |]. split; [congruence |].
    split; [exact C |].
    intros Hn. rewrite A.
    replace (Nat.min n 100) with 100%nat by lia.
    apply logged_time_late. lia.
Qed.

(** ** What the dashboard keeps *)

Lemma advance_on_floor (p t : Position) (m : R) :
  on_floor p -> on_floor t ->
  0 <= m <= distance_to p t -> 0 < distance_to p t ->
  on_floor (advance p t m).
Proof.
  intros [[Hx1 Hx2] [Hy1 Hy2]] [[Tx1 Tx2] [Ty1 Ty2]] Hm Hd.
  unfold on_floor, advance. cbn [px py].
  set (d := distance_to p t) in *.
  set (l := m / d).
  assert (Hl : 0 <= l <= 1).
  { unfold l. split.
    - apply Rmult_le_pos; [lra |]. left. apply Rinv_0_lt_compat; exact Hd.
    - apply Rmult_le_reg_r with d; [exact Hd |].
      unfold Rdiv. rewrite Rmult_assoc, Rinv_l by lra. lra. }
  replace ((px t - px p) / d * m) with ((px t - px p) * l)
    by (unfold l; field; lra).
  replace ((py t - py p) / d * m) with ((py t - py p) * l)
    by (unfold l; field; lra).
  repeat split; nra.
Qed.

Lemma move_on_floor (r : Robot) (t : Position) (dt : R) :
  robot_on_floor r -> on_floor t -> 0 <= speed r * dt ->
  robot_on_floor (fst (Robot.move_towards_target r t dt))
  /\ target_position (fst (Robot.move_towards_target r t dt))
     = target_position r
  /\ current_task (fst (Robot.move_towards_target r t dt))
     = current_task r.
Proof.
  intros [Hp [Ht Hc]] Hf Hs.
  destruct (move_cases r t dt) as [[_ E] | [[_ [_ E]] | [_ [Hd E]]]];
    rewrite E; cbn [fst]; (split; [| split; reflexivity]).
  - split; [exact Hp | split; [exact Ht | exact Hc]].
  - split; [exact Hf | split; [exact Ht | exact Hc]].
  - split; [| split; [exact Ht | exact Hc]]. cbn.
    apply advance_on_floor; try assumption; [| lra].
    split; [apply Rmin_glb; lra | apply Rmin_r].
Qed.

Lemma complete_on_floor (r : Robot) :
  robot_on_floor r -> robot_on_floor (Robot.complete_current_task r).
Proof.
  intros [Hp [Ht Hc]]. unfold Robot.complete_current_task.
  destruct (current_task r) eqn:Ec.
  - split; [exact Hp |]. split; cbn; intros ? ?; discriminate.
  - split; [exact Hp | split; [exact Ht |]].
    intros t Et. rewrite Ec in Et. discriminate.
Qed.

Lemma charging_step_on_floor (r : Robot) (tg : Position) (dt : R) :
  robot_on_floor r -> on_floor tg -> 0 <= speed r * dt ->
  robot_on_floor (AMRFleetManager.charging_step r tg dt).
Proof.
  intros Hr Hf Hs. unfold AMRFleetManager.charging_step.
  destruct (move_on_floor r tg dt Hr Hf Hs) as [[Hp [Ht Hc]] _].
  destruct (Robot.move_towards_target r tg dt) as [r1 arrived];
    cbn [fst] in *.
  destruct arrived; [| split; [exact Hp | split; [exact Ht | exact Hc]]].
  cbv zeta. destruct (Rleb _ _).
  - split; [exact Hp |]. split; [cbn; intros ? ?; discriminate | exact Hc].
  - split; [exact Hp | split; [exact Ht | exact Hc]].
Qed.

Lemma py_min_by_In {A : Type} (key : A -> R) (l : list A) (x : A) :
  py_min_by key l = Some x -> In x l.
Proof.
  intros E. destruct (py_min_by_first_least key l x E) as [l1 [l2 [-> _]]].
  apply in_elt.
Qed.

Lemma update_robot_on_floor (stations : list Position) (dt : R)
    (r r' : Robot) :
  Forall on_floor stations -> robot_on_floor r -> 0 <= speed r * dt ->
  AMRFleetManager.update_robot stations dt r = Some r' ->
  robot_on_floor r'.
Proof.
  intros Hst Hr Hs. unfold AMRFleetManager.update_robot.
  destruct (status r) eqn:Es; destruct (target_position r) as [tg |] eqn:Et;
    try (intros E; injection E as <-; exact Hr).
  - (* MOVING *)
    assert (Hf : on_floor tg) by (apply (proj1 (proj2 Hr)); exact Et).
    destruct (move_on_floor r tg dt Hr Hf Hs) as [H1 [_ Ec1]].
    destruct (Robot.move_towards_target r tg dt) as [r1 arrived];
      cbn [fst] in *.
    destruct arrived; [| intros E; injection E as <-; exact H1].
    destruct (current_task r1) as [task |] eqn:Ec.
    + pose proof (proj2 (proj2 H1) task Ec) as Htask.
      destruct (Position_eq_dec tg (start_pos task));
        intros E; injection E as <-.
      * destruct H1 as [Hp [Ht Hc]]. split; [exact Hp |]. split.
        -- cbn. intros p Ep. injection Ep as <-. apply Htask.
        -- exact Hc.
      * apply complete_on_floor. exact H1.
    + intros E; injection E as <-. exact H1.
  - (* WORKING *)
    assert (Hf : on_floor tg) by (apply (proj1 (proj2 Hr)); exact Et).
    destruct (move_on_floor r tg dt Hr Hf Hs) as [H1 _].
    destruct (Robot.move_towards_target r tg dt) as [r1 arrived];
      cbn [fst] in *.
    destruct arrived; intros E; injection E as <-;
      [apply complete_on_floor; exact H1 | exact H1].
  - (* CHARGING, target set *)
    intros E; injection E as <-.
    apply charging_step_on_floor; try assumption.
    apply (proj1 (proj2 Hr)); exact Et.
  - (* CHARGING, no target *)
    destruct (py_min_by _ stations) as [tg |] eqn:Em; [| discriminate].
    intros E; injection E as <-.
    assert (Hf : on_floor tg).
    { apply py_min_by_In in Em. rewrite Forall_forall in Hst.
      apply Hst; exact Em. }
    apply charging_step_on_floor; [| exact Hf | exact Hs].
    destruct Hr as [Hp [Ht Hc]].
    split; [exact Hp |]. split; [| exact Hc].
    cbn. intros p Ep. injection Ep as <-. exact Hf.
Qed.

Lemma assign_task_on_floor (r : Robot) (t : Task) :
  robot_on_floor r -> task_on_floor t ->
  robot_on_floor (Robot.assign_task r t).
Proof.
  intros [Hp _] Ht. split; [exact Hp |]. split; cbn.
  - intros p Ep. injection Ep as <-. apply Ht.
  - intros t' Et. injection Et as <-. exact Ht.
Qed.

Lemma update_robot_dashboard_ok (stations : list Position) (dt : R)
    (r r' : Robot) :
  dashboard_robot_ok r -> 0 <= dt ->
  AMRFleetManager.update_robot stations dt r = Some r' ->
  dashboard_robot_ok r'.
Proof.
  intros [Hb [Hm Hs]] Hdt E.
  assert (Hwf : robot_wf r)
    by (split; [unfold battery_ok; rewrite Hm; exact Hb | lra]).
  destruct (update_robot_wf _ _ _ _ Hwf Hdt E) as [Hb' _].
  destruct (update_robot_identity _ _ _ _ E) as [_ [Em [Esp _]]].
  unfold battery_ok in Hb'. rewrite Em, Hm in Hb'.
  split; [exact Hb' |]. split; [congruence |]. rewrite Esp. exact Hs.
Qed.

Lemma map_option_map {A B C : Type} (f : A -> option B) (g : A -> C)
    (h : B -> C) (l : list A) (l' : list B) :
  (forall x y, f x = Some y -> h y = g x) ->
  map_option f l = Some l' -> map h l' = map g l.
Proof.
  intros Hf. revert l'. induction l as [| x xs IH]; intros l' E; cbn in E.
  - injection E as <-. reflexivity.
  - destruct (f x) as [y |] eqn:Ey; [| discriminate].
    destruct (map_option f xs) as [ys |]; [| discriminate].
    injection E as <-. cbn. rewrite (Hf _ _ Ey), (IH ys); reflexivity.
Qed.

Lemma map_update_nth {A B : Type} (g : A -> B) (f : A -> A) (i : nat)
    (l : list A) :
  (forall x, g (f x) = g x) -> map g (update_nth i f l) = map g l.
Proof.
  intros Hf. revert i. induction l as [| x xs IH]; intros [| i]; cbn;
    try reflexivity.
  - rewrite Hf. reflexivity.
  - rewrite IH. reflexivity.
Qed.

Lemma assign_step_grid (fm : AMRFleetManager) :
  grid_width (snd (AMRFleetManager.assign_step fm)) = grid_width fm /\
  grid_height (snd (AMRFleetManager.assign_step fm)) = grid_height fm.
Proof.
  unfold AMRFleetManager.assign_step.
  destruct (TaskScheduler.assign_optimal_robot _ _) as [[[i t] |] s];
    split; reflexivity.
Qed.

Lemma update_fleet_grid (fm fm' : AMRFleetManager) (dt : R) :
  AMRFleetManager.update_fleet fm dt = Some fm' ->
  grid_width fm' = grid_width fm /\ grid_height fm' = grid_height fm.
Proof.
  unfold AMRFleetManager.update_fleet.
  destruct (map_option _ _); [| discriminate].
  intros E; injection E as <-. cbn. apply assign_step_grid.
Qed.

Lemma assign_step_pending (fm : AMRFleetManager) :
  (fst (AMRFleetManager.assign_step fm) = None /\
   robots (snd (AMRFleetManager.assign_step fm)) = robots fm /\
   pending_tasks (task_scheduler (snd (AMRFleetManager.assign_step fm)))
   = pending_tasks (task_scheduler fm))
  \/ exists i t,
       fst (AMRFleetManager.assign_step fm) = Some (i, t) /\
       In t (pending_tasks (task_scheduler fm)) /\
       robots (snd (AMRFleetManager.assign_step fm))
       = update_nth i (fun r => Robot.assign_task r t) (robots fm) /\
       pending_tasks (task_scheduler (snd (AMRFleetManager.assign_step fm)))
       = list_remove t (pending_tasks (task_scheduler fm)).
Proof.
  rewrite assign_step_unfold.
  destruct (assign_optimal_robot_pending (task_scheduler fm) (robots fm))
    as [[E1 E2] | [i [t [E1 [Hin E2]]]]]; rewrite E1.
  - left. cbn. rewrite E2. auto.
  - right. exists i, t. cbn. auto.
Qed.

Lemma stations_on_floor :
  Forall on_floor [mkPosition 5 5; mkPosition 45 5; mkPosition 25 25].
Proof. repeat constructor; cbn; lra. Qed.

Lemma update_fleet_dashboard_ok (fm fm' : AMRFleetManager) :
  dashboard_ok fm ->
  AMRFleetManager.update_fleet fm 0.1 = Some fm' -> dashboard_ok fm'.
Proof.
  intros [Hst [Hw [Hh [Hid [Hok [Hfl Hpe]]]]]] E.
  pose proof (update_fleet_stations _ _ _ E) as Est.
  destruct (update_fleet_grid _ _ _ E) as [Ew Eh].
  pose proof (update_fleet_scheduler _ _ _ E) as Esc.
  split; [congruence |]. split; [congruence |]. split; [congruence |].
  assert (Hpe' : Forall task_on_floor (pending_tasks (task_scheduler fm'))).
  { rewrite Esc.
    destruct (assign_step_pending fm)
      as [[_ [_ ->]] | [i [t [_ [_ [_ ->]]]]]]; [exact Hpe |].
    rewrite Forall_forall in *. intros x Hx. apply Hpe.
    eapply list_remove_In; exact Hx. }
  revert E. unfold AMRFleetManager.update_fleet.
  destruct (map_option _ _) as [rs |] eqn:Em; [| discriminate].
  intros E; injection E as <-. cbn [robots set_robots
    AMRFleetManager.update_metrics set_metrics].
  rewrite assign_step_stations, Hst in Em.
  assert (Hrs : map robot_id
                  (robots (snd (AMRFleetManager.assign_step fm)))
                = map robot_id (robots fm)
                /\ Forall dashboard_robot_ok
                     (robots (snd (AMRFleetManager.assign_step fm)))
                /\ Forall robot_on_floor
                     (robots (snd (AMRFleetManager.assign_step fm)))).
  { destruct (assign_step_pending fm)
      as [[_ [-> _]] | [i [t [_ [Hin [-> _]]]]]]; [auto |].
    split; [apply map_update_nth; reflexivity |].
    split; apply update_nth_Forall; try assumption.
    - intros x Hx. exact Hx.
    - intros x Hx. apply assign_task_on_floor; [exact Hx |].
      rewrite Forall_forall in Hpe. apply Hpe; exact Hin. }
  destruct Hrs as [Hid1 [Hok1 Hfl1]].
  split; [| split; [| split; [| exact Hpe']]].
  - rewrite <- Hid, <- Hid1.
    eapply map_option_map; [| exact Em].
    intros x y Hxy. apply (update_robot_identity _ _ _ _ Hxy).
  - eapply (map_option_Forall dashboard_robot_ok dashboard_robot_ok);
      [| exact Hok1 | exact Em].
    intros x y Hx Hxy. eapply update_robot_dashboard_ok; eauto. lra.
  - assert (Hboth : Forall (fun r => dashboard_robot_ok r /\ robot_on_floor r)
                      (robots (snd (AMRFleetManager.assign_step fm)))).
    { rewrite Forall_forall in *. intros x Hx. split; auto. }
    eapply (map_option_Forall
              (fun r => dashboard_robot_ok r /\ robot_on_floor r)
              robot_on_floor); [| exact Hboth | exact Em].
    intros x y [[_ [_ Hsx]] Hx] Hxy.
    eapply update_robot_on_floor; [exact stations_on_floor | exact Hx | |
                                   exact Hxy].
    nra.
Qed.

Lemma valid_draws_on_floor (fm : AMRFleetManager) (d : TaskDraws) :
  grid_width fm = 50%Z -> grid_height fm = 30%Z -> valid_draws fm d ->
  task_on_floor (AMRFleetManager.generate_random_task fm d).
Proof.
  intros Hw Hh [A [B [C [D _]]]]. rewrite Hw in A, C. rewrite Hh in B, D.
  unfold uniform_between in *. cbn in A, B, C, D.
  unfold task_on_floor, on_floor. cbn. lra.
Qed.

Lemma add_task_dashboard_ok (fm : AMRFleetManager) (t : Task) :
  dashboard_ok fm -> task_on_floor t ->
  dashboard_ok (AMRFleetManager.add_task fm t).
Proof.
  intros [Hst [Hw [Hh [Hid [Hok [Hfl Hpe]]]]]] Ht.
  repeat (split; [assumption |]).
  cbn. eapply Permutation_Forall; [apply sort_by_priority_desc_perm |].
  apply Forall_app. split; [exact Hpe | constructor; [exact Ht | constructor]].
Qed.

Lemma emergency_stop_dashboard_ok (fm : AMRFleetManager) :
  dashboard_ok fm -> dashboard_ok (AMRControlPanel.emergency_stop fm).
Proof.
  intros [Hst [Hw [Hh [Hid [Hok [Hfl Hpe]]]]]].
  split; [exact Hst |]. split; [exact Hw |]. split; [exact Hh |].
  unfold AMRControlPanel.emergency_stop. cbn [robots set_robots].
  split; [| split; [| split; [| exact Hpe]]].
  - rewrite map_map. exact Hid.
  - rewrite Forall_map. exact Hok.
  - rewrite Forall_map. rewrite Forall_forall in *. intros x Hx.
    destruct (Hfl x Hx) as [Hp _].
    split; [exact Hp |]. split; cbn; intros ? ?; discriminate.
Qed.

Lemma update_speed_dashboard_ok (db : AMRDashboard) (val : R) :
  dashboard_ok (fleet_manager db) -> 0.1 <= val <= 3 ->
  dashboard_ok (fleet_manager (AMRDashboard.update_speed db val)).
Proof.
  intros [Hst [Hw [Hh [Hid [Hok [Hfl Hpe]]]]]] Hv.
  split; [exact Hst |]. split; [exact Hw |]. split; [exact Hh |].
  unfold AMRDashboard.update_speed. cbn [robots set_robots fleet_manager
    AMRDashboard.set_fleet_manager].
  split; [| split; [| split; [| exact Hpe]]].
  - rewrite map_map. exact Hid.
  - rewrite Forall_map. rewrite Forall_forall in *. intros x Hx.
    destruct (Hok x Hx) as [Hb [Hm _]].
    split; [exact Hb |]. split; [exact Hm |]. cbn. lra.
  - rewrite Forall_map. exact Hfl.
Qed.

Lemma add_random_tasks_dashboard_ok (draws : nat -> TaskDraws)
    (ks : list nat) :
  forall fm,
    dashboard_ok fm -> (forall k, valid_draws fm (draws k)) ->
    dashboard_ok
      (fold_left
         (fun fm k =>
            AMRFleetManager.add_task fm
              (AMRFleetManager.generate_random_task fm (draws k)))
         ks fm).
Proof.
  induction ks as [| k ks IH]; intros fm Hok Hd; cbn [fold_left];
    [exact Hok |].
  apply IH.
  - apply add_task_dashboard_ok; [exact Hok |].
    apply valid_draws_on_floor; [apply Hok | apply Hok | apply Hd].
  - intros k'. exact (Hd k').
Qed.

Lemma init_dashboard_ok (now : nat -> Z) (draws : nat -> TaskDraws) :
  (forall k, valid_draws (AMRFleetManager.init 50 30) (draws k)) ->
  dashboard_ok (fleet_manager (AMRDashboard.init now draws)).
Proof.
  intros Hd. unfold AMRDashboard.init, AMRDashboard.setup_fleet.
  cbn [fleet_manager].
  apply add_random_tasks_dashboard_ok; [| exact Hd].
  split; [reflexivity |]. split; [reflexivity |]. split; [reflexivity |].
  split; [reflexivity |].
  split; [| split].
  - repeat (apply Forall_cons; [unfold dashboard_robot_ok; cbn; lra |]).
    apply Forall_nil.
  - repeat (apply Forall_cons;
            [split; [unfold on_floor; cbn; lra
                    | split; cbn; intros ? ?; discriminate] |]).
    apply Forall_nil.
  - apply Forall_nil.
Qed.

Lemma update_dashboard_total (db : AMRDashboard) (frame : Z)
    (d : TaskDraws) :
  charging_stations (fleet_manager db) <> [] ->
  exists db', AMRDashboard.update_dashboard db frame d = Some db'.
Proof.
  intros Hs. unfold AMRDashboard.update_dashboard.
  destruct (update_fleet_total (fleet_manager db) 0.1 Hs) as [fm1 ->].
  destruct (time_data db) as [| t0 ts]; destruct (efficiency_data db);
    cbn [app AMRDashboard.pop0];
    destruct (100 <? _)%nat; destruct (frame mod 100 =? 0)%Z; eauto.
Qed.

Lemma dashboard_ok_reachable (db : AMRDashboard) :
  dashboard_reachable db -> dashboard_ok (fleet_manager db).
Proof.
  induction 1 as [now draws Hd | db e db' Hr IH He Es].
  - apply init_dashboard_ok; exact Hd.
  - destruct e as [frame d | d | | val]; cbn in He, Es.
    + destruct (update_dashboard_unfold _ _ _ _ Es)
        as [fm1 [td [ed [Eu [[-> | ->] _]]]]].
      * eapply update_fleet_dashboard_ok; eauto.
      * pose proof (update_fleet_dashboard_ok _ _ IH Eu) as H1.
        apply add_task_dashboard_ok; [exact H1 |].
        destruct (update_fleet_grid _ _ _ Eu) as [Ew Eh].
        apply valid_draws_on_floor; try apply H1.
        unfold valid_draws in *. rewrite Ew, Eh. exact He.
    + injection Es as <-. cbn.
      apply add_task_dashboard_ok; [exact IH |].
      apply valid_draws_on_floor; try apply IH. exact He.
    + injection Es as <-. cbn. apply emergency_stop_dashboard_ok; exact IH.
    + injection Es as <-. apply update_speed_dashboard_ok; assumption.
Qed.

Lemma dashboard_step_stations (db db' : AMRDashboard) (e : DashboardEvent) :
  dashboard_step db e = Some db' ->
  charging_stations (fleet_manager db')
  = charging_stations (fleet_manager db).
Proof.
  destruct e as [frame d | d | | val]; cbn;
    try (intros E; injection E as <-; reflexivity).
  intros E.
  destruct (update_dashboard_unfold _ _ _ _ E)
    as [fm1 [td [ed [Eu [[-> | ->] _]]]]]; cbn;
    apply (update_fleet_stations _ _ _ Eu).
Qed.

Lemma dashboard_run_total (es : list DashboardEvent) :
  forall db,
    charging_stations (fleet_manager db) <> [] ->
    exists db', dashboard_run db es = Some db'.
Proof.
  induction es as [| e es IH]; intros db Hs; cbn [dashboard_run]; [eauto |].
  assert (T : exists db1, dashboard_step db e = Some db1).
  { destruct e as [frame d | d | | val]; cbn; eauto.
    apply update_dashboard_total; exact Hs. }
  destruct T as [db1 E1]. rewrite E1. apply IH.
  rewrite (dashboard_step_stations _ _ _ E1). exact Hs.
Qed.

Lemma sample_draws_valid (fm : AMRFleetManager) :
  grid_width fm = 50%Z -> grid_height fm = 30%Z ->
  valid_draws fm sample_draws.
Proof.
  intros Hw Hh. unfold valid_draws, uniform_between. rewrite Hw, Hh.
  cbn. repeat split; first [lia | left; lra].
Qed.

Lemma sample_dashboard_reachable : dashboard_reachable sample_dashboard.
Proof.
  apply dash_init. intros k. apply sample_draws_valid; reflexivity.
Qed.

Lemma dashboard_log_window_witness :
  exists db,
    dashboard_run sample_dashboard
      [Frame 0 sample_draws; ClickEmergencyStop; Frame 1 sample_draws]
    = Some db
    /\ time_data db = [logged_time 0; logged_time 1]
    /\ length (efficiency_data db) = 2%nat.
Proof.
  destruct (dashboard_run_total
              [Frame 0 sample_draws; ClickEmergencyStop; Frame 1 sample_draws]
              sample_dashboard) as [db E]; [discriminate |].
  destruct (dashboard_log_window sample_dashboard db _ eq_refl eq_refl E)
    as (A & B & C & _).
  exists db. split; [exact E |]. split; [exact A |].
  rewrite C, B. reflexivity.
Defined.

(** X15.  In every state of the dashboard no sequence of frames, clicks
    and slider moves raises: the station list on which [min] is taken is
    never empty, the series popped are never empty.  The fleet is the six
    robots AMR-01 to AMR-06 of [setup_fleet], each with battery between 0
    and its capacity 100 and with speed between 0.2 and 6 (twice the
    slider's limits, 2 until the slider is moved). *)
Theorem dashboard_never_raises (db : AMRDashboard)
    (es : list DashboardEvent) :
  dashboard_reachable db ->
  (exists db', dashboard_run db es = Some db')
  /\ map robot_id (robots (fleet_manager db))
     = ["AMR-01"; "AMR-02"; "AMR-03"; "AMR-04"; "AMR-05"; "AMR-06"]%string
  /\ Forall (fun r => 0 <= battery_level r <= 100 /\ max_battery r = 100
                      /\ 0.2 <= speed r <= 6)
            (robots (fleet_manager db)).
Proof.
  intros Hr.
  destruct (dashboard_ok_reachable db Hr) as [Hst [_ [_ [Hid [Hok _]]]]].
  split; [| split; [exact Hid | exact Hok]].
  apply dashboard_run_total. rewrite Hst. discriminate.
Qed.

Lemma dashboard_never_raises_witness :
  exists db,
    dashboard_run sample_dashboard
      [SlideSpeed 3; Frame 0 sample_draws; ClickAddTask sample_draws]
    = Some db
    /\ length (robots (fleet_manager sample_dashboard)) = 6%nat.
Proof.
  destruct (dashboard_never_raises sample_dashboard
              [SlideSpeed 3; Frame 0 sample_draws; ClickAddTask sample_draws]
              sample_dashboard_reachable) as [[db E] [Hid _]].
  exists db. split; [exact E |].
  rewrite <- (length_map robot_id), Hid. reflexivity.
Defined.

(** X16.  On the dashboard nothing leaves the floor: in every state each
    robot's position, its target and the two ends of its task lie in
    [2,48] x [2,28], the part of the 50 x 30 grid in which tasks are
    drawn, and so do the two ends of every pending task. *)
Theorem robots_stay_on_floor (db : AMRDashboard) :
  dashboard_reachable db ->
  Forall (fun r =>
            on_floor (position r)
            /\ (forall p, target_position r = Some p -> on_floor p)
            /\ (forall t, current_task r = Some t ->
                  on_floor (start_pos t) /\ on_floor (end_pos t)))
         (robots (fleet_manager db))
  /\ Forall (fun t => on_floor (start_pos t) /\ on_floor (end_pos t))
            (pending_tasks (task_scheduler (fleet_manager db))).
Proof.
  intros Hr.
  destruct (dashboard_ok_reachable db Hr) as [_ [_ [_ [_ [_ [Hfl Hpe]]]]]].
  split; [exact Hfl | exact Hpe].
Qed.

Lemma frame_reachable (db db' : AMRDashboard) (frame : Z) (d : TaskDraws) :
  dashboard_reachable db -> valid_draws (fleet_manager db) d ->
  dashboard_run db [Frame frame d] = Some db' -> dashboard_reachable db'.
Proof.
  intros Hr Hv E. cbn [dashboard_run] in E.
  destruct (dashboard_step db (Frame frame d)) as [db1 |] eqn:E1;
    [| discriminate].
  injection E as <-.
  exact (dash_step db (Frame frame d) db1 Hr Hv E1).
Qed.

Lemma robots_stay_on_floor_witness :
  exists db,
    dashboard_run sample_dashboard [Frame 0 sample_draws] = Some db
    /\ Forall (fun r => on_floor (position r)) (robots (fleet_manager db)).
Proof.
  destruct (dashboard_run_total [Frame 0 sample_draws] sample_dashboard)
    as [db E]; [discriminate |].
  assert (Hv : valid_draws (fleet_manager sample_dashboard) sample_draws)
    by (apply sample_draws_valid; reflexivity).
  pose proof (frame_reachable _ _ _ _ sample_dashboard_reachable Hv E) as Hr.
  destruct (robots_stay_on_floor db Hr) as [Hfl _].
  exists db. split; [exact E |].
  eapply Forall_impl; [| exact Hfl]. intros x Hx. exact (proj1 Hx).
Defined.

(** ** The status report *)

Lemma py_round_near (x : R) : Rabs (IZR (py_round x) - x) <= 1 / 2.
Proof.
  unfold py_round. destruct (archimed x) as [U1 U2].
  set (f := (up x - 1)%Z).
  assert (Hf : IZR f = IZR (up x) - 1) by (unfold f; rewrite minus_IZR; lra).
  rcase; try destruct (Z.even f); rewrite ?plus_IZR;
    apply Rabs_le; lra.
Qed.

Lemma py_round_range (a b : Z) (x : R) :
  IZR a <= x <= IZR b -> (a <= py_round x <= b)%Z.
Proof.
  intros [Ha Hb]. unfold py_round. destruct (archimed x) as [U1 U2].
  set (f := (up x - 1)%Z).
  assert (Hf : IZR f = IZR (up x) - 1) by (unfold f; rewrite minus_IZR; lra).
  assert (Haf : (a <= f)%Z).
  { apply Z.lt_succ_r. apply lt_IZR. rewrite succ_IZR. lra. }
  assert (Hfb : (f <= b)%Z) by (apply le_IZR; lra).
  assert (Hstrict : IZR f < x -> (f + 1 <= b)%Z).
  { intros H. assert (f < b)%Z by (apply lt_IZR; lra). lia. }
  rcase; try destruct (Z.even f); try lia;
    (split; [lia | apply Hstrict; lra]).
Qed.

Lemma py_round2_range (x : R) :
  0 <= x <= 100 -> 0 <= py_round2 x <= 100.
Proof.
  intros Hx. unfold py_round2.
  destruct (py_round_range 0 10000 (x * 100)) as [H0 H1];
    [split; lra |].
  apply IZR_le in H0, H1. lra.
Qed.

Lemma py_round2_near (x : R) : Rabs (py_round2 x - x) <= 0.005.
Proof.
  unfold py_round2. pose proof (py_round_near (x * 100)) as H.
  revert H. unfold Rabs.
  destruct (Rcase_abs _); destruct (Rcase_abs _); lra.
Qed.

Lemma sum_range (lo hi : R) (l : list R) :
  Forall (fun x => lo <= x <= hi) l ->
  INR (length l) * lo <= fold_right Rplus 0 l <= INR (length l) * hi.
Proof.
  induction 1 as [| x l Hx _ IH]; [cbn; lra |].
  change (length (x :: l)) with (S (length l)). rewrite S_INR.
  cbn [fold_right]. lra.
Qed.

Lemma np_mean_range (lo hi : R) (l : list R) :
  l <> [] -> Forall (fun x => lo <= x <= hi) l ->
  lo <= np_mean l <= hi.
Proof.
  intros Hne Hl. pose proof (sum_range lo hi l Hl) as Hs.
  assert (Hn : 0 < INR (length l)).
  { apply lt_0_INR. destruct l; [contradiction | cbn; lia]. }
  unfold np_mean. split.
  - apply Rmult_le_reg_r with (INR (length l)); [exact Hn |].
    unfold Rdiv. rewrite Rmult_assoc, Rinv_l by lra. lra.
  - apply Rmult_le_reg_r with (INR (length l)); [exact Hn |].
    unfold Rdiv. rewrite Rmult_assoc, Rinv_l by lra. lra.
Qed.

Lemma status_counts_sum (rs : list Robot) :
  fold_right plus 0%nat
    (map (fun s =>
            length (filter
                      (fun r => if RobotStatus_eq_dec (status r) s
                                then true else false) rs))
         all_statuses)
  = length rs.
Proof.
  induction rs as [| r rs IH]; [reflexivity |].
  cbn [all_statuses map fold_right filter] in *.
  destruct (status r); cbn [RobotStatus_eq_dec RobotStatus_rec
    RobotStatus_rect sumbool_rec sumbool_rect length]; cbn in *; lia.
Qed.

(** X17.  [get_fleet_status] counts every robot once: the distribution has
    the five statuses as keys, in the order of the enumeration, and its
    counts add up to [total_robots], the length of the fleet.  The reported
    efficiency is the stored one within 0.005, and within [0,100] when the
    stored one is.  The average battery is 0 for a fleet without robots (no
    mean of an empty list is taken) and lies in [0,100] when every battery
    does. *)
Theorem get_fleet_status_consistent (fm : AMRFleetManager) :
  let st := AMRFleetManager.get_fleet_status fm in
  map fst (FleetStatus.status_distribution st)
  = ["idle"; "moving"; "working"; "charging"; "maintenance"]%string
  /\ fold_right plus 0%nat (map snd (FleetStatus.status_distribution st))
     = FleetStatus.total_robots st
  /\ FleetStatus.total_robots st = length (robots fm)
  /\ Rabs (FleetStatus.fleet_efficiency st - fleet_efficiency fm) <= 0.005
  /\ (0 <= fleet_efficiency fm <= 100 ->
      0 <= FleetStatus.fleet_efficiency st <= 100)
  /\ (robots fm = [] -> FleetStatus.average_battery st = 0)
  /\ (Forall (fun r => 0 <= battery_level r <= 100) (robots fm) ->
      0 <= FleetStatus.average_battery st <= 100).
Proof.
  cbv zeta. unfold AMRFleetManager.get_fleet_status.
  cbn [FleetStatus.status_distribution FleetStatus.total_robots
       FleetStatus.fleet_efficiency FleetStatus.average_battery].
  split; [reflexivity |].
  split.
  { rewrite map_map. cbn [snd]. unfold AMRFleetManager.count_status.
    apply status_counts_sum. }
  split; [reflexivity |].
  split; [apply py_round2_near |].
  split; [apply py_round2_range |].
  split; [intros ->; reflexivity |].
  intros Hb. destruct (robots fm) as [| r rs] eqn:Er; [lra |].
  apply py_round2_range. apply np_mean_range; [discriminate |].
  rewrite Forall_map. exact Hb.
Qed.

Lemma get_fleet_status_consistent_witness :
  FleetStatus.total_robots (AMRFleetManager.get_fleet_status station_fleet)
  = 1%nat
  /\ 0 <= FleetStatus.average_battery
            (AMRFleetManager.get_fleet_status station_fleet) <= 100.
Proof.
  destruct (get_fleet_status_consistent station_fleet)
    as (_ & _ & A & _ & _ & _ & B).
  split; [exact A |]. apply B.
  apply Forall_cons; [cbn; lra | apply Forall_nil].
Defined.


(** ** Idle robots with a low battery *)

Lemma update_fleet_idle_low (fm fm' : AMRFleetManager) (dt : R) (i : nat)
    (r : Robot) :
  AMRFleetManager.update_fleet fm dt = Some fm' ->
  nth_error (robots fm) i = Some r ->
  status r = IDLE -> battery_level r <= 20 ->
  nth_error (robots fm') i = Some r.
Proof.
  intros E Hi Hs Hb.
  destruct (update_fleet_nth _ _ _ _ _ E Hi) as (r1 & r' & Hr1 & Hu & Hi').
  destruct Hr1 as [-> | [t [[_ Hel] _]]]; [| lra].
  unfold AMRFleetManager.update_robot in Hu. rewrite Hs in Hu.
  destruct (target_position r); injection Hu as <-; exact Hi'.
Qed.

Lemma update_fleet_all_idle_low (fm fm' : AMRFleetManager) (dt : R) :
  Forall (fun r => status r = IDLE /\ battery_level r <= 20) (robots fm) ->
  AMRFleetManager.update_fleet fm dt = Some fm' ->
  robots fm' = robots fm
  /\ pending_tasks (task_scheduler fm') = pending_tasks (task_scheduler fm).
Proof.
  intros Hall E. split.
  - apply nth_error_ext. intros i.
    destruct (nth_error (robots fm) i) as [r |] eqn:Hi.
    + rewrite Forall_forall in Hall.
      destruct (Hall r (nth_error_In _ _ Hi)) as [Hs Hb].
      eapply update_fleet_idle_low; eauto.
    + apply nth_error_None. rewrite (update_fleet_length _ _ _ E).
      apply nth_error_None. exact Hi.
  - rewrite (update_fleet_scheduler _ _ _ E).
    destruct (assign_step_pending fm)
      as [[_ [_ ->]] | [i [t [Ha _]]]]; [reflexivity |].
    exfalso. rewrite assign_step_fst in Ha.
    destruct (assign_optimal_robot_some _ _ _ _ Ha)
      as (r0 & l1 & l2 & Hr0 & [_ He] & _).
    rewrite Forall_forall in Hall.
    destruct (Hall r0 (nth_error_In _ _ Hr0)) as [_ Hb]. lra.
Qed.

(** X19.  An idle robot whose battery is at 20 or below is stranded: ticks
    and new tasks never change it, since the scheduler passes it over and
    nothing but [charge_all] sends an idle robot to charge.  A fleet made
    of such robots stalls: its robots stay as they are and its pending
    queue only grows, by one for every task added. *)
Theorem idle_low_battery_robot_stranded
    (fm fm' : AMRFleetManager) (es : list Event) :
  Forall (fun e => e <> EmergencyStop /\ e <> ChargeAll) es ->
  run fm es = Some fm' ->
  (forall i r,
     nth_error (robots fm) i = Some r ->
     status r = IDLE -> battery_level r <= 20 ->
     nth_error (robots fm') i = Some r)
  /\ (Forall (fun r => status r = IDLE /\ battery_level r <= 20)
             (robots fm) ->
      robots fm' = robots fm
      /\ length (pending_tasks (task_scheduler fm'))
         = (length (pending_tasks (task_scheduler fm))
            + length (filter (fun e => match e with
                                       | AddTask _ => true
                                       | _ => false
                                       end) es))%nat).
Proof.
  intros Hes. revert fm. induction Hes as [| e es [He1 He2] _ IH];
    intros fm E; cbn [run] in E.
  - injection E as <-. split; [auto |]. intros _. cbn. split; [reflexivity | lia].
  - destruct (step fm e) as [fm1 |] eqn:E1; [| discriminate].
    destruct (IH fm1 E) as [IH1 IH2].
    destruct e as [dt | task | |]; cbn in E1; try contradiction.
    + (* Tick *)
      split.
      * intros i r Hi Hs Hb. apply IH1; try assumption.
        eapply update_fleet_idle_low; eauto.
      * intros Hall.
        destruct (update_fleet_all_idle_low _ _ _ Hall E1) as [Er Ep].
        rewrite <- Er in Hall. destruct (IH2 Hall) as [A B].
        split; [congruence |]. rewrite B, Ep. cbn [filter]. reflexivity.
    + (* AddTask *)
      injection E1 as <-. split.
      * intros i r Hi Hs Hb. apply IH1; assumption.
      * intros Hall. destruct (IH2 Hall) as [A B].
        split; [exact A |]. rewrite B. cbn [filter length].
        cbn [AMRFleetManager.add_task set_task_scheduler task_scheduler
             TaskScheduler.add_task pending_tasks].
        rewrite <- (Permutation_length (sort_by_priority_desc_perm _)).
        rewrite length_app. cbn. lia.
Qed.

Lemma idle_low_battery_robot_stranded_witness :
  exists fm',
    run (AMRFleetManager.add_robot (AMRFleetManager.init 50 30)
           (mkRobot "AMR-01" (mkPosition 10 10) IDLE 15 100 2 None [] 0 0 0
                    None))
        [AddTask nearby_task; Tick 0.1; Tick 0.1] = Some fm'
    /\ robots fm'
       = [mkRobot "AMR-01" (mkPosition 10 10) IDLE 15 100 2 None [] 0 0 0
                  None]
    /\ length (pending_tasks (task_scheduler fm')) = 1%nat.
Proof.
  set (fm := AMRFleetManager.add_robot (AMRFleetManager.init 50 30)
               (mkRobot "AMR-01" (mkPosition 10 10) IDLE 15 100 2 None [] 0 0
                        0 None)).
  set (es := [AddTask nearby_task; Tick 0.1; Tick 0.1]).
  destruct (run_total fm es) as [fm' E]; [discriminate |].
  assert (Hes : Forall (fun e => e <> EmergencyStop /\ e <> ChargeAll) es)
    by (repeat (apply Forall_cons; [split; discriminate |]);
        apply Forall_nil).
  destruct (idle_low_battery_robot_stranded fm fm' es Hes E) as [_ H].
  destruct H as [A B].
  { apply Forall_cons; [split; [reflexivity | cbn; lra] | apply Forall_nil]. }
  exists fm'. split; [exact E |]. split; [exact A | exact B].
Defined.

(** ** The battery reserve of the dashboard's robots *)

(** No two points of the floor are more than 53 apart. *)
Lemma distance_on_floor (p q : Position) :
  on_floor p -> on_floor q -> distance_to p q <= 53.
Proof.
  intros [[Hx1 Hx2] [Hy1 Hy2]] [[Qx1 Qx2] [Qy1 Qy2]].
  pose proof (distance_to_sqr p q) as S.
  pose proof (distance_to_nonneg p q) as H0.
  assert (Hx : (px p - px q) ^ 2 <= 2116) by nra.
  assert (Hy : (py p - py q) ^ 2 <= 676) by nra.
  nra.
Qed.

Lemma remaining_way_nonneg (r : Robot) : 0 <= remaining_way r.
Proof.
  unfold remaining_way.
  destruct (status r); destruct (current_task r) as [t |]; try lra.
  - pose proof (distance_to_nonneg (position r) (start_pos t)).
    pose proof (distance_to_nonneg (start_pos t) (end_pos t)). lra.
  - apply distance_to_nonneg.
Qed.

(** The robot loop keeps the discipline and the reserve: the battery pays
    a tenth of what the way loses. *)
Lemma update_robot_on_duty (stations : list Position) (dt : R)
    (r r' : Robot) :
  on_duty r -> battery_reserve r -> 0 <= speed r * dt ->
  AMRFleetManager.update_robot stations dt r = Some r' ->
  on_duty r' /\ battery_reserve r'.
Proof.
  unfold battery_reserve.
  intros Hd Hb Hs Hu. pose proof (remaining_way_nonneg r) as Hw.
  destruct Hd as [(Es & Ec & Et) | [(Es & t & Ec & Et) | (Es & t & Ec & Et)]].
  - (* IDLE *)
    unfold AMRFleetManager.update_robot in Hu. rewrite Es in Hu.
    cbn in Hu. injection Hu as <-. split; [left; auto | exact Hb].
  - (* MOVING *)
    unfold remaining_way in Hb, Hw. rewrite Es, Ec in Hb, Hw.
    pose proof (distance_to_nonneg (position r) (start_pos t)) as Hd1.
    pose proof (distance_to_nonneg (start_pos t) (end_pos t)) as Hd2.
    assert (Hb5 : 5 < battery_level r) by lra.
    destruct (Rlt_dec (distance_to (position r) (start_pos t)) 0.5)
      as [Hlt | Hge].
    + rewrite (update_robot_reaches_start stations dt r t Es Ec Et Hb5 Hlt)
        in Hu.
      injection Hu as <-. split.
      * right. right. split; [reflexivity |]. exists t.
        split; [exact Ec | reflexivity].
      * unfold remaining_way. cbn. rewrite Ec. lra.
    + assert (Hge' : 0.5 <= distance_to (position r) (start_pos t)) by lra.
      rewrite (update_robot_on_the_way stations dt r (start_pos t)
                 (or_introl Es) Et Hb5 Hge') in Hu.
      injection Hu as <-.
      set (m := Rmin (speed r * dt)
                  (distance_to (position r) (start_pos t))).
      assert (Hm : 0 <= m <= distance_to (position r) (start_pos t))
        by (split; [apply Rmin_glb; lra | apply Rmin_r]).
      split.
      * right. left. split; [exact Es |]. exists t.
        split; [exact Ec | exact Et].
      * unfold remaining_way. cbn. rewrite Es, Ec.
        rewrite advance_remaining by lra. fold m.
        pose proof (Rmax_r 0 (battery_level r - m * 0.1)). lra.
  - (* WORKING *)
    unfold remaining_way in Hb, Hw. rewrite Es, Ec in Hb, Hw.
    assert (Hb5 : 5 < battery_level r) by lra.
    destruct (Rlt_dec (distance_to (position r) (end_pos t)) 0.5)
      as [Hlt | Hge].
    + rewrite (update_robot_reaches_end stations dt r t (end_pos t)
                 Es Ec Et Hb5 Hlt) in Hu.
      injection Hu as <-. split.
      * left. cbn. auto.
      * unfold remaining_way. cbn. lra.
    + assert (Hge' : 0.5 <= distance_to (position r) (end_pos t)) by lra.
      rewrite (update_robot_on_the_way stations dt r (end_pos t)
                 (or_intror (or_introl Es)) Et Hb5 Hge') in Hu.
      injection Hu as <-.
      set (m := Rmin (speed r * dt)
                  (distance_to (position r) (end_pos t))).
      assert (Hm : 0 <= m <= distance_to (position r) (end_pos t))
        by (split; [apply Rmin_glb; lra | apply Rmin_r]).
      split.
      * right. right. split; [exact Es |]. exists t.
        split; [exact Ec | exact Et].
      * unfold remaining_way. cbn. rewrite Es, Ec.
        rewrite advance_remaining by lra. fold m.
        pose proof (Rmax_r 0 (battery_level r - m * 0.1)). lra.
Qed.

(** A robot that the scheduler may choose, given a task of the floor. *)
Lemma assign_task_on_duty (r : Robot) (t : Task) :
  on_floor (position r) -> task_on_floor t -> 20 < battery_level r ->
  on_duty (Robot.assign_task r t) /\ battery_reserve (Robot.assign_task r t).
Proof.
  intros Hp [Hs He] Hb. split.
  - right. left. split; [reflexivity |].
    exists (set_assigned_robot t (Some (robot_id r))).
    split; reflexivity.
  - unfold battery_reserve, remaining_way. cbn.
    pose proof (distance_on_floor _ _ Hp Hs).
    pose proof (distance_on_floor _ _ Hs He). lra.
Qed.

Lemma update_nth_Forall_at {A : Type} (P : A -> Prop) (f : A -> A)
    (i : nat) (l : list A) :
  (forall x, nth_error l i = Some x -> P (f x)) ->
  Forall P l -> Forall P (update_nth i f l).
Proof.
  revert i. induction l as [| x xs IH]; intros [| i] Hf Hl; cbn;
    try exact Hl; inversion Hl; subst; constructor; auto.
Qed.

Lemma update_fleet_on_duty (fm fm' : AMRFleetManager) :
  dashboard_ok fm ->
  Forall (fun r => on_duty r /\ battery_reserve r) (robots fm) ->
  AMRFleetManager.update_fleet fm 0.1 = Some fm' ->
  Forall (fun r => on_duty r /\ battery_reserve r) (robots fm').
Proof.
  intros [_ [_ [_ [_ [Hok [Hfl Hpe]]]]]] Hd.
  unfold AMRFleetManager.update_fleet.
  destruct (map_option _ _) as [rs |] eqn:Em; [| discriminate].
  intros E; injection E as <-. cbn [robots set_robots
    AMRFleetManager.update_metrics set_metrics].
  assert (H1 : Forall (fun r => (on_duty r /\ battery_reserve r)
                                /\ 0 <= speed r)
                 (robots (snd (AMRFleetManager.assign_step fm)))).
  { assert (H0 : Forall (fun r => (on_duty r /\ battery_reserve r)
                                  /\ 0 <= speed r) (robots fm)).
    { rewrite Forall_forall in *. intros x Hx. split; [auto |].
      destruct (Hok x Hx) as [_ [_ Hsp]]. lra. }
    destruct (assign_step_pending fm)
      as [[_ [-> _]] | [i [t [Ha [Hin [-> _]]]]]]; [exact H0 |].
    apply update_nth_Forall_at; [| exact H0].
    intros x Hx.
    rewrite assign_step_fst in Ha.
    destruct (assign_optimal_robot_some _ _ _ _ Ha)
      as (r0 & _ & _ & Hr0 & [_ Hb] & _).
    rewrite Hx in Hr0. injection Hr0 as <-.
    rewrite Forall_forall in Hfl, Hpe, Hok.
    pose proof (nth_error_In _ _ Hx) as Hxin.
    split.
    - apply assign_task_on_duty;
        [exact (proj1 (Hfl x Hxin)) | apply Hpe; exact Hin | exact Hb].
    - cbn. destruct (Hok x Hxin) as [_ [_ Hsp]]. lra. }
  eapply (map_option_Forall _ _ _ _ _ _ H1 Em).
  Unshelve.
  intros x y [[Hdx Hbx] Hsx] Hxy.
  eapply update_robot_on_duty; eauto. nra.
Qed.

Lemma dashboard_on_duty (db : AMRDashboard) :
  dashboard_reachable db ->
  Forall (fun r => on_duty r /\ battery_reserve r)
         (robots (fleet_manager db)).
Proof.
  induction 1 as [now draws Hd | db e db' Hr IH He Es].
  - unfold AMRDashboard.init, AMRDashboard.setup_fleet. cbn [fleet_manager].
    assert (G : forall ks fm,
               robots (fold_left
                         (fun fm k =>
                            AMRFleetManager.add_task fm
                              (AMRFleetManager.generate_random_task fm
                                 (draws k))) ks fm) = robots fm).
    { induction ks as [| k ks IHk]; intros fm; cbn [fold_left];
        [reflexivity | rewrite IHk; reflexivity]. }
    rewrite G.
    repeat (apply Forall_cons;
            [split; [left; cbn; auto
                    | unfold battery_reserve, remaining_way; cbn; lra] |]).
    apply Forall_nil.
  - pose proof (dashboard_ok_reachable db Hr) as Hok.
    destruct e as [frame d | d | | val]; cbn in He, Es.
    + destruct (update_dashboard_unfold _ _ _ _ Es)
        as [fm1 [td [ed [Eu [[-> | ->] _]]]]];
        cbn [robots AMRFleetManager.add_task set_task_scheduler];
        eapply update_fleet_on_duty; eauto.
    + injection Es as <-. exact IH.
    + injection Es as <-. cbn. apply Forall_map.
      rewrite Forall_forall in *. intros x Hx.
      destruct (IH x Hx) as [_ Hb]. split; [left; cbn; auto |].
      unfold battery_reserve in *. unfold remaining_way at 1. cbn.
      pose proof (remaining_way_nonneg x). lra.
    + injection Es as <-. cbn. apply Forall_map.
      rewrite Forall_forall in *. intros x Hx.
      destruct (IH x Hx) as [Hd Hb]. split; [exact Hd | exact Hb].
Qed.

(** ** Frames alone *)

(** A frame does to the robots what its tick does. *)
Lemma update_dashboard_robots (db db' : AMRDashboard) (frame : Z)
    (d : TaskDraws) :
  AMRDashboard.update_dashboard db frame d = Some db' ->
  exists fm1,
    AMRFleetManager.update_fleet (fleet_manager db) 0.1 = Some fm1 /\
    robots (fleet_manager db') = robots fm1 /\
    charging_stations (fleet_manager db')
    = charging_stations (fleet_manager db).
Proof.
  intros E.
  destruct (update_dashboard_unfold _ _ _ _ E)
    as [fm1 [td [ed [Eu [[-> | ->] _]]]]];
    exists fm1; (split; [exact Eu |]); (split; [reflexivity |]);
    cbn; apply (update_fleet_stations _ _ _ Eu).
Qed.

(** The dashboard's frames do to a busy robot what the robot loop does. *)
Lemma frames_follow_busy_robot (n : nat) (r r' : Robot) :
  forall (db : AMRDashboard) (i : nat) (es : list DashboardEvent),
    busy_steps (charging_stations (fleet_manager db)) 0.1 n r r' ->
    charging_stations (fleet_manager db) <> [] ->
    nth_error (robots (fleet_manager db)) i = Some r ->
    only_frames es -> length es = n ->
    exists db',
      dashboard_run db es = Some db' /\
      nth_error (robots (fleet_manager db')) i = Some r'.
Proof.
  intros db i es H.
  remember (charging_stations (fleet_manager db)) as st eqn:Est.
  revert db es Est. induction H as [r | n r r1 r' Hs Hu _ IH];
    intros db es Est Hne Hn Hes Hl.
  - destruct es; [| discriminate]. exists db. split; [reflexivity | exact Hn].
  - destruct es as [| e es]; [discriminate |].
    inversion Hes as [| e0 es0 He Hes']; subst e0 es0.
    destruct e as [frame d | | |]; try contradiction.
    subst st.
    destruct (update_dashboard_total db frame d Hne) as [db1 E].
    destruct (update_dashboard_robots _ _ _ _ E) as (fm1 & Eu & Er & Es).
    destruct (update_fleet_nth _ _ _ _ _ Eu Hn) as (ra & rb & Hra & Hub & Hnb).
    destruct Hra as [-> | (t & [Hi _] & _)]; [| contradiction].
    rewrite Hu in Hub. injection Hub as <-.
    destruct (IH db1 es) as (db' & Erun & Hn').
    + symmetry. exact Es.
    + exact Hne.
    + rewrite Er. exact Hnb.
    + exact Hes'.
    + cbn in Hl. lia.
    + exists db'. split; [| exact Hn'].
      cbn [dashboard_run dashboard_step]. rewrite E. exact Erun.
Qed.

(** From [WORKING] towards a target to [IDLE] on it, the task completed. *)
Lemma busy_delivery (stations : list Position) (dt : R) (r : Robot)
    (task : Task) (tg : Position) :
  status r = WORKING -> current_task r = Some task ->
  target_position r = Some tg ->
  0 < dt -> 0 < speed r ->
  5 + 0.1 * distance_to (position r) tg < battery_level r ->
  exists n r',
    (n <= arrival_bound r tg dt + 1)%nat /\
    busy_steps stations dt n r r' /\
    status r' = IDLE /\ tasks_completed r' = (tasks_completed r + 1)%nat /\
    position r' = tg /\ current_task r' = None /\
    target_position r' = None.
Proof.
  intros Hs Hc Ht Hdt Hsp Hb.
  assert (Hv : 0 < speed r * dt) by (apply Rmult_lt_0_compat; assumption).
  pose proof (distance_to_nonneg (position r) tg) as Hd1.
  destruct (busy_travel stations dt (arrival_bound r tg dt) r tg)
    as (k & rc & Hk & B & Cs & Ct & Cc & Cn & _ & _ & Cd & Cb);
    [right; left; exact Hs | exact Ht | exact Hv
    | apply arrival_bound_covers; exact Hv | exact Hb |].
  rewrite Hs in Cs. rewrite Hc in Cc.
  assert (Cb5 : 5 < battery_level rc) by lra.
  pose proof (update_robot_reaches_end stations dt rc task tg
                Cs Cc Ct Cb5 Cd) as U.
  eexists. eexists. split; [| split].
  2:{ eapply busy_steps_trans; [exact B |].
      eapply busy_step; [rewrite Cs; discriminate | exact U | constructor]. }
  - lia.
  - cbn. rewrite Cn. repeat split; reflexivity.
Qed.

(** X20.  The dashboard's robots never have to charge.  In every state of
    the dashboard each robot is idle without task and target, or [MOVING]
    to the start of the task it holds, or [WORKING] towards its end; its
    battery is above 9 by more than a tenth of the way it still has to go;
    it is not in [CHARGING], and no call of [move_towards_target] on it
    takes the low-battery exit.  (A task costs less than 10.6 on the
    floor, and the scheduler asks for more than 20.) *)
Theorem dashboard_robots_never_charge (db : AMRDashboard) :
  dashboard_reachable db ->
  Forall (fun r =>
            on_duty r
            /\ 9 + 0.1 * remaining_way r < battery_level r
            /\ status r <> CHARGING
            /\ forall target dt,
                 status (fst (Robot.move_towards_target r target dt))
                 = status r)
         (robots (fleet_manager db)).
Proof.
  intros Hr. pose proof (dashboard_on_duty db Hr) as H.
  eapply Forall_impl; [| exact H].
  intros r [Hd Hb]. unfold battery_reserve in Hb.
  pose proof (remaining_way_nonneg r) as Hw.
  split; [exact Hd |]. split; [lra |]. split.
  - destruct Hd as [(E & _) | [(E & _) | (E & _)]]; rewrite E; discriminate.
  - intros target dt.
    destruct (move_cases r target dt) as [[Hl _] | [[_ [_ E]] | [_ [_ E]]]];
      [lra | rewrite E; reflexivity | rewrite E; reflexivity].
Qed.

Lemma sample_dashboard_assigns :
  exists i t r,
    fst (AMRFleetManager.assign_step (fleet_manager sample_dashboard))
    = Some (i, t) /\
    nth_error (robots (fleet_manager sample_dashboard)) i = Some r.
Proof.
  destruct (fst (AMRFleetManager.assign_step (fleet_manager sample_dashboard)))
    as [[i t] |] eqn:Ea.
  - pose proof Ea as Ea'. rewrite assign_step_fst in Ea'.
    destruct (assign_optimal_robot_some _ _ _ _ Ea')
      as (r & _ & _ & Hn & _).
    exists i, t, r. split; [reflexivity | exact Hn].
  - exfalso. rewrite assign_step_fst in Ea.
    destruct (assign_optimal_robot_none _ _ Ea) as [_ [H | H]].
    + discriminate H.
    + apply (H (Robot.init "AMR-01" (mkPosition 10 10) 100 0)).
      * left. reflexivity.
      * split; [reflexivity | cbn; lra].
Qed.

Lemma dashboard_robots_never_charge_witness :
  exists db,
    dashboard_run sample_dashboard [Frame 0 sample_draws] = Some db
    /\ Forall (fun r => 9 < battery_level r /\ status r <> CHARGING)
              (robots (fleet_manager db)).
Proof.
  destruct (dashboard_run_total [Frame 0 sample_draws] sample_dashboard)
    as [db E]; [discriminate |].
  assert (Hv : valid_draws (fleet_manager sample_dashboard) sample_draws)
    by (apply sample_draws_valid; reflexivity).
  pose proof (frame_reachable _ _ _ _ sample_dashboard_reachable Hv E) as Hr.
  pose proof (dashboard_robots_never_charge db Hr) as H.
  exists db. split; [exact E |].
  eapply Forall_impl; [| exact H]. intros r (_ & Hb & Hs & _).
  pose proof (remaining_way_nonneg r). split; [lra | exact Hs].
Defined.

(** ** From the scheduler's choice to the delivery *)

(** X12.  On the dashboard a task that a robot holds gets done when frames
    alone follow (no click, the slider untouched): after some number of
    frames, at most [ceil(d1/(speed*0.1)) + ceil(d2/(speed*0.1)) + 2] for
    a robot in [MOVING] ([d1] to the start, [d2] from start to end) and at
    most [ceil(d/(speed*0.1)) + 1] for a robot in [WORKING], the robot is
    idle on the task's end, its counter one higher, without task and
    target. *)
Theorem assigned_task_gets_completed
    (db : AMRDashboard) (i : nat) (r : Robot) (t : Task) :
  dashboard_reachable db ->
  nth_error (robots (fleet_manager db)) i = Some r ->
  current_task r = Some t ->
  exists n,
    (n <= match status r with
          | MOVING =>
              arrival_bound r (start_pos t) 0.1
              + arrival_bound (set_position r (start_pos t)) (end_pos t) 0.1
              + 2
          | _ => arrival_bound r (end_pos t) 0.1 + 1
          end)%nat /\
    forall es, only_frames es -> length es = n ->
      exists db' r',
        dashboard_run db es = Some db' /\
        nth_error (robots (fleet_manager db')) i = Some r' /\
        status r' = IDLE /\
        tasks_completed r' = (tasks_completed r + 1)%nat /\
        position r' = end_pos t /\ current_task r' = None /\
        target_position r' = None.
Proof.
  intros Hr Hi Hc.
  pose proof (dashboard_ok_reachable db Hr) as (Hst & _ & _ & _ & Hok & _).
  pose proof (dashboard_on_duty db Hr) as Hd.
  rewrite Forall_forall in Hok, Hd.
  pose proof (nth_error_In _ _ Hi) as Hin.
  destruct (Hok r Hin) as (_ & _ & Hsp).
  destruct (Hd r Hin) as [Hduty Hres].
  assert (Hne : charging_stations (fleet_manager db) <> [])
    by (rewrite Hst; discriminate).
  unfold battery_reserve, remaining_way in Hres. rewrite Hc in Hres.
  destruct Hduty
    as [(Es & Ec & _) | [(Es & t' & Ec & Et) | (Es & t' & Ec & Et)]].
  - rewrite Hc in Ec. discriminate.
  - rewrite Hc in Ec. injection Ec as <-. rewrite Es in Hres |- *.
    destruct (busy_task (charging_stations (fleet_manager db)) 0.1 r t
                Es Hc Et) as (n & r' & Hn & B & H1 & H2 & H3 & H4 & H5);
      [lra | lra | lra |].
    exists n. split; [exact Hn |]. intros es Hes Hl.
    destruct (frames_follow_busy_robot n r r' db i es B Hne Hi Hes Hl)
      as (db' & Erun & Hi').
    exists db', r'. auto 10.
  - rewrite Hc in Ec. injection Ec as <-. rewrite Es in Hres |- *.
    destruct (busy_delivery (charging_stations (fleet_manager db)) 0.1 r t
                (end_pos t) Es Hc Et)
      as (n & r' & Hn & B & H1 & H2 & H3 & H4 & H5); [lra | lra | lra |].
    exists n. split; [exact Hn |]. intros es Hes Hl.
    destruct (frames_follow_busy_robot n r r' db i es B Hne Hi Hes Hl)
      as (db' & Erun & Hi').
    exists db', r'. auto 10.
Qed.

(** X18.  What the scheduler assigns on the dashboard gets delivered.  If
    the tick of the next frame is about to assign task [t] to robot [i],
    then after some number of frames alone, at least one and at most
    [ceil(d1/(speed*0.1)) + ceil(d2/(speed*0.1)) + 2], robot [i] is idle
    on the end of [t], its counter one higher, without task and target.
    The battery above 20 that the scheduler requires covers the way with
    more than 4 to spare. *)
Theorem scheduled_task_gets_delivered
    (db : AMRDashboard) (i : nat) (t : Task) (r : Robot) :
  dashboard_reachable db ->
  fst (AMRFleetManager.assign_step (fleet_manager db)) = Some (i, t) ->
  nth_error (robots (fleet_manager db)) i = Some r ->
  exists n,
    (1 <= n <= arrival_bound r (start_pos t) 0.1
               + arrival_bound (set_position r (start_pos t)) (end_pos t) 0.1
               + 2)%nat /\
    forall es, only_frames es -> length es = n ->
      exists db' r',
        dashboard_run db es = Some db' /\
        nth_error (robots (fleet_manager db')) i = Some r' /\
        status r' = IDLE /\
        tasks_completed r' = (tasks_completed r + 1)%nat /\
        position r' = end_pos t /\ current_task r' = None /\
        target_position r' = None.
Proof.
  intros Hr Ha Hi.
  pose proof (dashboard_ok_reachable db Hr)
    as (Hst & _ & _ & _ & Hok & Hfl & Hpe).
  rewrite Forall_forall in Hok, Hfl, Hpe.
  pose proof (nth_error_In _ _ Hi) as Hin.
  destruct (Hok r Hin) as (_ & _ & Hsp).
  destruct (Hfl r Hin) as (Hp & _).
  assert (Hne : charging_stations (fleet_manager db) <> [])
    by (rewrite Hst; discriminate).
  pose proof Ha as Ha'. rewrite assign_step_fst in Ha'.
  destruct (assign_optimal_robot_some _ _ _ _ Ha')
    as (r0 & l1 & l2 & Hr0 & [_ Hb] & Hpend & _).
  rewrite Hi in Hr0. injection Hr0 as <-.
  assert (Ht : task_on_floor t)
    by (apply Hpe; rewrite Hpend; apply in_elt).
  destruct Ht as [Hts Hte].
  pose proof (distance_on_floor _ _ Hp Hts) as Hd1.
  pose proof (distance_on_floor _ _ Hts Hte) as Hd2.
  set (ra := Robot.assign_task r t).
  set (ta := set_assigned_robot t (Some (robot_id r))).
  destruct (busy_task (charging_stations (fleet_manager db)) 0.1 ra ta)
    as (n & r' & Hn & B & Hs' & Hc' & Hp' & Ht' & Hg');
    [reflexivity | reflexivity | reflexivity | lra | cbn; lra
    | cbn; lra |].
  destruct n as [| k].
  { inversion B; subst. discriminate Hs'. }
  inversion B as [| j x x1 x' Hx Hu Hrest]; subst.
  exists (S k). split; [split; [lia | exact Hn] |].
  intros es Hes Hl.
  destruct es as [| e es]; [discriminate |].
  inversion Hes as [| e0 es0 He Hes']; subst e0 es0.
  destruct e as [frame d | | |]; try contradiction.
  destruct (update_dashboard_total db frame d Hne) as [db1 E1].
  destruct (update_dashboard_robots _ _ _ _ E1) as (fm1 & Eu & Er & Es).
  destruct (update_fleet_nth_assigned _ _ _ _ _ _ Eu Ha Hi)
    as (r1 & Hu1 & Hi1).
  fold ra in Hu1. rewrite Hu in Hu1. injection Hu1 as <-.
  destruct (frames_follow_busy_robot k x1 r' db1 i es)
    as (db' & Erun & Hi');
    [rewrite Es; exact Hrest | rewrite Es; exact Hne
    | rewrite Er; exact Hi1 | exact Hes' | cbn in Hl; lia |].
  exists db', r'. split.
  { cbn [dashboard_run dashboard_step]. rewrite E1. exact Erun. }
  split; [exact Hi' |].
  split; [exact Hs' |]. split; [exact Hc' |]. split; [exact Hp' |].
  split; [exact Ht' | exact Hg'].
Qed.

Lemma scheduled_task_gets_delivered_witness :
  exists i t r n,
    fst (AMRFleetManager.assign_step (fleet_manager sample_dashboard))
    = Some (i, t) /\
    nth_error (robots (fleet_manager sample_dashboard)) i = Some r /\
    (1 <= n)%nat /\
    forall es, only_frames es -> length es = n ->
      exists db' r',
        dashboard_run sample_dashboard es = Some db' /\
        nth_error (robots (fleet_manager db')) i = Some r' /\
        status r' = IDLE /\
        tasks_completed r' = (tasks_completed r + 1)%nat /\
        position r' = end_pos t.
Proof.
  destruct sample_dashboard_assigns as (i & t & r & Ha & Hi).
  destruct (scheduled_task_gets_delivered sample_dashboard i t r
              sample_dashboard_reachable Ha Hi) as (n & [Hn _] & H).
  exists i, t, r, n. split; [exact Ha |]. split; [exact Hi |].
  split; [exact Hn |]. intros es Hes Hl.
  destruct (H es Hes Hl) as (db' & r' & E & Hi' & Hs & Hc & Hp & _).
  exists db', r'. auto.
Defined.

Lemma assigned_task_gets_completed_witness :
  exists db i r t n,
    AMRDashboard.update_dashboard sample_dashboard 0 sample_draws = Some db /\
    nth_error (robots (fleet_manager db)) i = Some r /\
    current_task r = Some t /\
    forall es, only_frames es -> length es = n ->
      exists db' r',
        dashboard_run db es = Some db' /\
        nth_error (robots (fleet_manager db')) i = Some r' /\
        status r' = IDLE /\
        tasks_completed r' = (tasks_completed r + 1)%nat /\
        position r' = end_pos t.
Proof.
  destruct (update_dashboard_total sample_dashboard 0 sample_draws)
    as [db E]; [discriminate |].
  assert (Hv : valid_draws (fleet_manager sample_dashboard) sample_draws)
    by (apply sample_draws_valid; reflexivity).
  pose proof (dash_step sample_dashboard (Frame 0 sample_draws) db
                sample_dashboard_reachable Hv E) as Hr.
  destruct sample_dashboard_assigns as (i & t0 & r0 & Ha & Hi0).
  destruct (update_dashboard_robots _ _ _ _ E) as (fm1 & Eu & Er & _).
  destruct (update_fleet_nth_assigned _ _ _ _ _ _ Eu Ha Hi0)
    as (r1 & Hu1 & Hi1).
  pose proof Ha as Ha'. rewrite assign_step_fst in Ha'.
  destruct (assign_optimal_robot_some _ _ _ _ Ha')
    as (rr & _ & _ & Hrr & [_ Hb] & _).
  rewrite Hi0 in Hrr. injection Hrr as <-.
  assert (Hb5 : 5 < battery_level r0) by lra.
  destruct (update_robot_assigned _ _ _ _ _ Hb5 Hu1) as [_ Hc].
  rewrite <- Er in Hi1.
  destruct (assigned_task_gets_completed db i r1 _ Hr Hi1 Hc) as (n & _ & H).
  exists db, i, r1, (set_assigned_robot t0 (Some (robot_id r0))), n.
  split; [exact E |]. split; [exact Hi1 |].
  split; [exact Hc |]. intros es Hes Hl.
  destruct (H es Hes Hl) as (db' & r' & E' & Hi' & Hs & Hn & Hp & _).
  exists db', r'. auto.
Defined.

(** ** Sent to charge on the floor *)

(** X13.  A robot of the fleet (capacity 100, speed between 0.2 and 6)
    that stands on the floor in [CHARGING] without a target, as
    [charge_all] leaves it, with a battery of at least 12, recovers when
    the stations are on the floor and the time step is at least 0.01: it
    drives to the station nearest to it and charges, and after at most
    [ceil(d/(speed*dt)) + ceil((90 - (battery - 0.1*d))/(20*dt)) + 2]
    ticks of the fleet it is idle on that station, without target, with
    its battery between 90 and 100.  (The way costs at most 5.3, so the
    battery stays above 6.) *)
Theorem robot_sent_to_charge_recovers
    (fm : AMRFleetManager) (i : nat) (r : Robot) (s : Position) (dt : R) :
  nth_error (robots fm) i = Some r ->
  status r = CHARGING -> target_position r = None ->
  py_min_by (fun s => distance_to (position r) s) (charging_stations fm)
  = Some s ->
  Forall on_floor (charging_stations fm) -> on_floor (position r) ->
  dashboard_robot_ok r -> 12 <= battery_level r -> 0.01 <= dt ->
  exists n fm' r',
    (1 <= n <= arrival_bound r s dt
               + charge_bound 100
                   (battery_level r - 0.1 * distance_to (position r) s) dt
               + 2)%nat /\
    run fm (ticks n dt) = Some fm' /\
    nth_error (robots fm') i = Some r' /\
    status r' = IDLE /\ position r' = s /\ target_position r' = None /\
    90 <= battery_level r' <= 100.
Proof.
  intros Hn Hs Ht Hp Hst Hpos (Hb & Hm & Hsp) Hb12 Hdt.
  assert (Hsf : on_floor s).
  { rewrite Forall_forall in Hst. apply Hst.
    apply (py_min_by_In _ _ _ Hp). }
  pose proof (distance_on_floor _ _ Hpos Hsf) as Hd.
  destruct (charging_run fm i r s dt Hn Hs Ht Hp)
    as (n & fm' & r' & Hk & E & Hn' & Hs' & Hp' & Ht' & Hb');
    [lra | lra | lra | lra |].
  rewrite Hm in Hk, Hb'.
  exists n, fm', r'. split; [lia |].
  split; [exact E |]. split; [exact Hn' |]. split; [exact Hs' |].
  split; [exact Hp' |]. split; [exact Ht' | lra].
Qed.

Lemma robot_sent_to_charge_recovers_witness :
  exists n fm' r',
    run sent_to_charge_fleet (ticks n 0.1) = Some fm' /\
    nth_error (robots fm') 0 = Some r' /\
    status r' = IDLE /\ position r' = mkPosition 5 5 /\
    90 <= battery_level r' <= 100.
Proof.
  assert (Hp : py_min_by
                 (fun s => distance_to (position sent_to_charge_robot) s)
                 (charging_stations sent_to_charge_fleet)
               = Some (mkPosition 5 5)).
  { cbv [py_min_by fold_left sent_to_charge_fleet AMRFleetManager.add_robot
         AMRFleetManager.init charging_stations set_robots
         sent_to_charge_robot position].
    rewrite (proj2 (Rltb_false (distance_to (mkPosition 3 5)
                                  (mkPosition 45 5)) _))
      by (rewrite !distance_to_same_y by lra; lra).
    rewrite (proj2 (Rltb_false (distance_to (mkPosition 3 5)
                                  (mkPosition 25 25)) _)).
    - reflexivity.
    - rewrite (distance_to_same_y 3 5 5 5) by lra.
      pose proof (distance_to_nonneg (mkPosition 3 5) (mkPosition 25 25))
        as H0.
      pose proof (distance_to_sqr (mkPosition 3 5) (mkPosition 25 25)) as Hq.
      cbn [px py] in Hq. nra. }
  destruct (robot_sent_to_charge_recovers sent_to_charge_fleet 0
              sent_to_charge_robot (mkPosition 5 5) 0.1
              eq_refl eq_refl eq_refl Hp)
    as (n & fm' & r' & _ & E & Hn & Hs & Hpos & _ & Hb).
  - apply stations_on_floor.
  - unfold on_floor. cbn. lra.
  - unfold dashboard_robot_ok. cbn. lra.
  - cbn. lra.
  - lra.
  - exists n, fm', r'. auto.
Defined.
